(** * xpose backend: the repository ingestion pipeline of [backend/main.py]

    A shallow embedding of the URL validator ([normalize_repo_url]), the
    archive sanitizer ([safe_extract_zip]), the tree collector
    ([is_binary_file], [contains_skipped_segment], [recursively_collect]) and
    the orchestrator ([parse_repo], [stream_upload_to_file],
    [clone_repository]) and the settings parsed from the environment
    ([ALLOWED_GIT_HOSTS], [get_allowed_origins]), followed by the properties
    established about them.

    Conventions.  A Python [str] is a [string] (the model covers ASCII text);
    a Python [int] is a [Z]; [bytes] is a [list byte]; a
    Python [set] is a [gset]; a raised exception is the left injection of a
    sum; the float comparison of [is_binary_file] is computed on binary64
    primitive floats. *)

From Stdlib Require Import ZArith List String Ascii Lia Bool Sorted.
From Stdlib Require Import Strings.Byte Floats Uint63.
From stdpp Require Import base gmap strings list.

Local Open Scope string_scope.
Local Open Scope list_scope.
Local Open Scope Z_scope.

(** ** Exceptions *)

(** The exceptions that the modelled code raises or lets through. *)
Inductive exn : Type :=
| ValueError (msg : string)
| BadZipFile (msg : string)
| RuntimeError (msg : string)
| NotImplementedError (msg : string)
| ZeroDivisionError
| NotADirectoryError
| TimeoutExpired
| HTTPException (status_code : Z) (detail : string).

(** [result A]: a computation that either raises or returns an [A]. *)
Definition result (A : Type) : Type := exn + A.

(** [raise e]. *)
Definition raise {A : Type} (e : exn) : result A := inl e.

#[global] Instance result_ret : MRet result := fun A a => inr a.
#[global] Instance result_bind : MBind result := fun A B k m =>
  match m with
  | inl e => inl e
  | inr a => k a
  end.

(** The computation ends in an exception. *)
Definition raises {A : Type} (m : result A) : Prop := exists e, m = inl e.

(** ** Python [str] operations *)

Module Py.

(** [c in s] for a one-character [c]. *)
Fixpoint contains (c : ascii) (s : string) : bool :=
  match s with
  | EmptyString => false
  | String a s' => Ascii.eqb a c || contains c s'
  end.

(** [s.partition(c)]: the text before the first [c], whether [c] was
    found, and the text after it; [(s, false, "")] when [c] is absent. *)
Fixpoint partition (c : ascii) (s : string) : string * bool * string :=
  match s with
  | EmptyString => (EmptyString, false, EmptyString)
  | String a s' =>
      if Ascii.eqb a c then (EmptyString, true, s')
      else let '(h, found, t) := partition c s' in (String a h, found, t)
  end.

(** [s.rpartition(c)]: split at the last [c]; [("", false, s)] when [c] is
    absent. *)
Fixpoint rpartition (c : ascii) (s : string) : string * bool * string :=
  match s with
  | EmptyString => (EmptyString, false, EmptyString)
  | String a s' =>
      let '(h, found, t) := rpartition c s' in
      if found then (String a h, true, t)
      else if Ascii.eqb a c then (EmptyString, true, s')
      else (EmptyString, false, String a t)
  end.

(** [s.split(c)]: always at least one field. *)
Fixpoint split (c : ascii) (s : string) : list string :=
  match s with
  | EmptyString => [EmptyString]
  | String a s' =>
      if Ascii.eqb a c then EmptyString :: split c s'
      else match split c s' with
           | x :: xs => String a x :: xs
           | [] => [String a EmptyString]
           end
  end.

(** [sep.join(xs)]. *)
Fixpoint join (sep : string) (xs : list string) : string :=
  match xs with
  | [] => EmptyString
  | [x] => x
  | x :: xs' => x +:+ sep +:+ join sep xs'
  end.

(** ASCII character classes. *)
Definition is_upper (c : ascii) : bool :=
  let n := nat_of_ascii c in (65 <=? n)%nat && (n <=? 90)%nat.
Definition is_lower (c : ascii) : bool :=
  let n := nat_of_ascii c in (97 <=? n)%nat && (n <=? 122)%nat.
Definition is_digit (c : ascii) : bool :=
  let n := nat_of_ascii c in (48 <=? n)%nat && (n <=? 57)%nat.
Definition is_alpha (c : ascii) : bool := is_upper c || is_lower c.

(** [c.lower()] on an ASCII character. *)
Definition lower_char (c : ascii) : ascii :=
  if is_upper c then ascii_of_nat (nat_of_ascii c + 32) else c.

(** [s.lower()]. *)
Fixpoint lower (s : string) : string :=
  match s with
  | EmptyString => EmptyString
  | String a s' => String (lower_char a) (lower s')
  end.

(** [all(p(c) for c in s)]. *)
Fixpoint all_chars (p : ascii -> bool) (s : string) : bool :=
  match s with
  | EmptyString => true
  | String a s' => p a && all_chars p s'
  end.

(** [s.lstrip(chars)], the characters to strip given as a predicate. *)
Fixpoint lstrip (p : ascii -> bool) (s : string) : string :=
  match s with
  | EmptyString => EmptyString
  | String a s' => if p a then lstrip p s' else s
  end.

(** Every character satisfying [p] removed (a chain of [s.replace(b, "")]). *)
Fixpoint remove_chars (p : ascii -> bool) (s : string) : string :=
  match s with
  | EmptyString => EmptyString
  | String a s' => if p a then remove_chars p s' else String a (remove_chars p s')
  end.

(** The longest prefix of [s] whose characters all satisfy [p], and the rest. *)
Fixpoint span (p : ascii -> bool) (s : string) : string * string :=
  match s with
  | EmptyString => (EmptyString, EmptyString)
  | String a s' =>
      if p a then let '(h, t) := span p s' in (String a h, t)
      else (EmptyString, s)
  end.

(** [s.startswith(pre)]. *)
Definition startswith (pre s : string) : bool := String.prefix pre s.

(** [s.endswith(suf)]. *)
Definition endswith (suf s : string) : bool :=
  let n := String.length s in
  let m := String.length suf in
  (m <=? n)%nat && String.eqb (substring (n - m) m s) suf.

(** [s[:-k]]. *)
Definition drop_last (k : nat) (s : string) : string :=
  substring 0 (String.length s - k) s.

(** ASCII white space, as [str.strip] sees it. *)
Definition is_space (c : ascii) : bool :=
  let n := nat_of_ascii c in
  (n =? 32)%nat || ((9 <=? n)%nat && (n <=? 13)%nat)
  || ((28 <=? n)%nat && (n <=? 31)%nat).

(** [s.strip()]. *)
Definition strip (s : string) : string :=
  String.rev (lstrip is_space (String.rev (lstrip is_space s))).

(** Truth value of a [str]: non-empty. *)
Definition truthy (s : string) : bool := negb (String.eqb s EmptyString).

(** Truth value of an [Optional[str]]: neither [None] nor empty. *)
Definition truthy_opt (o : option string) : bool :=
  match o with
  | Some s => truthy s
  | None => false
  end.

End Py.

(** ** [urllib.parse.urlparse]

    The standard-library parser as [normalize_repo_url] uses it, after
    [urlsplit] and [urlparse] of CPython 3.12.  Non-ASCII URLs (and with
    them the NFKC check of [_checknetloc]) are outside the model. *)

Module Urllib.

(** The six components of a parsed URL. *)
Record ParseResult : Type := {
  scheme : string;
  netloc : string;
  path : string;
  params : string;
  query : string;
  fragment : string
}.

(** Characters stripped from the front of a URL: C0 controls and space. *)
Definition c0_control_or_space (c : ascii) : bool :=
  (nat_of_ascii c <=? 32)%nat.

(** Characters removed anywhere in a URL: tab, carriage return, newline. *)
Definition unsafe_url_byte (c : ascii) : bool :=
  let n := nat_of_ascii c in
  (n =? 9)%nat || (n =? 13)%nat || (n =? 10)%nat.

(** [scheme_chars]: letters, digits and [+-.]. *)
Definition scheme_char (c : ascii) : bool :=
  Py.is_alpha c || Py.is_digit c || Py.contains c "+-.".

(** [url[0].isascii() and url[0].isalpha()]. *)
Definition first_is_alpha (s : string) : bool :=
  match s with
  | String a _ => Py.is_alpha a
  | EmptyString => false
  end.

(** The scheme split of [urlsplit]: [url[:i].lower(), url[i+1:]] when the
    text before the first colon is a scheme, else no scheme. *)
Definition split_scheme (url : string) : string * string :=
  let '(pre, found, post) := Py.partition ":" url in
  if found && first_is_alpha pre && Py.all_chars scheme_char pre
  then (Py.lower pre, post)
  else (EmptyString, url).

(** [_splitnetloc(url, 2)] on a [url] starting with two slashes, given
    without them: the netloc runs to the first of [/?#]. *)
Definition splitnetloc (after_slashes : string) : string * string :=
  Py.span (fun c => negb (Py.contains c "/?#")) after_slashes.

(** The schemes whose last path segment may carry parameters. *)
Definition uses_params : list string :=
  [""; "ftp"; "hdl"; "prospero"; "http"; "imap"; "https"; "shttp"; "rtsp";
   "rtsps"; "rtspu"; "sip"; "sips"; "mms"; "sftp"; "tel"].

(** [_splitparams]: the parameters follow the first semicolon of the last
    path segment. *)
Definition splitparams (url : string) : string * string :=
  if Py.contains "/" url then
    let '(dir, _, last) := Py.rpartition "/" url in
    let '(name, found, ps) := Py.partition ";" last in
    if found then (dir +:+ "/" +:+ name, ps) else (url, EmptyString)
  else
    let '(name, _, ps) := Py.partition ";" url in (name, ps).

Section Parser.

(** Whether [urlsplit] accepts a netloc that holds both [[] and []].
    CPython before 3.11.4 accepts every such netloc; from 3.11.4 on
    [_check_bracketed_host] asks for an IPv6 or IPvFuture literal between
    the brackets, and later releases ([_check_bracketed_netloc]) also for
    nothing around them but a port.  The properties below hold for any
    such check. *)
Variable bracketed_netloc_ok : string -> bool.

(** [urlsplit(url)]. *)
Definition urlsplit (url0 : string) : result ParseResult :=
  let url := Py.lstrip c0_control_or_space url0 in
  let url := Py.remove_chars unsafe_url_byte url in
  let '(scheme, url) := split_scheme url in
  '(netloc, url) ←
    (match url with
     | String "/" (String "/" rest) =>
         let '(netloc, url) := splitnetloc rest in
         let lb := Py.contains "[" netloc in
         let rb := Py.contains "]" netloc in
         if (lb && negb rb) || (rb && negb lb)
         then raise (ValueError "Invalid IPv6 URL")
         else if lb && rb && negb (bracketed_netloc_ok netloc)
         then raise (ValueError "Invalid IPv6 URL")
         else mret (netloc, url)
     | _ => mret (EmptyString, url)
     end);
  let '(url, fragment) :=
    if Py.contains "#" url
    then let '(u, _, f) := Py.partition "#" url in (u, f)
    else (url, EmptyString) in
  let '(url, query) :=
    if Py.contains "?" url
    then let '(u, _, q) := Py.partition "?" url in (u, q)
    else (url, EmptyString) in
  mret {| scheme := scheme; netloc := netloc; path := url;
         params := EmptyString; query := query; fragment := fragment |}.

(** [urlparse(url)]: [urlsplit], then the parameters of the last segment. *)
Definition urlparse (url : string) : result ParseResult :=
  r ← urlsplit url;
  let '(url, ps) :=
    if bool_decide (scheme r ∈ uses_params) && Py.contains ";" (path r)
    then splitparams (path r)
    else (path r, EmptyString) in
  mret {| scheme := scheme r; netloc := netloc r; path := url;
         params := ps; query := query r; fragment := fragment r |}.

End Parser.

(** [_userinfo]: the user name and password of a netloc. *)
Definition userinfo (nl : string) : option string * option string :=
  let '(info, have_info, _) := Py.rpartition "@" nl in
  if have_info then
    let '(user, have_password, pw) := Py.partition ":" info in
    (Some user, if have_password then Some pw else None)
  else (None, None).

(** [parsed.username] and [parsed.password]. *)
Definition username (r : ParseResult) : option string := (userinfo (netloc r)).1.
Definition password (r : ParseResult) : option string := (userinfo (netloc r)).2.

End Urllib.

(** ** Configuration read from the environment at start-up *)

(** The module-level settings of [main.py]. *)
Record Config : Type := {
  ALLOWED_GIT_HOSTS : gset string;
  MAX_ZIP_BYTES : Z;
  MAX_EXTRACT_BYTES : Z;
  MAX_FILE_BYTES : Z;
  GIT_CLONE_TIMEOUT_SECONDS : Z
}.

(** The values the program uses when the environment sets none. *)
Definition default_config : Config := {|
  ALLOWED_GIT_HOSTS := {[ "github.com"; "www.github.com" ]};
  MAX_ZIP_BYTES := 50 * 1024 * 1024;
  MAX_EXTRACT_BYTES := 200 * 1024 * 1024;
  MAX_FILE_BYTES := 512000;
  GIT_CLONE_TIMEOUT_SECONDS := 60
|}.

(** The names that the collector prunes. *)
Definition SKIP_DIRS : gset string :=
  {[ ".git"; "node_modules"; "__pycache__"; "build"; ".venv"; "venv"; ".next";
     "dist"; "out"; "coverage"; ".pytest_cache"; ".mypy_cache"; ".ruff_cache";
     ".tox"; ".idea"; ".vscode"; ".cache" ]}.

(** ** Settings parsed from the environment *)

(** [ALLOWED_GIT_HOSTS] ([main.py], lines 43-47), from the value of the
    environment variable of that name, [None] when it is not set. *)
Definition allowed_git_hosts (value : option string) : gset string :=
  list_to_set
    (List.map (fun host => Py.lower (Py.strip host))
       (List.filter (fun host => Py.truthy (Py.strip host))
          (Py.split "," (default "github.com,www.github.com" value)))).

(** [get_allowed_origins()] ([main.py], lines 59-63), from the value of
    [ALLOWED_ORIGINS], [None] when it is not set. *)
Definition get_allowed_origins (value : option string) : list string :=
  let raw := Py.strip (default EmptyString value) in
  if Py.truthy raw then
    List.map Py.strip
      (List.filter (fun origin => Py.truthy (Py.strip origin)) (Py.split "," raw))
  else ["http://localhost:3000"; "http://127.0.0.1:3000"].

(** ** URL validator *)

Section UrlValidator.

Variable cfg : Config.
Variable bracketed_netloc_ok : string -> bool.

(** [netloc.split(':')[0].lower()]. *)
Definition host_of (nl : string) : string :=
  Py.lower (hd EmptyString (Py.split ":" nl)).

(** [[part for part in path.split('/') if part]]. *)
Definition path_parts (p : string) : list string :=
  List.filter Py.truthy (Py.split "/" p).

(** [repo[:-4] if repo.endswith('.git') else repo]. *)
Definition strip_git (repo : string) : string :=
  if Py.endswith ".git" repo then Py.drop_last 4 repo else repo.

(** [normalize_repo_url(repo_url)] ([main.py], lines 135-154). *)
Definition normalize_repo_url (repo_url : string) : result string :=
  if (2048 <? String.length repo_url)%nat then
    raise (ValueError "Repo URL is too long")
  else
    parsed ← Urllib.urlparse bracketed_netloc_ok repo_url;
    if negb (String.eqb (Urllib.scheme parsed) "http"
             || String.eqb (Urllib.scheme parsed) "https") then
      raise (ValueError "Only http/https repo URLs are allowed")
    else if Py.truthy_opt (Urllib.username parsed)
            || Py.truthy_opt (Urllib.password parsed)
            || Py.truthy (Urllib.query parsed)
            || Py.truthy (Urllib.fragment parsed) then
      raise (ValueError "Repo URL contains unsupported credentials or query params")
    else
      let host := host_of (Urllib.netloc parsed) in
      if negb (bool_decide (host ∈ ALLOWED_GIT_HOSTS cfg)) then
        raise (ValueError "Repo host is not allowed")
      else
        match path_parts (Urllib.path parsed) with
        | owner :: repo :: _ =>
            let repo := strip_git repo in
            if negb (Py.truthy owner) || negb (Py.truthy repo) then
              raise (ValueError "Repo URL must include owner/repo")
            else
              mret ("https://" +:+ host +:+ "/" +:+ owner +:+ "/" +:+ repo +:+ ".git")
        | _ => raise (ValueError "Repo URL must include owner/repo")
        end.

End UrlValidator.

(** ** [pathlib] on a POSIX file system without symbolic links above the
       paths involved *)

Module PathLib.

(** A [PurePosixPath]: whether it is rooted, and its components (never
    empty, never [.]).  A double leading slash is read as a single one. *)
Record Path : Type := {
  absolute : bool;
  segments : list string
}.

(** A component that [Path] keeps: neither empty nor [.]. *)
Definition is_component (s : string) : bool :=
  Py.truthy s && negb (String.eqb s ".").

(** [Path(s)]. *)
Definition of_str (s : string) : Path :=
  {| absolute := Py.startswith "/" s;
     segments := List.filter is_component (Py.split "/" s) |}.

(** [p / s]: an absolute [s] replaces [p]. *)
Definition joinpath (p : Path) (s : string) : Path :=
  let q := of_str s in
  if absolute q then q
  else {| absolute := absolute p; segments := segments p ++ segments q |}.

(** [str(p)], which is also [p.as_posix()]. *)
Definition str (p : Path) : string :=
  if absolute p then "/" +:+ Py.join "/" (segments p)
  else match segments p with
       | [] => "."
       | _ => Py.join "/" (segments p)
       end.

(** [os.path.normpath] on the components of an absolute path: [..] drops
    the component before it and is itself dropped at the root.  [done]
    holds the components already settled, last one first. *)
Fixpoint collapse (done todo : list string) : list string :=
  match todo with
  | [] => rev done
  | s :: todo' =>
      if String.eqb s ".." then collapse (tl done) todo'
      else collapse (s :: done) todo'
  end.

(** [p.resolve()] from the working directory [cwd] (the components of an
    absolute path). *)
Definition resolve (cwd : list string) (p : Path) : Path :=
  {| absolute := true;
     segments := collapse [] (if absolute p then segments p
                              else cwd ++ segments p) |}.

(** [p.is_relative_to(root)] for two resolved paths: [p] is [root] or lies
    below it. *)
Definition is_relative_to (p root : Path) : bool :=
  bool_decide (segments root `prefix_of` segments p).

End PathLib.

(** ** Archive sanitizer *)

(** A member of a zip archive as [zipfile.ZipInfo] describes it. *)
Record ZipInfo : Type := {
  filename : string;
  external_attr : Z;
  file_size : Z;
  compress_size : Z
}.

(** What extracting one member does.  The library writes the file, or it
    raises: before the file is created, when the member cannot be opened
    ([RuntimeError] for an encrypted member, [NotImplementedError] for a
    compression method that is not supported, [BadZipFile] for a bad
    header), or after, while the data is copied ([BadZipFile] for a wrong
    CRC). *)
Inductive extraction : Type :=
| Extracted
| RaisesUnopened (e : exn)
| RaisesPartway (e : exn).

(** What [zipfile.ZipFile(source_file)] finds: no archive, or an archive
    with its members as [infolist()] lists them and what extracting each
    of them does. *)
Inductive zip_source : Type :=
| NotAZip
| Archive (infolist : list ZipInfo) (extract : ZipInfo -> extraction).

(** The files below the destination that a call has written. *)
Definition disk : Type := list PathLib.Path.

(** The file-type bits of a Unix mode ([0o170000]) and the type of a
    symbolic link ([0o120000]). *)
Definition S_IFMT : Z := 0xF000.
Definition S_IFLNK : Z := 0xA000.

(** [is_symlink(info)] ([main.py], lines 175-176). *)
Definition is_symlink (info : ZipInfo) : bool :=
  Z.land (Z.shiftr (external_attr info) 16) S_IFMT =? S_IFLNK.

Section ArchiveSanitizer.

(** The working directory of the process, against which [resolve] reads a
    relative path. *)
Variable cwd : list string.

(** The loop of [safe_extract_zip] over [archive.infolist()], from the
    running [total_size]; it returns the final total. *)
Fixpoint check_members (destination root : PathLib.Path)
    (max_total_bytes total_size : Z) (members : list ZipInfo) : result Z :=
  match members with
  | [] => mret total_size
  | member :: rest =>
      if is_symlink member then
        raise (ValueError "Zip contains symlinks")
      else
        let target := PathLib.joinpath destination (filename member) in
        if negb (Py.startswith (PathLib.str root)
                   (PathLib.str (PathLib.resolve cwd target))) then
          raise (ValueError "Zip contains invalid paths")
        else if file_size member <? 0 then
          raise (ValueError "Zip contains invalid file size")
        else
          let total_size := total_size + file_size member in
          if max_total_bytes <? total_size then
            raise (ValueError "Zip exceeds allowed total size")
          else
            check_members destination root max_total_bytes total_size rest
  end.

(** Where [ZipFile.extract] writes a member: below the destination, the
    member's name without empty, [.] and [..] components. *)
Definition extract_target (destination : PathLib.Path) (member : ZipInfo)
    : PathLib.Path :=
  {| PathLib.absolute := PathLib.absolute destination;
     PathLib.segments :=
       PathLib.segments destination ++
       List.filter (fun x => PathLib.is_component x && negb (String.eqb x ".."))
                   (Py.split "/" (filename member)) |}.

(** [archive.extractall(destination)]: the members are extracted in order;
    the first that raises ends the call, with the members before it on
    disk and, when it raised while its data was copied, its own file as
    well. *)
Fixpoint extractall (extract : ZipInfo -> extraction) (members : list ZipInfo)
    (destination : PathLib.Path) (d : disk) : result unit * disk :=
  match members with
  | [] => (mret tt, d)
  | member :: rest =>
      match extract member with
      | Extracted =>
          extractall extract rest destination
            (d ++ [extract_target destination member])
      | RaisesUnopened e => (inl e, d)
      | RaisesPartway e => (inl e, d ++ [extract_target destination member])
      end
  end.

(** [safe_extract_zip(source_file, destination, max_total_bytes)]
    ([main.py], lines 179-194), from the disk [d] to the disk it leaves. *)
Definition safe_extract_zip (source_file : zip_source)
    (destination : PathLib.Path) (max_total_bytes : Z) (d : disk)
    : result unit * disk :=
  match source_file with
  | NotAZip => (raise (BadZipFile "File is not a zip file"), d)
  | Archive members extract =>
      let root := PathLib.resolve cwd destination in
      match check_members destination root max_total_bytes 0 members with
      | inl e => (inl e, d)
      | inr _ => extractall extract members destination d
      end
  end.

End ArchiveSanitizer.
(** ** Decoding file contents: [read_text(encoding='utf-8', errors='replace')] *)

Module Codec.

(** Decoded text: a sequence of Unicode code points. *)
Definition text : Type := list N.

(** U+FFFD, the replacement character. *)
Definition REPLACEMENT : N := 0xFFFD%N.

(** A multi-byte sequence under way: continuation bytes still expected,
    the range allowed for the next one, and the bits gathered so far. *)
Record pending : Type := {
  need : nat;
  lo : N;
  hi : N;
  bits : N
}.

(** The first byte of a sequence: a code point at once (ASCII, or the
    replacement for a byte that cannot start a sequence), or a sequence
    to continue. *)
Definition start (b : N) : N + pending :=
  (if b <? 0x80 then inl b
   else if b <? 0xC2 then inl REPLACEMENT
   else if b <? 0xE0 then inr {| need := 1; lo := 0x80; hi := 0xBF; bits := b - 0xC0 |}
   else if b =? 0xE0 then inr {| need := 2; lo := 0xA0; hi := 0xBF; bits := 0 |}
   else if b =? 0xED then inr {| need := 2; lo := 0x80; hi := 0x9F; bits := 0xD |}
   else if b <? 0xF0 then inr {| need := 2; lo := 0x80; hi := 0xBF; bits := b - 0xE0 |}
   else if b =? 0xF0 then inr {| need := 3; lo := 0x90; hi := 0xBF; bits := 0 |}
   else if b <? 0xF4 then inr {| need := 3; lo := 0x80; hi := 0xBF; bits := b - 0xF0 |}
   else if b =? 0xF4 then inr {| need := 3; lo := 0x80; hi := 0x8F; bits := 4 |}
   else inl REPLACEMENT)%N.

(** UTF-8 decoding in which every ill-formed sequence becomes one
    replacement character and decoding resumes at the offending byte. *)
Fixpoint decode (st : option pending) (data : list byte) : text :=
  match data with
  | [] => match st with
          | Some _ => [REPLACEMENT]
          | None => []
          end
  | b :: data' =>
      let fresh (pre : text) :=
        match start (Byte.to_N b) with
        | inl c => pre ++ c :: decode None data'
        | inr p => pre ++ decode (Some p) data'
        end in
      match st with
      | None => fresh []
      | Some p =>
          let n := Byte.to_N b in
          if ((lo p <=? n) && (n <=? hi p))%N then
            let acc := (bits p * 64 + (n - 0x80))%N in
            match need p with
            | S (S k) =>
                decode (Some {| need := S k; lo := 0x80%N; hi := 0xBF%N; bits := acc |}) data'
            | _ => acc :: decode None data'
            end
          else fresh [REPLACEMENT]
      end
  end.

(** Universal newlines: [\r\n] and a lone [\r] are read as [\n]. *)
Fixpoint translate_newlines (t : text) : text :=
  match t with
  | [] => []
  | c :: t' =>
      if (c =? 13)%N then
        10%N :: match t' with
                | c' :: t'' => if (c' =? 10)%N then translate_newlines t''
                               else translate_newlines t'
                | [] => []
                end
      else c :: translate_newlines t'
  end.

(** [path.read_text(encoding='utf-8', errors='replace')] on a file holding
    [data]. *)
Definition read_text (data : list byte) : text :=
  translate_newlines (decode None data).

End Codec.

(** ** Tree collector *)

#[local] Unset Elimination Schemes.

(** What the collector finds at a path: a regular file with its bytes and
    whether it can be opened, a directory with its entries as [iterdir]
    lists them, a symbolic link, or anything else (a socket, a device). *)
Inductive node : Type :=
| File (data : list byte) (readable : bool)
| Dir (entries : list (string * node))
| Symlink
| Other.

(** A tree node: [{name, path, type: 'file'}] or
    [{name, path, type: 'directory', children}]. *)
Inductive TreeNode : Type :=
| FileNode (name path : string)
| DirNode (name path : string) (children : list TreeNode).

#[local] Set Elimination Schemes.

(** A file record as [ParsedFile] carries it; an absent key is [None]. *)
Record FileRecord : Type := {
  rec_path : string;
  rec_size : Z;
  omitted : bool;
  omittedReason : option string;
  content : option Codec.text
}.

(** [set(range(32, 127)) | {9, 10, 13}]. *)
Definition text_chars (b : N) : bool :=
  ((32 <=? b) && (b <? 127) || (b =? 9) || (b =? 10) || (b =? 13))%N.

(** [float(n)] for a small non-negative integer. *)
Definition float_of_int (n : Z) : float := PrimFloat.of_uint63 (Uint63.of_Z n).

(** [a / b] on integers: a float, or [ZeroDivisionError]. *)
Definition truediv (a b : Z) : result float :=
  if b =? 0 then raise ZeroDivisionError
  else mret (PrimFloat.div (float_of_int a) (float_of_int b)).

(** The float literal [0.3]: the binary64 value nearest to it. *)
Definition threshold : float := 0x1.3333333333333p-2%float.

(** [is_binary_file(path, sample_size)] ([main.py], lines 116-128) on a
    file holding [data]; opening a file that is not [readable] raises
    [OSError], which the function answers with [True]. *)
Definition is_binary_file (data : list byte) (readable : bool)
    (sample_size : nat) : result bool :=
  if negb readable then mret true
  else
    let chunk := take sample_size data in
    match chunk with
    | [] => mret false
    | _ =>
        if existsb (fun b => (Byte.to_N b =? 0)%N) chunk then mret true
        else
          let non_text :=
            Z.of_nat (length (List.filter (fun b => negb (text_chars (Byte.to_N b))) chunk)) in
          ratio ← truediv non_text (Z.of_nat (length chunk));
          mret (PrimFloat.ltb threshold (ratio : float))
    end.

(** [contains_skipped_segment(path)] ([main.py], lines 131-132), the path
    given by its parts. *)
Definition contains_skipped_segment (parts : list string) : bool :=
  existsb (fun part => bool_decide (part ∈ SKIP_DIRS)) parts.

(** [sorted(xs, key=key)] on string keys is the stable ascending sort;
    [insert_by] puts [x] in front of the first element whose key is not
    below its own. *)
Fixpoint insert_by {A : Type} (key : A -> string) (x : A) (l : list A) : list A :=
  match l with
  | [] => [x]
  | y :: l' =>
      if String.leb (key x) (key y) then x :: l
      else y :: insert_by key x l'
  end.

(** [sorted(l, key=key)]. *)
Fixpoint sorted {A : Type} (key : A -> string) (l : list A) : list A :=
  match l with
  | [] => []
  | x :: l' => insert_by key x (sorted key l')
  end.

(** A [for] loop whose body may raise. *)
Fixpoint for_each {A S : Type} (body : S -> A -> result S) (s : S) (l : list A)
    : result S :=
  match l with
  | [] => mret s
  | x :: l' => s' ← body s x; for_each body s' l'
  end.

Section TreeCollector.

Variable cfg : Config.

(** [(rel_path / name).as_posix().lstrip('./')], the relative path given
    by its components. *)
Definition node_path (parts : list string) : string :=
  Py.lstrip (fun c => Py.contains c "./") (Py.join "/" parts).

(** What the walk gathers: [(tree_nodes, file_records)]. *)
Definition collected : Type := list TreeNode * list FileRecord.

(** One iteration of the loop of [recursively_collect] on the entry
    [name], with [sub] the outcome of the recursive call on it. *)
Definition visit (rel_path : list string) (acc : collected)
    (entry : string * node * result collected) : result collected :=
  let '(name, n, sub) := entry in
  let '(tree_nodes, file_records) := acc in
  if contains_skipped_segment (rel_path ++ [name]) then mret acc
  else
    let node_path := node_path (rel_path ++ [name]) in
    match n with
    | Symlink => mret acc
    | Dir _ =>
        '(children_tree, children_files) ← sub;
        mret (tree_nodes ++ [DirNode name node_path children_tree],
              file_records ++ children_files)
    | File data readable =>
        let size := Z.of_nat (length data) in
        binary ← is_binary_file data readable 1024%nat;
        if (binary : bool) then
          mret (tree_nodes ++ [FileNode name node_path],
                file_records ++ [{| rec_path := node_path; rec_size := size;
                                    omitted := true; omittedReason := Some "binary";
                                    content := None |}])
        else if MAX_FILE_BYTES cfg <? size then
          mret (tree_nodes ++ [FileNode name node_path],
                file_records ++ [{| rec_path := node_path; rec_size := size;
                                    omitted := true; omittedReason := Some "large";
                                    content := None |}])
        else
          let text := Codec.read_text data in
          mret (tree_nodes ++ [FileNode name node_path],
                file_records ++ [{| rec_path := node_path; rec_size := size;
                                    omitted := false; omittedReason := None;
                                    content := Some text |}])
    | Other => mret acc
    end.

(** [recursively_collect(root, rel_path)].  The recursive calls are laid
    out next to the entries before the loop runs; the loop then uses
    those of the entries it visits ([recursively_collect_eq] below gives
    the equation in the shape of the source). *)
Fixpoint recursively_collect (root : node) (rel_path : list string)
    : result collected :=
  match root with
  | Dir entries =>
      let listed :=
        List.map (fun e => match e with
                           | (name, n) =>
                               (name, n, recursively_collect n (rel_path ++ [name]))
                           end) entries in
      for_each (visit rel_path) ([], [])
               (sorted (fun e => Py.lower e.1.1) listed)
  | _ => raise NotADirectoryError
  end.

End TreeCollector.

(** ** Ingestion orchestrator *)

(** An uploaded file: its name and the chunks that successive
    [await upload.read(1024 * 1024)] return. *)
Record UploadFile : Type := {
  upload_filename : string;
  upload_chunks : list (list byte)
}.

(** The outcome of [git clone --depth 1 url dest] under the time limit. *)
Inductive clone_outcome : Type :=
| CloneOk (checkout : list (string * node))
| CloneFailed (stderr : string)
| CloneTimedOut.

(** What lies outside the program: the working directory, the scratch
    directory that [tempfile] hands out, how [zipfile] reads the bytes of an
    upload and what extracting them leaves on disk, what [git] does with a
    URL, and the bracketed-netloc check of the URL parser. *)
Record Environment : Type := {
  env_cwd : list string;
  env_workspace : list string;
  env_zipfile : list byte -> zip_source;
  env_unpacked : list byte -> list (string * node);
  env_git : string -> clone_outcome;
  env_bracketed_netloc_ok : string -> bool
}.

(** What a request does to the world, in order. *)
Inductive event : Type :=
| MakeWorkspace
| WriteChunk (chunk : list byte)
| ExtractAll (written : disk)
| SpawnClone (url : string)
| RemoveWorkspace.

(** The response of [/parse]. *)
Record ParsedResponse : Type := {
  files : list FileRecord;
  tree : list TreeNode
}.

(** [stream_upload_to_file]: the chunks written to the destination before
    the stream ended or the ceiling was crossed. *)
Fixpoint stream_upload_to_file (chunks : list (list byte)) (max_bytes size : Z)
    : result unit * list (list byte) :=
  match chunks with
  | [] => (mret tt, [])
  | chunk :: rest =>
      match chunk with
      | [] => (mret tt, [])
      | _ =>
          let size := size + Z.of_nat (length chunk) in
          if max_bytes <? size then
            (raise (HTTPException 413 "Zip exceeds allowed size"), [])
          else
            let '(r, written) := stream_upload_to_file rest max_bytes size in
            (r, chunk :: written)
      end
  end.

Section Orchestrator.

Variable cfg : Config.
Variable env : Environment.

(** [clone_repository]: the checkout without its [.git] directory. *)
Definition clone_repository (repo_url : string) : result (list (string * node)) :=
  match env_git env repo_url with
  | CloneTimedOut => raise TimeoutExpired
  | CloneFailed stderr =>
      raise (ValueError (if Py.truthy (Py.strip stderr) then Py.strip stderr
                         else "Git clone failed"))
  | CloneOk checkout =>
      mret (List.filter (fun e => negb (String.eqb e.1 ".git")) checkout)
  end.

(** [str(exc)] for the exceptions that [parse_repo] turns into a 400. *)
Definition exn_message (e : exn) : string :=
  match e with
  | ValueError msg => msg
  | BadZipFile msg => msg
  | _ => EmptyString
  end.

(** The event of an extraction that raised: recorded when it had written
    something by then. *)
Definition partial_extraction (d : disk) : list event :=
  match d with
  | [] => []
  | _ => [ExtractAll d]
  end.

(** The body of the [with tempfile.TemporaryDirectory()] block up to the
    walk: what ends up in [root_dir], or the exception raised, with the
    events on the way. *)
Definition acquire (repoUrl : option string) (zipFile : option UploadFile)
    : result (list (string * node)) * list event :=
  let root_dir := {| PathLib.absolute := true;
                     PathLib.segments := env_workspace env ++ ["project"] |} in
  match zipFile with
  | Some upload =>
      if negb (Py.endswith ".zip" (Py.lower (upload_filename upload))) then
        (raise (HTTPException 400 "Upload a .zip archive"), [])
      else
        let '(streamed, written) :=
          stream_upload_to_file (upload_chunks upload) (MAX_ZIP_BYTES cfg) 0 in
        let temp_zip := List.concat written in
        match streamed with
        | inl e => (inl e, List.map WriteChunk written)
        | inr _ =>
            match safe_extract_zip (env_cwd env) (env_zipfile env temp_zip)
                    root_dir (MAX_EXTRACT_BYTES cfg) [] with
            | (inl (BadZipFile _ as e), d) | (inl (ValueError _ as e), d) =>
                (raise (HTTPException 400 (exn_message e)),
                 List.map WriteChunk written ++ partial_extraction d)
            | (inl e, d) =>
                (inl e, List.map WriteChunk written ++ partial_extraction d)
            | (inr _, d) =>
                (mret (env_unpacked env temp_zip),
                 List.map WriteChunk written ++ [ExtractAll d])
            end
        end
  | None =>
      if Py.truthy_opt repoUrl then
        match normalize_repo_url cfg (env_bracketed_netloc_ok env)
                (default EmptyString repoUrl) with
        | inl (ValueError msg) => (raise (HTTPException 400 msg), [])
        | inl e => (inl e, [])
        | inr normalized_url =>
            (match clone_repository normalized_url with
             | inl TimeoutExpired => raise (HTTPException 504 "Git clone timed out")
             | inl (ValueError msg) => raise (HTTPException 400 msg)
             | r => r
             end,
             [SpawnClone normalized_url])
        end
      else (mret [], [])
  end.

(** [parse_repo(repoUrl, zipFile)] ([main.py], lines 303-336): the response
    or the exception, and the events in order. *)
Definition parse_repo (repoUrl : option string) (zipFile : option UploadFile)
    : result ParsedResponse * list event :=
  if negb (Py.truthy_opt repoUrl) && negb (bool_decide (is_Some zipFile)) then
    (raise (HTTPException 422 "Provide either a repo URL or .zip file"), [])
  else
    let '(acquired, events) := acquire repoUrl zipFile in
    (root ← acquired;
     '(tree, files) ← recursively_collect cfg (Dir root) [];
     let files_sorted := sorted rec_path files in
     mret {| files := files_sorted; tree := tree |},
     [MakeWorkspace] ++ events ++ [RemoveWorkspace]).

End Orchestrator.

(** * Vocabulary of the properties *)

(** An archive without faults: every member extracts. *)
Definition intact (_ : ZipInfo) : extraction := Extracted.

(** The sum of the declared uncompressed sizes of the members. *)
Definition declared_total (members : list ZipInfo) : Z :=
  fold_right (fun member acc => file_size member + acc) 0 members.

(** A bomb: two members of one compressed kilobyte each that declare 150 MiB
    apiece, against the default ceiling of 200 MiB. *)
Definition zip_bomb : list ZipInfo :=
  [ {| filename := "a.bin"; external_attr := 0; file_size := 150 * 1024 * 1024;
       compress_size := 1024 |};
    {| filename := "b.bin"; external_attr := 0; file_size := 150 * 1024 * 1024;
       compress_size := 1024 |} ].

(** An archive whose single member climbs out of [/tmp/ws/project] into the
    sibling directory [/tmp/ws/project_evil]. *)
Definition sibling_escape : list ZipInfo :=
  [ {| filename := "../project_evil/x.txt"; external_attr := 0x81A40000;
       file_size := 5; compress_size := 7 |} ].

(** Induction over a file tree, with the hypothesis available for every
    entry of a directory. *)
Fixpoint node_ind' (P : node -> Prop)
    (HFile : forall data readable, P (File data readable))
    (HDir : forall entries, Forall (fun e => P e.2) entries -> P (Dir entries))
    (HSymlink : P Symlink) (HOther : P Other) (n : node) : P n :=
  match n with
  | File data readable => HFile data readable
  | Dir entries =>
      HDir entries
        ((fix all (l : list (string * node)) : Forall (fun e => P e.2) l :=
            match l with
            | [] => List.Forall_nil _
            | e :: l' =>
                List.Forall_cons _ _ _
                  (match e as e0 return P e0.2 with
                   | (_, c) => node_ind' P HFile HDir HSymlink HOther c
                   end)
                  (all l')
            end) entries)
  | Symlink => HSymlink
  | Other => HOther
  end.

(** Keys never decrease along the list. *)
Definition ascending {A : Type} (key : A -> string) (l : list A) : Prop :=
  StronglySorted (fun x y => String.leb (key x) (key y) = true) l.

(** A sequence under way can no longer end in a carriage return: the code
    point it leads to is at least 14. *)
Definition beyond_cr (p : Codec.pending) : Prop :=
  (14 <= Codec.bits p * 64 + (Codec.lo p - 0x80))%N /\ (0x80 <= Codec.lo p)%N.

(** The comparison [non_text / len(chunk) > 0.3] as Python computes it. *)
Definition ratio_test (non_text len : Z) : bool :=
  PrimFloat.ltb threshold (PrimFloat.div (float_of_int non_text) (float_of_int len)).

(** The printable/whitespace set, member by member: tab, line feed,
    carriage return and the 95 printable ASCII characters from the space
    (32) to the tilde (126). *)
Definition printable_or_whitespace : list N :=
  [9; 10; 13]%N ++ List.map N.of_nat (seq 32 95).

(** Whether a byte is in the printable/whitespace set. *)
Definition in_printable_or_whitespace (b : byte) : bool :=
  existsb (N.eqb (Byte.to_N b)) printable_or_whitespace.

(** The number of bytes of a sample outside the printable/whitespace set. *)
Definition non_text_count (sample : list byte) : Z :=
  Z.of_nat (length (List.filter (fun b => negb (in_printable_or_whitespace b)) sample)).

(** A sample is binary in the words of the specification: it holds a null
    byte, or more than 30% of its bytes are outside the printable/whitespace
    set (in exact arithmetic). *)
Definition sample_is_binary (sample : list byte) : bool :=
  existsb (fun b => (Byte.to_N b =? 0)%N) sample
  || (3 * Z.of_nat (length sample) <? 10 * non_text_count sample).

(** [p] holds of the [count] integers from [start]. *)
Fixpoint all_from (p : Z -> bool) (start : Z) (count : nat) : bool :=
  match count with
  | O => true
  | S k => p start && all_from p (start + 1) k
  end.

(** [entry_at root names n]: following [names] down from the directory
    [root] leads to the entry [n]. *)
Inductive entry_at : node -> list string -> node -> Prop :=
| entry_here entries name n :
    In (name, n) entries -> entry_at (Dir entries) [name] n
| entry_below entries name d names n :
    In (name, d) entries -> entry_at d names n ->
    entry_at (Dir entries) (name :: names) n.

(** The tree without the entries whose path relative to the workspace root
    ([rel_path] leads to the directory [n]) has a segment of the skip-set,
    and without anything below them. *)
Fixpoint prune (rel_path : list string) (n : node) : node :=
  match n with
  | Dir entries =>
      Dir (List.filter
             (fun e => negb (contains_skipped_segment (rel_path ++ [e.1])))
             (List.map (fun e => match e with
                                 | (name, c) => (name, prune (rel_path ++ [name]) c)
                                 end) entries))
  | _ => n
  end.

(** The names of a tree node and of all the nodes below it. *)
Fixpoint node_names (t : TreeNode) : list string :=
  match t with
  | FileNode name _ => [name]
  | DirNode name _ children => name :: flat_map node_names children
  end.

(** The record that the loop appends for a regular file at [path], given
    the outcome of the binary test. *)
Definition file_record (cfg : Config) (path : string) (data : list byte)
    (binary : bool) : FileRecord :=
  let size := Z.of_nat (length data) in
  if binary then
    {| rec_path := path; rec_size := size; omitted := true;
       omittedReason := Some "binary"; content := None |}
  else if MAX_FILE_BYTES cfg <? size then
    {| rec_path := path; rec_size := size; omitted := true;
       omittedReason := Some "large"; content := None |}
  else
    {| rec_path := path; rec_size := size; omitted := false;
       omittedReason := None; content := Some (Codec.read_text data) |}.

(** The default configuration with a per-file ceiling of five bytes. *)
Definition five_byte_ceiling : Config := {|
  ALLOWED_GIT_HOSTS := ALLOWED_GIT_HOSTS default_config;
  MAX_ZIP_BYTES := MAX_ZIP_BYTES default_config;
  MAX_EXTRACT_BYTES := MAX_EXTRACT_BYTES default_config;
  MAX_FILE_BYTES := 5;
  GIT_CLONE_TIMEOUT_SECONDS := GIT_CLONE_TIMEOUT_SECONDS default_config
|}.

(** A workspace with the five-byte text file [src/main.txt]. *)
Definition hello_workspace : node :=
  Dir [("src", Dir [("main.txt", File (list_byte_of_string "hello") true)])].

(** A workspace with the empty file [pkg/__init__.py]. *)
Definition empty_file_workspace : node :=
  Dir [("pkg", Dir [("__init__.py", File [] true)])].

(** A workspace whose entries all start with a dot. *)
Definition dotfile_workspace : node :=
  Dir [(".env", File (list_byte_of_string "A=1") true);
       (".github", Dir [("ci.yml", File (list_byte_of_string "on: push") true)])].

(** The canonical clone URL for a host, an owner and a repository segment. *)
Definition canonical (host owner repo : string) : string :=
  "https://" +:+ host +:+ "/" +:+ owner +:+ "/" +:+ strip_git repo +:+ ".git".

(** The scheme is [http] or [https]. *)
Definition scheme_allowed (p : Urllib.ParseResult) : bool :=
  String.eqb (Urllib.scheme p) "http" || String.eqb (Urllib.scheme p) "https".

(** The URL carries a user name, a password, a query or a fragment. *)
Definition carries_extras (p : Urllib.ParseResult) : bool :=
  Py.truthy_opt (Urllib.username p) || Py.truthy_opt (Urllib.password p)
  || Py.truthy (Urllib.query p) || Py.truthy (Urllib.fragment p).

(** The lower-cased host, without its port, is in the allow-list. *)
Definition host_allowed (cfg : Config) (p : Urllib.ParseResult) : bool :=
  bool_decide (host_of (Urllib.netloc p) ∈ ALLOWED_GIT_HOSTS cfg).

(** The five grounds for rejection that the specification lists. *)
Definition listed_rejection (cfg : Config) (raw : string) (p : Urllib.ParseResult)
    : Prop :=
  (2048 < String.length raw)%nat \/
  scheme_allowed p = false \/
  carries_extras p = true \/
  host_allowed cfg p = false \/
  (length (path_parts (Urllib.path p)) < 2)%nat.

(** The grounds on which the code rejects: the five listed ones, a URL
    that [urlparse] itself refuses, and a repository segment that is
    exactly [.git]. *)
Definition rejected (cfg : Config) (bracketed_netloc_ok : string -> bool)
    (raw : string) : Prop :=
  match Urllib.urlparse bracketed_netloc_ok raw with
  | inl _ => True
  | inr p =>
      listed_rejection cfg raw p \/
      nth 1 (path_parts (Urllib.path p)) EmptyString = ".git"
  end.

(** A parser check that accepts every bracketed netloc. *)
Definition any_bracketed_netloc (_ : string) : bool := true.

(** The characters of a lower-case host name. *)
Definition hostname_char (c : ascii) : bool :=
  Py.is_lower c || Py.is_digit c || Py.contains c "-.".

(** The characters of a path segment: anything but the delimiters [/?#;]
    and the tab, carriage return and newline that the parser removes. *)
Definition segment_char (c : ascii) : bool :=
  negb (Py.contains c "/?#;" || Urllib.unsafe_url_byte c).

(** A lower-case host name. *)
Definition is_hostname (s : string) : bool := Py.all_chars hostname_char s.

(** A non-empty path segment. *)
Definition is_segment (s : string) : bool :=
  Py.truthy s && Py.all_chars segment_char s.

(** Deciding a property of every character by running through the 256 of
    them. *)
Ltac each_char c :=
  destruct c as [[] [] [] [] [] [] [] []]; vm_compute;
  (discriminate || (intros _; repeat split)).


(** An environment in which the upload is a one-member archive that unpacks
    to [a.txt], and in which every clone fails. *)
Definition one_file_environment : Environment := {|
  env_cwd := [];
  env_workspace := ["tmp"; "ws"];
  env_zipfile := fun _ =>
    Archive [{| filename := "a.txt"; external_attr := 0; file_size := 1;
                compress_size := 1 |}] intact;
  env_unpacked := fun _ => [("a.txt", File (list_byte_of_string "a") true)];
  env_git := fun _ => CloneFailed "fatal: repository not found";
  env_bracketed_netloc_ok := any_bracketed_netloc
|}.

(** An upload of two bytes named [repo.zip]. *)
Definition small_upload : UploadFile :=
  {| upload_filename := "repo.zip";
     upload_chunks := [list_byte_of_string "PK"] |}.

(** ** Vocabulary of the further properties *)

(** A member that passes the per-member checks of [safe_extract_zip]: not
    a symbolic link, a resolved destination whose string begins with the
    root's, a declared size that is not negative. *)
Definition member_passes (cwd : list string) (destination : PathLib.Path)
    (member : ZipInfo) : bool :=
  negb (is_symlink member)
  && Py.startswith (PathLib.str (PathLib.resolve cwd destination))
       (PathLib.str (PathLib.resolve cwd
          (PathLib.joinpath destination (filename member))))
  && (0 <=? file_size member).

(** An archive that [safe_extract_zip] extracts: every member passes, and
    the declared sizes of a non-empty archive sum to at most the ceiling. *)
Definition archive_passes (cwd : list string) (destination : PathLib.Path)
    (max_total_bytes : Z) (members : list ZipInfo) : bool :=
  forallb (member_passes cwd destination) members
  && match members with
     | [] => true
     | _ => declared_total members <=? max_total_bytes
     end.

(** An archive of two regular files that stay below the destination. *)
Definition plain_archive : list ZipInfo :=
  [ {| filename := "src/main.txt"; external_attr := 0x81A40000; file_size := 5;
       compress_size := 7 |};
    {| filename := "docs/../README.md"; external_attr := 0x81A40000;
       file_size := 12; compress_size := 14 |} ].

(** The chunks of an upload that are read: those before the first empty
    one. *)
Fixpoint until_empty (chunks : list (list byte)) : list (list byte) :=
  match chunks with
  | [] => []
  | chunk :: rest =>
      match chunk with
      | [] => []
      | _ => chunk :: until_empty rest
      end
  end.

(** The number of bytes in a list of chunks. *)
Definition bytes_in (chunks : list (list byte)) : Z :=
  Z.of_nat (length (List.concat chunks)).

(** A non-empty name without any of the delimiters [/], [?] and [#]. *)
Definition plain_name (s : string) : Prop :=
  s <> EmptyString /\
  Py.contains "/" s = false /\ Py.contains "?" s = false /\
  Py.contains "#" s = false.

(** The messages of the errors that [normalize_repo_url] raises itself. *)
Definition validator_messages : list string :=
  ["Repo URL is too long";
   "Only http/https repo URLs are allowed";
   "Repo URL contains unsupported credentials or query params";
   "Repo host is not allowed";
   "Repo URL must include owner/repo"].

(** [http] or [https] in any mix of upper and lower case. *)
Definition is_web_scheme (s : string) : bool :=
  String.eqb (Py.lower s) "http" || String.eqb (Py.lower s) "https".

(** The characters of a netloc that holds neither brackets nor user
    information: ASCII, without the delimiters [/?#[]@] and the tab,
    carriage return and newline that the parser removes. *)
Definition netloc_char (c : ascii) : bool :=
  (nat_of_ascii c <? 128)%nat
  && negb (Py.contains c "/?#[]@" || Urllib.unsafe_url_byte c).

(** The UTF-8 bytes of a six-letter Cyrillic word. *)
Definition cyrillic_sample : list byte :=
  [xd0; x9f; xd1; x80; xd0; xb8; xd0; xb2; xd0; xb5; xd1; x82]%byte.

(** The name of a tree node. *)
Definition tree_name (t : TreeNode) : string :=
  match t with
  | FileNode name _ => name
  | DirNode name _ _ => name
  end.

(** The paths of the file nodes of a tree node, from top to bottom. *)
Fixpoint file_paths (t : TreeNode) : list string :=
  match t with
  | FileNode _ path => [path]
  | DirNode _ _ children => flat_map file_paths children
  end.

#[local] Unset Elimination Schemes.

(** Below a tree node the children of every directory are in ascending
    order of their lower-cased names. *)
Inductive in_order : TreeNode -> Prop :=
| file_in_order name path : in_order (FileNode name path)
| dir_in_order name path children :
    ascending (fun t => Py.lower (tree_name t)) children ->
    Forall in_order children ->
    in_order (DirNode name path children).

#[local] Set Elimination Schemes.

(** The fields of a file record agree with each other and with the
    ceiling: it is omitted exactly when it has a reason and no content,
    the reason is [binary] or [large], a record kept is within the ceiling
    and one omitted as [large] is above it. *)
Definition record_consistent (cfg : Config) (x : FileRecord) : Prop :=
  0 <= rec_size x /\
  match omittedReason x with
  | None =>
      omitted x = false /\ content x <> None /\ rec_size x <= MAX_FILE_BYTES cfg
  | Some reason =>
      omitted x = true /\ content x = None /\
      (reason = "binary" \/ reason = "large" /\ MAX_FILE_BYTES cfg < rec_size x)
  end.

(** Whether an entry is a regular file or a directory. *)
Definition is_regular (n : node) : bool :=
  match n with
  | File _ _ | Dir _ => true
  | Symlink | Other => false
  end.

(** The tree without its symbolic links and its entries that are neither
    files nor directories, at every depth. *)
Fixpoint regular (n : node) : node :=
  match n with
  | Dir entries =>
      Dir (List.filter (fun e => is_regular e.2)
             (List.map (fun e => match e with
                                 | (name, c) => (name, regular c)
                                 end) entries))
  | _ => n
  end.

(** A byte of plain text: printable ASCII, a tab or a newline. *)
Definition plain_text_byte (b : byte) : bool :=
  text_chars (Byte.to_N b) && negb (Byte.to_N b =? 13)%N.

(** A workspace with text files, a binary file and a nested directory. *)
Definition mixed_workspace : node :=
  Dir [("b.txt", File (list_byte_of_string "hello") true);
       ("A.md", File (list_byte_of_string "# A") true);
       ("lib", Dir [("z.bin", File [x00; x01]%byte true);
                    ("c.txt", File (list_byte_of_string "c") true)])].

(** What the walk gathers on the mixed workspace. *)
Definition mixed_outcome : collected :=
  ([FileNode "A.md" "A.md"; FileNode "b.txt" "b.txt";
    DirNode "lib" "lib"
      [FileNode "c.txt" "lib/c.txt"; FileNode "z.bin" "lib/z.bin"]],
   [{| rec_path := "A.md"; rec_size := 3; omitted := false;
       omittedReason := None; content := Some [35; 32; 65]%N |};
    {| rec_path := "b.txt"; rec_size := 5; omitted := false;
       omittedReason := None; content := Some [104; 101; 108; 108; 111]%N |};
    {| rec_path := "lib/c.txt"; rec_size := 1; omitted := false;
       omittedReason := None; content := Some [99]%N |};
    {| rec_path := "lib/z.bin"; rec_size := 2; omitted := true;
       omittedReason := Some "binary"; content := None |}]).

(** The directory [{workspace}/project] into which a request unpacks or
    clones. *)
Definition project_dir (env : Environment) : PathLib.Path :=
  {| PathLib.absolute := true;
     PathLib.segments := env_workspace env ++ ["project"] |}.

(** The chunks of an upload that are read hold at most [MAX_ZIP_BYTES]
    bytes. *)
Definition upload_fits (cfg : Config) (upload : UploadFile) : bool :=
  match until_empty (upload_chunks upload) with
  | [] => true
  | sent => bytes_in sent <=? MAX_ZIP_BYTES cfg
  end.

(** What becomes of an exception of the extraction in [parse_repo]: a
    [BadZipFile] or a [ValueError] is answered with status 400 and its
    message, any other one is let through. *)
Definition answered (e : exn) : exn :=
  match e with
  | BadZipFile msg => HTTPException 400 msg
  | ValueError msg => HTTPException 400 msg
  | _ => e
  end.




(** The response to the small upload in the one-file environment. *)
Definition one_file_response : ParsedResponse :=
  {| files := [{| rec_path := "a.txt"; rec_size := 1; omitted := false;
                  omittedReason := None; content := Some [97%N] |}];
     tree := [FileNode "a.txt" "a.txt"] |}.

(** An entry of a parsed setting: not empty, without a comma, and with no
    white space at either end. *)
Definition setting_entry (s : string) : Prop :=
  s <> EmptyString /\ Py.contains "," s = false /\ Py.strip s = s.

(** White space or a comma. *)
Definition separator_char (c : ascii) : bool :=
  Py.is_space c || Ascii.eqb c ",".

(** * Properties *)

(** ** Archive sanitizer *)

Section ArchiveSanitizerFacts.

Variable cwd : list string.

(** The member loop raises nothing but [ValueError]. *)
Lemma check_members_raises_ValueError destination root max_total_bytes members :
  forall total e,
    check_members cwd destination root max_total_bytes total members = inl e ->
    exists msg, e = ValueError msg.
Proof.
  induction members as [|member rest IH]; intros total e; simpl.
  - discriminate.
  - destruct (is_symlink member); [intros [= <-]; eauto|].
    destruct (negb _); [intros [= <-]; eauto|].
    destruct (file_size member <? 0); [intros [= <-]; eauto|].
    destruct (max_total_bytes <? _); [intros [= <-]; eauto|].
    apply IH.
Qed.

(** When the loop completes from a total within the ceiling, it returns
    that total plus the declared sizes, still within the ceiling. *)
Lemma check_members_total destination root max_total_bytes members :
  forall total t,
    total <= max_total_bytes ->
    check_members cwd destination root max_total_bytes total members = inr t ->
    t = total + declared_total members /\ t <= max_total_bytes.
Proof.
  induction members as [|member rest IH]; intros total t Hle; simpl.
  - intros [= <-]. lia.
  - destruct (is_symlink member); [discriminate|].
    destruct (negb _); [discriminate|].
    destruct (file_size member <? 0); [discriminate|].
    destruct (Z.ltb_spec max_total_bytes (total + file_size member)); [discriminate|].
    intros Hrest. apply IH in Hrest; lia.
Qed.

(** An archive that the checks turn down leaves the disk as it was. *)
Lemma safe_extract_zip_failure_writes_nothing members extract destination
    max_total_bytes d e :
  check_members cwd destination (PathLib.resolve cwd destination)
    max_total_bytes 0 members = inl e ->
  safe_extract_zip cwd (Archive members extract) destination max_total_bytes d
  = (inl e, d).
Proof. intros Hloop. unfold safe_extract_zip. now rewrite Hloop. Qed.

(** Every member passed the string-prefix test of the loop when the loop
    completes. *)
Lemma check_members_prefix_test destination root max_total_bytes members :
  forall total t member,
    check_members cwd destination root max_total_bytes total members = inr t ->
    In member members ->
    Py.startswith (PathLib.str root)
      (PathLib.str (PathLib.resolve cwd (PathLib.joinpath destination (filename member))))
    = true.
Proof.
  induction members as [|m rest IH]; intros total t member;
    cbn [check_members In]; [tauto|].
  destruct (is_symlink m); [discriminate|].
  destruct (Py.startswith (PathLib.str root) (PathLib.str (PathLib.resolve cwd
              (PathLib.joinpath destination (filename m))))) eqn:Hpre;
    cbn [negb]; [|discriminate].
  destruct (file_size m <? 0); [discriminate|].
  destruct (max_total_bytes <? _); [discriminate|].
  intros Hrest [<-|Hin]; [exact Hpre|eauto].
Qed.

(** An archive with a member whose resolved destination, as a string,
    does not begin with the resolved root is rejected with nothing written. *)
Lemma safe_extract_zip_rejects_non_prefix members extract destination
    max_total_bytes d member :
  In member members ->
  Py.startswith (PathLib.str (PathLib.resolve cwd destination))
    (PathLib.str (PathLib.resolve cwd (PathLib.joinpath destination (filename member))))
  = false ->
  exists msg,
    safe_extract_zip cwd (Archive members extract) destination max_total_bytes d
    = (inl (ValueError msg), d).
Proof.
  intros Hin Hpre. unfold safe_extract_zip.
  destruct (check_members _ _ _ _ _ _) as [e|t] eqn:Hloop.
  - destruct (check_members_raises_ValueError _ _ _ _ _ _ Hloop) as [msg ->]. eauto.
  - rewrite (check_members_prefix_test _ _ _ _ _ _ _ Hloop Hin) in Hpre. discriminate.
Qed.

(** A non-empty archive whose declared sizes sum above the ceiling is
    rejected whatever the sign of the ceiling. *)
Lemma safe_extract_zip_rejects_oversized_nonempty members extract destination
    max_total_bytes d :
  members <> [] ->
  max_total_bytes < declared_total members ->
  exists msg,
    safe_extract_zip cwd (Archive members extract) destination max_total_bytes d
    = (inl (ValueError msg), d).
Proof.
  intros Hne Hsum. unfold safe_extract_zip.
  destruct (check_members _ _ _ _ _ _) as [e|t] eqn:Hloop.
  - destruct (check_members_raises_ValueError _ _ _ _ _ _ Hloop) as [msg ->]. eauto.
  - exfalso. destruct members as [|member rest]; [congruence|].
    simpl in Hloop, Hsum.
    destruct (is_symlink member); [discriminate|].
    destruct (negb _); [discriminate|].
    destruct (Z.ltb_spec (file_size member) 0); [discriminate|].
    destruct (Z.ltb_spec max_total_bytes (0 + file_size member)); [discriminate|].
    apply check_members_total in Hloop; lia.
Qed.

(** C2.  An archive whose declared member sizes sum to more than the
    ceiling [max_total_bytes] (a byte count, so not negative) makes
    [safe_extract_zip] raise [ValueError] with the disk untouched: nothing
    is extracted, whatever the compressed sizes of the members are and
    whatever extracting them would do. *)
Theorem safe_extract_zip_rejects_oversized members extract destination
    max_total_bytes d :
  0 <= max_total_bytes ->
  max_total_bytes < declared_total members ->
  exists msg,
    safe_extract_zip cwd (Archive members extract) destination max_total_bytes d
    = (inl (ValueError msg), d).
Proof.
  intros Hmax Hsum. unfold safe_extract_zip.
  destruct (check_members _ _ _ _ _ _) as [e|t] eqn:Hloop.
  - destruct (check_members_raises_ValueError _ _ _ _ _ _ Hloop) as [msg ->]. eauto.
  - apply check_members_total in Hloop; lia.
Qed.

End ArchiveSanitizerFacts.

(** The bomb is rejected under the default ceiling. *)
Lemma safe_extract_zip_rejects_oversized_witness :
  0 <= MAX_EXTRACT_BYTES default_config /\
  MAX_EXTRACT_BYTES default_config < declared_total zip_bomb /\
  exists msg,
    safe_extract_zip [] (Archive zip_bomb intact) (PathLib.of_str "/tmp/ws/project")
      (MAX_EXTRACT_BYTES default_config) []
    = (inl (ValueError msg), []).
Proof.
  split; [vm_compute; discriminate|].
  split; [vm_compute; reflexivity|].
  apply (safe_extract_zip_rejects_oversized [] zip_bomb intact).
  - vm_compute; discriminate.
  - vm_compute; reflexivity.
Defined.

(** C1.  On an archive whose member resolves to
    [/tmp/ws/project_evil/x.txt], outside the destination root
    [/tmp/ws/project], [safe_extract_zip] raises nothing and extracts the
    archive: the test compares the two paths as strings, and the root's
    string is a prefix of the sibling's.  Whatever extracting the member
    does, the checks let the archive through to [extractall]. *)
Theorem safe_extract_zip_accepts_sibling_escape :
  let destination := PathLib.of_str "/tmp/ws/project" in
  let root := PathLib.resolve [] destination in
  let target := PathLib.resolve [] (PathLib.joinpath destination "../project_evil/x.txt") in
  PathLib.str root = "/tmp/ws/project" /\
  PathLib.str target = "/tmp/ws/project_evil/x.txt" /\
  PathLib.is_relative_to target root = false /\
  safe_extract_zip [] (Archive sibling_escape intact) destination
    (MAX_EXTRACT_BYTES default_config) []
  = (inr tt, [PathLib.of_str "/tmp/ws/project/project_evil/x.txt"]) /\
  forall extract,
    safe_extract_zip [] (Archive sibling_escape extract) destination
      (MAX_EXTRACT_BYTES default_config) []
    = extractall extract sibling_escape destination [].
Proof.
  vm_compute. repeat split.
Qed.

(** ** Tree collector *)

Section SortedFacts.

Context {A : Type} (key : A -> string).

Lemma insert_by_In x y (l : list A) : In y (insert_by key x l) <-> y = x \/ In y l.
Proof.
  induction l as [|z l IH]; simpl.
  - intuition.
  - destruct (String.leb _ _); simpl; rewrite ?IH; intuition.
Qed.

Lemma sorted_In y (l : list A) : In y (sorted key l) <-> In y l.
Proof.
  induction l as [|x l IH]; simpl; [tauto|].
  rewrite insert_by_In, IH. intuition.
Qed.

End SortedFacts.

(** [String.leb] is transitive. *)
Lemma string_leb_trans (a b c : string) :
  String.leb a b = true -> String.leb b c = true -> String.leb a c = true.
Proof.
  unfold String.leb. revert b c.
  induction a as [|x a IH]; intros [|y b] [|z c]; simpl; try easy.
  unfold Ascii.compare.
  destruct (N.compare_spec (N_of_ascii x) (N_of_ascii y)) as [Hxy|Hxy|Hxy],
           (N.compare_spec (N_of_ascii y) (N_of_ascii z)) as [Hyz|Hyz|Hyz],
           (N.compare_spec (N_of_ascii x) (N_of_ascii z)) as [Hxz|Hxz|Hxz];
    try easy; try lia.
  apply IH.
Qed.

Lemma string_leb_false (a b : string) :
  String.leb a b = false -> String.leb b a = true.
Proof. destruct (String.leb_total a b) as [H|H]; congruence. Qed.

Section StableSort.

Context {A : Type} (key : A -> string).

Lemma insert_by_ascending x (l : list A) :
  ascending key l -> ascending key (insert_by key x l).
Proof.
  unfold ascending. induction 1 as [|y l Hl IH Hy]; simpl.
  - repeat constructor.
  - destruct (String.leb (key x) (key y)) eqn:Hxy.
    + constructor; [now constructor|].
      constructor; [exact Hxy|].
      eapply Forall_impl; [exact Hy|].
      intros z Hz. simpl in Hz. eapply string_leb_trans; eassumption.
    + constructor; [exact IH|].
      apply Forall_forall. intros z Hz. apply list_elem_of_In in Hz.
      apply insert_by_In in Hz as [->|Hz].
      * now apply string_leb_false.
      * rewrite Forall_forall in Hy. apply Hy. now apply list_elem_of_In.
Qed.

Lemma sorted_ascending (l : list A) : ascending key (sorted key l).
Proof.
  induction l as [|x l IH]; simpl; [constructor|].
  now apply insert_by_ascending.
Qed.

(** Before a list whose keys are all at least that of [x], [x] goes first. *)
Lemma insert_by_first x (l : list A) :
  Forall (fun y => String.leb (key x) (key y) = true) l ->
  insert_by key x l = x :: l.
Proof. destruct 1 as [|y l Hy _]; simpl; [easy|now rewrite Hy]. Qed.

Lemma insert_by_filter (p : A -> bool) x (l : list A) :
  ascending key l ->
  List.filter p (insert_by key x l)
  = if p x then insert_by key x (List.filter p l) else List.filter p l.
Proof.
  unfold ascending. induction 1 as [|y l Hl IH Hy]; simpl.
  - now destruct (p x).
  - destruct (String.leb (key x) (key y)) eqn:Hxy; simpl.
    + destruct (p x); [|easy].
      symmetry. apply (insert_by_first x (List.filter p (y :: l))).
      apply Forall_forall. intros z Hz. apply list_elem_of_In in Hz.
      apply filter_In in Hz as [[->|Hz] _]; [exact Hxy|].
      rewrite Forall_forall in Hy. apply list_elem_of_In, Hy in Hz.
      simpl in Hz. eapply string_leb_trans; eassumption.
    + rewrite IH. destruct (p y), (p x); simpl; now rewrite ?Hxy.
Qed.

(** Sorting and dropping entries commute: the sort is stable. *)
Lemma sorted_filter (p : A -> bool) (l : list A) :
  sorted key (List.filter p l) = List.filter p (sorted key l).
Proof.
  induction l as [|x l IH]; simpl; [easy|].
  rewrite insert_by_filter by apply sorted_ascending.
  destruct (p x); simpl; now rewrite IH.
Qed.

End StableSort.

(** Sorting commutes with a map that keeps the keys. *)
Lemma sorted_map {A B : Type} (f : A -> B) (key : B -> string) (key' : A -> string)
    (l : list A) :
  (forall x, key (f x) = key' x) ->
  sorted key (List.map f l) = List.map f (sorted key' l).
Proof.
  intros Hkey. induction l as [|x l IH]; simpl; [easy|]. rewrite IH.
  generalize (sorted key' l). intros s.
  induction s as [|y s IHs]; simpl; [easy|].
  rewrite !Hkey. destruct (String.leb _ _); simpl; [easy|now rewrite IHs].
Qed.

(** *** The binary test *)

Lemma all_from_spec p count :
  forall start, all_from p start count = true ->
  forall z, start <= z < start + Z.of_nat count -> p z = true.
Proof.
  induction count as [|k IH]; intros start; simpl; [lia|].
  intros [Hs Hk]%andb_prop z Hz.
  destruct (Z.eq_dec z start) as [->|Hne]; [exact Hs|].
  apply (IH (start + 1)); [exact Hk|lia].
Qed.

(** For every sample length up to 1024 the float comparison agrees with the
    exact one: checked on each pair of counts. *)
Lemma ratio_test_table :
  all_from (fun len =>
    all_from (fun non_text =>
      Bool.eqb (ratio_test non_text len) (3 * len <? 10 * non_text)) 0 1025)
    1 1024 = true.
Proof. vm_compute. reflexivity. Qed.

Lemma ratio_test_exact non_text len :
  1 <= len <= 1024 -> 0 <= non_text <= 1024 ->
  ratio_test non_text len = (3 * len <? 10 * non_text).
Proof.
  intros Hlen Hnt. apply eqb_prop.
  pose proof (all_from_spec _ _ _ ratio_test_table len) as Hrow.
  cbv beta in Hrow.
  apply (all_from_spec _ _ _ (Hrow ltac:(lia)) non_text). lia.
Qed.

(** The test of the code on a byte, [byte not in text_chars], is
    membership in the printable/whitespace set. *)
Lemma text_chars_in_set b :
  text_chars (Byte.to_N b) = in_printable_or_whitespace b.
Proof. destruct b; vm_compute; reflexivity. Qed.

(** The count of the code is the count of the bytes outside that set. *)
Lemma non_text_count_code sample :
  Z.of_nat (length (List.filter (fun b => negb (text_chars (Byte.to_N b))) sample))
  = non_text_count sample.
Proof.
  unfold non_text_count. do 2 f_equal.
  induction sample as [|b l IH]; simpl; [easy|].
  now rewrite text_chars_in_set, IH.
Qed.

Lemma non_text_count_bounds sample :
  0 <= non_text_count sample <= Z.of_nat (length sample).
Proof.
  unfold non_text_count. split; [lia|].
  apply Nat2Z.inj_le. induction sample as [|b l IH]; simpl; [lia|].
  destruct (negb _); simpl; lia.
Qed.

(** [is_binary_file] never raises: the division is only reached on a
    non-empty sample. *)
Lemma is_binary_file_returns data readable sample_size :
  exists b, is_binary_file data readable sample_size = inr b.
Proof.
  unfold is_binary_file. destruct readable; simpl; [|eauto].
  destruct (take sample_size data) as [|b chunk] eqn:Hchunk; [eauto|].
  destruct (existsb _ _); [eauto|].
  unfold truediv. destruct (Z.eqb_spec (Z.of_nat (length (b :: chunk))) 0) as [H0|_].
  - simpl in H0. lia.
  - simpl. eauto.
Qed.

(** On a readable file the test of the code is the test of the
    specification on the first 1024 bytes. *)
Lemma is_binary_file_exact data :
  is_binary_file data true 1024 = inr (sample_is_binary (take 1024 data)).
Proof.
  unfold is_binary_file, sample_is_binary. simpl negb. cbv iota.
  pose proof (length_take data 1024) as Hlen.
  pose proof (non_text_count_bounds (take 1024 data)) as Hnt.
  destruct (take 1024 data) as [|b chunk] eqn:Hchunk; [reflexivity|].
  destruct (existsb _ (b :: chunk)); [reflexivity|].
  unfold truediv. destruct (Z.eqb_spec (Z.of_nat (length (b :: chunk))) 0) as [H0|_].
  - simpl in H0. lia.
  - simpl orb. unfold mbind, result_bind, mret, result_ret. f_equal.
    rewrite non_text_count_code.
    apply ratio_test_exact; simpl length in *; lia.
Qed.

(** With the default sample size, a file that cannot be opened is binary
    and any other is judged on its first 1024 bytes. *)
Lemma is_binary_file_default data readable :
  is_binary_file data readable 1024
  = inr (negb readable || sample_is_binary (take 1024 data)).
Proof. destruct readable; [apply is_binary_file_exact|reflexivity]. Qed.

(** *** Decoding *)

Lemma start_beyond_cr b p : Codec.start b = inr p -> beyond_cr p.
Proof.
  unfold Codec.start, beyond_cr.
  repeat match goal with
         | |- context [(?x <? ?y)%N] => destruct (N.ltb_spec x y)
         | |- context [(?x =? ?y)%N] => destruct (N.eqb_spec x y)
         end;
    intros [= <-]; cbn; lia.
Qed.

Lemma start_code_point b c :
  Codec.start b = inl c -> c = b \/ c = Codec.REPLACEMENT.
Proof.
  unfold Codec.start.
  repeat match goal with
         | |- context [(?x <? ?y)%N] => destruct (N.ltb_spec x y)
         | |- context [(?x =? ?y)%N] => destruct (N.eqb_spec x y)
         end;
    intros [= <-]; auto.
Qed.

(** Decoding bytes without a carriage return gives text without one. *)
Lemma decode_without_cr data :
  ~ In x0d data ->
  forall st,
    match st with Some p => beyond_cr p | None => True end ->
    ~ In 13%N (Codec.decode st data).
Proof.
  induction data as [|b data IH]; intros Hcr st Hst.
  - destruct st; cbn; [intros [[=]|[]]|easy].
  - assert (Hb : Byte.to_N b <> 13%N).
    { intros H. apply Hcr. left.
      pose proof (Byte.of_to_N b) as Hof. rewrite H in Hof.
      now injection Hof. }
    assert (Hdata : ~ In x0d data) by (intros H; apply Hcr; now right).
    assert (Hfresh : forall pre, ~ In 13%N pre ->
      ~ In 13%N (match Codec.start (Byte.to_N b) with
                 | inl c => pre ++ c :: Codec.decode None data
                 | inr p => pre ++ Codec.decode (Some p) data
                 end)).
    { intros pre Hpre.
      destruct (Codec.start (Byte.to_N b)) as [c|p] eqn:Hstart.
      - intros [H|[H|H]]%in_app_or; [easy| |now apply (IH Hdata None)].
        apply start_code_point in Hstart as [->| ->]; [congruence|discriminate H].
      - intros [H|H]%in_app_or; [easy|].
        apply (IH Hdata (Some p)); [now apply (start_beyond_cr (Byte.to_N b))|exact H]. }
    cbn [Codec.decode]. destruct st as [p|].
    + destruct Hst as [Hbits Hlo].
      destruct (_ && _)%N eqn:Hrange.
      * apply andb_prop in Hrange as [Hge%N.leb_le Hle%N.leb_le].
        destruct (Codec.need p) as [|[|k]].
        -- intros [H|H]; [lia|now apply (IH Hdata None)].
        -- intros [H|H]; [lia|now apply (IH Hdata None)].
        -- apply (IH Hdata (Some _)). unfold beyond_cr. cbn. lia.
      * apply Hfresh. intros [[=]|[]].
    + apply (Hfresh []). easy.
Qed.

Lemma translate_newlines_without_cr t :
  ~ In 13%N t -> Codec.translate_newlines t = t.
Proof.
  induction t as [|c t IH]; cbn; [easy|]. intros Hcr.
  destruct (N.eqb_spec c 13) as [->|_]; [exfalso; auto|].
  rewrite IH; [easy|]. intros H. apply Hcr. now right.
Qed.

(** On a file without carriage returns [read_text] is the UTF-8 decoding
    with replacement and nothing more. *)
Lemma read_text_without_cr data :
  ~ In x0d data -> Codec.read_text data = Codec.decode None data.
Proof.
  intros Hcr. unfold Codec.read_text.
  apply translate_newlines_without_cr. now apply decode_without_cr.
Qed.

(** *** The walk *)

Section CollectorFacts.

Variable cfg : Config.

Lemma visit_skipped rel acc name n sub :
  contains_skipped_segment (rel ++ [name]) = true ->
  visit cfg rel acc (name, n, sub) = inr acc.
Proof. intros H. unfold visit. destruct acc. now rewrite H. Qed.

Lemma visit_file rel acc name data readable sub binary :
  contains_skipped_segment (rel ++ [name]) = false ->
  is_binary_file data readable 1024 = inr binary ->
  visit cfg rel acc (name, File data readable, sub)
  = inr (acc.1 ++ [FileNode name (node_path (rel ++ [name]))],
         acc.2 ++ [file_record cfg (node_path (rel ++ [name])) data binary]).
Proof.
  intros Hskip Hbin. unfold visit, file_record. destruct acc as [tree_nodes file_records].
  rewrite Hskip, Hbin. simpl.
  destruct binary; [reflexivity|]. now destruct (MAX_FILE_BYTES cfg <? _).
Qed.

Lemma visit_dir rel acc name entries sub children :
  contains_skipped_segment (rel ++ [name]) = false ->
  sub = inr children ->
  visit cfg rel acc (name, Dir entries, sub)
  = inr (acc.1 ++ [DirNode name (node_path (rel ++ [name])) children.1],
         acc.2 ++ children.2).
Proof.
  intros Hskip ->. unfold visit. destruct acc, children. now rewrite Hskip.
Qed.

(** The loop body only appends, and what it appends does not depend on
    what was gathered before. *)
Lemma visit_acc rel acc e :
  visit cfg rel acc e
  = (c ← visit cfg rel ([], []) e; mret (acc.1 ++ c.1, acc.2 ++ c.2)).
Proof.
  destruct e as [[name n] sub], acc as [tree_nodes file_records].
  unfold visit. destruct (contains_skipped_segment _); simpl.
  { now rewrite !app_nil_r. }
  destruct n as [data readable|entries| |]; simpl; try now rewrite !app_nil_r.
  - destruct (is_binary_file data readable 1024) as [e|[|]]; simpl; [easy..|].
    now destruct (MAX_FILE_BYTES cfg <? _).
  - destruct sub as [e|[ct cf]]; simpl; easy.
Qed.

Lemma for_each_visit_grows rel l :
  forall acc r,
    for_each (visit cfg rel) acc l = inr r ->
    incl acc.1 r.1 /\ incl acc.2 r.2.
Proof.
  induction l as [|x l IH]; intros acc r; simpl.
  - intros [= <-]. split; apply incl_refl.
  - rewrite visit_acc. destruct (visit cfg rel ([], []) x) as [e|c]; simpl; [easy|].
    intros [H1 H2]%IH. simpl in *. split.
    + eapply incl_tran; [apply incl_appl, incl_refl|exact H1].
    + eapply incl_tran; [apply incl_appl, incl_refl|exact H2].
Qed.

(** What the loop body appends for an entry of the listing is in the
    outcome of the loop. *)
Lemma for_each_visit_In rel l :
  forall acc r e,
    for_each (visit cfg rel) acc l = inr r ->
    In e l ->
    exists c, visit cfg rel ([], []) e = inr c /\
              incl c.1 r.1 /\ incl c.2 r.2.
Proof.
  induction l as [|x l IH]; intros acc r e; simpl; [tauto|].
  rewrite visit_acc. destruct (visit cfg rel ([], []) x) as [err|c] eqn:Hx; simpl; [easy|].
  intros Hloop [->|Hin].
  - exists c. split; [exact Hx|].
    apply for_each_visit_grows in Hloop as [H1 H2]. simpl in *. split.
    + eapply incl_tran; [apply incl_appr, incl_refl|exact H1].
    + eapply incl_tran; [apply incl_appr, incl_refl|exact H2].
  - eauto.
Qed.

(** The loop completes when its body does on every entry. *)
Lemma for_each_visit_returns rel l :
  (forall e, In e l -> exists c, visit cfg rel ([], []) e = inr c) ->
  forall acc, exists r, for_each (visit cfg rel) acc l = inr r.
Proof.
  induction l as [|x l IH]; intros Hall acc; simpl; [eauto|].
  rewrite visit_acc. destruct (Hall x) as [c ->]; [now left|]. simpl.
  apply IH. intros e He. apply Hall. now right.
Qed.

Lemma for_each_map {A B S : Type} (f : A -> B) (body : S -> B -> result S) (l : list A) :
  forall s, for_each body s (List.map f l) = for_each (fun s x => body s (f x)) s l.
Proof.
  induction l as [|x l IH]; intros s; simpl; [easy|].
  destruct (body s (f x)); simpl; [easy|apply IH].
Qed.

Lemma for_each_ext {A S : Type} (body body' : S -> A -> result S) (l : list A) :
  (forall s x, In x l -> body s x = body' s x) ->
  forall s, for_each body s l = for_each body' s l.
Proof.
  induction l as [|x l IH]; intros Hext s; simpl; [easy|].
  rewrite Hext by now left. destruct (body' s x); simpl; [easy|].
  apply IH. intros s' y Hy. apply Hext. now right.
Qed.

(** Entries on which the body does nothing can be dropped from the loop. *)
Lemma for_each_filter {A S : Type} (body : S -> A -> result S) (p : A -> bool)
    (l : list A) :
  (forall s x, p x = false -> body s x = inr s) ->
  forall s, for_each body s (List.filter p l) = for_each body s l.
Proof.
  intros Hskip. induction l as [|x l IH]; intros s; simpl; [easy|].
  destruct (p x) eqn:Hp; simpl.
  - destruct (body s x); simpl; [easy|apply IH].
  - rewrite (Hskip s x Hp). simpl. apply IH.
Qed.

(** The equation of [recursively_collect] in the shape of the source: the
    loop runs over the sorted listing and calls the function on the
    directories it visits. *)
Lemma recursively_collect_eq entries rel :
  recursively_collect cfg (Dir entries) rel
  = for_each (fun acc e =>
                visit cfg rel acc
                  (e.1, e.2, recursively_collect cfg e.2 (rel ++ [e.1])))
             ([], [])
             (sorted (fun e => Py.lower e.1) entries).
Proof.
  simpl.
  rewrite (sorted_map _ _ (fun e : string * node => Py.lower e.1)).
  - rewrite for_each_map. apply for_each_ext. now intros s [name n] _.
  - now intros [name n].
Qed.

(** The walk of a directory completes. *)
Lemma recursively_collect_returns n :
  forall rel entries, n = Dir entries ->
  exists r, recursively_collect cfg n rel = inr r.
Proof.
  induction n as [data readable|es IH| |] using node_ind';
    intros rel entries [= ->].
  rewrite recursively_collect_eq.
  rewrite <- (for_each_map (fun e : string * node =>
                (e.1, e.2, recursively_collect cfg e.2 (rel ++ [e.1])))
              (visit cfg rel)).
  apply for_each_visit_returns.
  intros e [[name c] [<- Hin]]%in_map_iff. cbn [fst snd].
  apply sorted_In in Hin.
  destruct (contains_skipped_segment (rel ++ [name])) eqn:Hskip.
  { rewrite visit_skipped by exact Hskip. eauto. }
  destruct c as [data readable|sub| |].
  - destruct (is_binary_file_returns data readable 1024) as [b Hb].
    erewrite visit_file by eassumption. eauto.
  - rewrite Forall_forall in IH. apply list_elem_of_In in Hin.
    destruct (IH _ Hin (rel ++ [name]) sub eq_refl) as [r Hr].
    erewrite visit_dir by eassumption. eauto.
  - unfold visit. rewrite Hskip. eauto.
  - unfold visit. rewrite Hskip. eauto.
Qed.

(** The same equation with the recursive calls laid out in the listing. *)
Lemma recursively_collect_listing entries rel :
  recursively_collect cfg (Dir entries) rel
  = for_each (visit cfg rel) ([], [])
      (List.map (fun e : string * node =>
                   (e.1, e.2, recursively_collect cfg e.2 (rel ++ [e.1])))
                (sorted (fun e => Py.lower e.1) entries)).
Proof. rewrite recursively_collect_eq. symmetry. apply for_each_map. Qed.

Lemma contains_skipped_segment_app a b :
  contains_skipped_segment (a ++ b)
  = contains_skipped_segment a || contains_skipped_segment b.
Proof. apply existsb_app. Qed.

(** A regular file that the walk reaches has its record in the outcome. *)
Lemma collected_file_record root names n :
  entry_at root names n ->
  forall data readable binary rel,
    n = File data readable ->
    contains_skipped_segment (rel ++ names) = false ->
    is_binary_file data readable 1024 = inr binary ->
    exists tree files,
      recursively_collect cfg root rel = inr (tree, files) /\
      In (file_record cfg (node_path (rel ++ names)) data binary) files.
Proof.
  induction 1 as [entries name n Hin|entries name d names n Hin Hd IH];
    intros data readable binary rel -> Hskip Hbin.
  - destruct (recursively_collect_returns (Dir entries) rel entries eq_refl)
      as [[tree files] Hr].
    exists tree, files. split; [exact Hr|].
    rewrite recursively_collect_listing in Hr.
    eapply for_each_visit_In in Hr as (c & Hc & _ & Hfiles).
    2:{ apply in_map_iff. eexists. split; [reflexivity|].
        apply sorted_In. exact Hin. }
    cbn [fst snd] in Hc. erewrite visit_file in Hc by eassumption.
    injection Hc as <-. apply Hfiles. cbn. now left.
  - assert (Hskip' : contains_skipped_segment ((rel ++ [name]) ++ names) = false)
      by now rewrite <- app_assoc.
    destruct (IH data readable binary (rel ++ [name]) eq_refl Hskip' Hbin)
      as (ctree & cfiles & Hsub & Hrec).
    rewrite <- app_assoc in Hrec. cbn [app] in Hrec.
    destruct (recursively_collect_returns (Dir entries) rel entries eq_refl)
      as [[tree files] Hr].
    exists tree, files. split; [exact Hr|].
    rewrite recursively_collect_listing in Hr.
    eapply for_each_visit_In in Hr as (c & Hc & _ & Hfiles).
    2:{ apply in_map_iff. eexists. split; [reflexivity|].
        apply sorted_In. exact Hin. }
    cbn [fst snd] in Hc.
    rewrite contains_skipped_segment_app in Hskip'.
    apply orb_false_elim in Hskip' as [Hhere _].
    inversion Hd; subst; erewrite visit_dir in Hc by eassumption;
      injection Hc as <-; apply Hfiles; cbn; exact Hrec.
Qed.

Lemma visit_prune rel acc name c sub r :
  visit cfg rel acc (name, prune r c, sub) = visit cfg rel acc (name, c, sub).
Proof. now destruct c. Qed.

(** The walk does not depend on the entries of the skip-set nor on what
    lies below them. *)
Lemma recursively_collect_prune root :
  forall rel,
    recursively_collect cfg (prune rel root) rel = recursively_collect cfg root rel.
Proof.
  induction root as [data readable|entries IH| |] using node_ind';
    intros rel; try reflexivity.
  cbn [prune]. rewrite !recursively_collect_listing.
  rewrite sorted_filter.
  rewrite (sorted_map _ _ (fun e : string * node => Py.lower e.1))
    by now intros [name c].
  rewrite for_each_map.
  rewrite for_each_filter.
  2:{ intros s [name c] Hkeep. apply negb_false_iff in Hkeep.
      now apply visit_skipped. }
  rewrite !for_each_map. apply for_each_ext.
  intros s [name c] Hin. cbn [fst snd].
  apply sorted_In, list_elem_of_In in Hin.
  rewrite Forall_forall in IH. rewrite (IH _ Hin). apply visit_prune.
Qed.

(** Nothing that [prune] leaves has a segment of the skip-set on its path. *)
Lemma prune_no_skipped root names n :
  forall rel,
    entry_at (prune rel root) names n ->
    contains_skipped_segment rel = false ->
    contains_skipped_segment (rel ++ names) = false.
Proof.
  revert names n.
  induction root as [data readable|entries IH| |] using node_ind';
    intros names n rel Hat Hrel; try (inversion Hat; fail).
  cbn [prune] in Hat. rewrite Forall_forall in IH.
  inversion Hat as [es name n' Hin|es name d names' n' Hin Hd]; subst.
  - apply filter_In in Hin as [_ Hkeep]. now apply negb_true_iff in Hkeep.
  - apply filter_In in Hin as [Hin Hkeep]. apply negb_true_iff in Hkeep.
    apply in_map_iff in Hin as [[name' c] [[= -> <-] Hin]].
    apply list_elem_of_In in Hin.
    specialize (IH _ Hin names' n (rel ++ [name]) Hd Hkeep).
    now rewrite <- app_assoc in IH.
Qed.

End CollectorFacts.

Section Provenance.

Variable cfg : Config.

(** Whatever the loop returns was there before or was appended for one of
    the entries. *)
Lemma for_each_visit_origin rel l :
  forall acc r,
    for_each (visit cfg rel) acc l = inr r ->
    (forall t, In t r.1 ->
       In t acc.1 \/ exists e c, In e l /\ visit cfg rel ([], []) e = inr c /\ In t c.1) /\
    (forall x, In x r.2 ->
       In x acc.2 \/ exists e c, In e l /\ visit cfg rel ([], []) e = inr c /\ In x c.2).
Proof.
  induction l as [|e l IH]; intros acc r; simpl.
  - intros [= <-]. auto.
  - rewrite visit_acc. destruct (visit cfg rel ([], []) e) as [err|c] eqn:He; simpl; [easy|].
    intros [Htree Hfiles]%IH. simpl in *. split.
    + intros t [[Ht|Ht]%in_app_or|(e' & c' & Hin & Hc & Ht)]%Htree; eauto 8.
    + intros x [[Hx|Hx]%in_app_or|(e' & c' & Hin & Hc & Hx)]%Hfiles; eauto 8.
Qed.

(** What the loop body appends for one entry. *)
Lemma visit_cases rel name n sub c :
  visit cfg rel ([], []) (name, n, sub) = inr c ->
  c = ([], []) \/
  contains_skipped_segment (rel ++ [name]) = false /\
  ((exists data readable binary,
      n = File data readable /\
      c = ([FileNode name (node_path (rel ++ [name]))],
           [file_record cfg (node_path (rel ++ [name])) data binary])) \/
   (exists entries children,
      n = Dir entries /\ sub = inr children /\
      c = ([DirNode name (node_path (rel ++ [name])) children.1], children.2))).
Proof.
  destruct (contains_skipped_segment (rel ++ [name])) eqn:Hskip.
  { rewrite visit_skipped by exact Hskip. intros [= <-]. now left. }
  destruct n as [data readable|entries| |].
  - destruct (is_binary_file_returns data readable 1024) as [binary Hb].
    erewrite visit_file by eassumption. intros [= <-]. right. split; [easy|].
    left. eauto.
  - destruct sub as [err|children].
    + unfold visit. rewrite Hskip. discriminate.
    + erewrite visit_dir by eauto. intros [= <-]. right. split; [easy|].
      right. eauto.
  - unfold visit. rewrite Hskip. intros [= <-]. now left.
  - unfold visit. rewrite Hskip. intros [= <-]. now left.
Qed.

(** Every file record of the outcome stems from a regular file that the
    walk reached along a path without any segment of the skip-set. *)
Lemma collected_record_origin root :
  forall rel tree files x,
    recursively_collect cfg root rel = inr (tree, files) ->
    In x files ->
    exists names data readable,
      entry_at root names (File data readable) /\
      contains_skipped_segment (rel ++ names) = false /\
      rec_path x = node_path (rel ++ names).
Proof.
  induction root as [data readable|entries IH| |] using node_ind';
    intros rel tree files x; try discriminate.
  rewrite recursively_collect_listing. intros Hloop Hx.
  apply for_each_visit_origin in Hloop as [_ Hfiles].
  destruct (Hfiles x Hx) as [[]|(e & c & Hin & Hc & Hxc)].
  apply in_map_iff in Hin as [[name n] [<- Hin]]. cbn [fst snd] in Hc.
  apply sorted_In in Hin.
  apply visit_cases in Hc as [->|[Hskip [(data & readable & binary & -> & ->)
                                        |(sub & children & -> & Hsub & ->)]]].
  - destruct Hxc.
  - destruct Hxc as [<-|[]].
    exists [name], data, readable. split; [now apply entry_here|].
    split; [exact Hskip|]. unfold file_record.
    destruct binary; [reflexivity|]. now destruct (_ <? _).
  - rewrite Forall_forall in IH.
    destruct children as [ctree cfiles].
    destruct (IH _ (proj2 (list_elem_of_In _ _) Hin) _ _ _ x Hsub Hxc)
      as (names & data & readable & Hat & Hskip' & Hpath).
    exists (name :: names), data, readable.
    rewrite <- app_assoc in Hskip', Hpath.
    split; [now apply entry_below with (d := Dir sub)|]. easy.
Qed.

(** No tree node of the outcome, at any depth, carries a name of the
    skip-set. *)
Lemma collected_tree_names root :
  forall rel tree files name,
    recursively_collect cfg root rel = inr (tree, files) ->
    In name (flat_map node_names tree) ->
    name ∉ SKIP_DIRS.
Proof.
  induction root as [data readable|entries IH| |] using node_ind';
    intros rel tree files nm; try discriminate.
  rewrite recursively_collect_listing. intros Hloop Hnm.
  apply in_flat_map in Hnm as (t & Ht & Hnm).
  apply for_each_visit_origin in Hloop as [Htree _].
  destruct (Htree t Ht) as [[]|(e & c & Hin & Hc & Htc)].
  apply in_map_iff in Hin as [[name n] [<- Hin]]. cbn [fst snd] in Hc.
  apply sorted_In in Hin.
  assert (Hname : contains_skipped_segment (rel ++ [name]) = false -> name ∉ SKIP_DIRS).
  { rewrite contains_skipped_segment_app. intros [_ H]%orb_false_elim.
    cbn in H. rewrite orb_false_r in H. now apply bool_decide_eq_false in H. }
  apply visit_cases in Hc as [->|[Hskip [(data & readable & binary & -> & ->)
                                        |(sub & children & -> & Hsub & ->)]]].
  - destruct Htc.
  - destruct Htc as [<-|[]]. destruct Hnm as [<-|[]]. auto.
  - destruct Htc as [<-|[]]. destruct Hnm as [<-|Hnm]; [auto|].
    rewrite Forall_forall in IH. destruct children as [ctree cfiles].
    exact (IH _ (proj2 (list_elem_of_In _ _) Hin) _ _ _ nm Hsub Hnm).
Qed.

End Provenance.

(** The recorded path is the POSIX relative path whenever the first
    component starts with neither a dot nor a slash. *)
Lemma node_path_exact name names c s :
  name = String c s ->
  Py.contains c "./" = false ->
  node_path (name :: names) = Py.join "/" (name :: names).
Proof.
  intros -> Hc. unfold node_path.
  destruct names as [|n ns].
  - change (Py.join "/" [String c s]) with (String c s).
    cbn [Py.lstrip]. now rewrite Hc.
  - change (Py.join "/" (String c s :: n :: ns))
      with (String c (s +:+ "/" +:+ Py.join "/" (n :: ns))).
    cbn [Py.lstrip]. now rewrite Hc.
Qed.

(** C5.  A regular file that the walk reaches (no segment of its path is
    in the skip-set, and the directories above it are real directories)
    has a record in the outcome: omitted as [binary] when it cannot be
    opened, or when its first 1024 bytes hold a null byte or more than 30%
    of them are outside the printable/whitespace set; otherwise omitted as
    [large] when its size is strictly above [MAX_FILE_BYTES]; otherwise not
    omitted, with the bytes of the file decoded as UTF-8, ill-formed
    sequences replaced, and every line end [\r\n] or [\r] turned into
    [\n].  The walk itself returns. *)
Theorem recursively_collect_classifies_file cfg root names data readable rel :
  entry_at root names (File data readable) ->
  contains_skipped_segment (rel ++ names) = false ->
  exists tree files,
    recursively_collect cfg root rel = inr (tree, files) /\
    In (if negb readable || sample_is_binary (take 1024 data) then
          {| rec_path := node_path (rel ++ names);
             rec_size := Z.of_nat (length data);
             omitted := true; omittedReason := Some "binary"; content := None |}
        else if MAX_FILE_BYTES cfg <? Z.of_nat (length data) then
          {| rec_path := node_path (rel ++ names);
             rec_size := Z.of_nat (length data);
             omitted := true; omittedReason := Some "large"; content := None |}
        else
          {| rec_path := node_path (rel ++ names);
             rec_size := Z.of_nat (length data);
             omitted := false; omittedReason := None;
             content := Some (Codec.translate_newlines (Codec.decode None data)) |})
       files.
Proof.
  intros Hat Hskip.
  exact (collected_file_record cfg root names _ Hat data readable _ rel eq_refl Hskip
           (is_binary_file_default data readable)).
Qed.

(** A text file of exactly the ceiling's size has its content included. *)
Lemma recursively_collect_classifies_file_witness :
  exists tree files,
    recursively_collect five_byte_ceiling hello_workspace [] = inr (tree, files) /\
    In {| rec_path := "src/main.txt"; rec_size := 5;
          omitted := false; omittedReason := None;
          content := Some [104; 101; 108; 108; 111]%N |}
       files.
Proof.
  apply (recursively_collect_classifies_file five_byte_ceiling hello_workspace
           ["src"; "main.txt"] (list_byte_of_string "hello") true []).
  - apply entry_below with (d := Dir [("main.txt", File (list_byte_of_string "hello") true)]).
    + now left.
    + apply entry_here. now left.
  - vm_compute. reflexivity.
Defined.

(** The content of a file with the bytes [a\r\nb] is [a\nb]: the carriage
    return that the UTF-8 decoding of the bytes holds is gone. *)
Lemma recursively_collect_translates_line_ends :
  Codec.decode None [x61; x0d; x0a; x62]%byte = [97; 13; 10; 98]%N /\
  recursively_collect default_config
    (Dir [("a.txt", File [x61; x0d; x0a; x62]%byte true)]) []
  = inr ([FileNode "a.txt" "a.txt"],
         [{| rec_path := "a.txt"; rec_size := 4; omitted := false;
             omittedReason := None; content := Some [97; 10; 98]%N |}]).
Proof. split; vm_compute; reflexivity. Qed.

(** C10.  [is_binary_file] always returns (its division is never reached
    with an empty sample) and answers [False] on an empty file; under a
    ceiling that is not negative, an empty file that the walk reaches is
    recorded as not omitted, with the empty string as content. *)
Theorem empty_file_is_text cfg root names rel :
  0 <= MAX_FILE_BYTES cfg ->
  entry_at root names (File [] true) ->
  contains_skipped_segment (rel ++ names) = false ->
  (forall data readable sample_size,
     exists b, is_binary_file data readable sample_size = inr b) /\
  (forall sample_size, is_binary_file [] true sample_size = inr false) /\
  exists tree files,
    recursively_collect cfg root rel = inr (tree, files) /\
    In {| rec_path := node_path (rel ++ names); rec_size := 0;
          omitted := false; omittedReason := None; content := Some [] |}
       files.
Proof.
  intros Hmax Hat Hskip. split; [exact is_binary_file_returns|].
  split; [now intros [|k]|].
  destruct (collected_file_record cfg root names _ Hat [] true false rel
              eq_refl Hskip eq_refl) as (tree & files & Hr & Hin).
  exists tree, files. split; [exact Hr|].
  unfold file_record in Hin. cbn [length] in Hin.
  change (Z.of_nat 0) with 0 in Hin.
  destruct (Z.ltb_spec (MAX_FILE_BYTES cfg) 0); [lia|exact Hin].
Qed.

(** The empty [pkg/__init__.py] is recorded with empty content. *)
Lemma empty_file_is_text_witness :
  0 <= MAX_FILE_BYTES default_config /\
  exists tree files,
    recursively_collect default_config empty_file_workspace [] = inr (tree, files) /\
    In {| rec_path := "pkg/__init__.py"; rec_size := 0;
          omitted := false; omittedReason := None; content := Some [] |}
       files.
Proof.
  split; [vm_compute; discriminate|].
  apply (empty_file_is_text default_config empty_file_workspace
           ["pkg"; "__init__.py"] []).
  - vm_compute; discriminate.
  - apply entry_below with (d := Dir [("__init__.py", File [] true)]).
    + now left.
    + apply entry_here. now left.
  - vm_compute. reflexivity.
Defined.

(** C6.  The walk from the workspace root gives the same outcome on a tree
    and on that tree without the entries whose relative path has a segment
    of the skip-set and without everything below them, at any depth (in the
    latter tree no path has such a segment).  In the outcome no tree node,
    at any depth, carries a name of the skip-set, and every file record
    stems from a regular file whose relative path has no segment of the
    skip-set. *)
Theorem recursively_collect_ignores_skipped cfg root :
  recursively_collect cfg root [] = recursively_collect cfg (prune [] root) [] /\
  (forall names n,
     entry_at (prune [] root) names n -> contains_skipped_segment names = false) /\
  (forall tree files,
     recursively_collect cfg root [] = inr (tree, files) ->
     (forall name, In name (flat_map node_names tree) -> name ∉ SKIP_DIRS) /\
     (forall x, In x files ->
        exists names data readable,
          entry_at root names (File data readable) /\
          contains_skipped_segment names = false /\
          rec_path x = node_path names)).
Proof.
  split; [symmetry; apply recursively_collect_prune|].
  split.
  - intros names n Hat. now apply (prune_no_skipped root names n []).
  - intros tree files Hr. split.
    + intros name. exact (collected_tree_names cfg root [] tree files name Hr).
    + intros x. exact (collected_record_origin cfg root [] tree files x Hr).
Qed.

(** C9.  For the top-level file [.env] the walk records the path [env], and
    for [.github/ci.yml] the path [github/ci.yml]: stripping the characters
    [.] and [/] from the left of the path removes the leading dots of the
    first component. *)
Theorem recursively_collect_strips_leading_dots :
  recursively_collect default_config dotfile_workspace []
  = inr ([FileNode ".env" "env";
          DirNode ".github" "github" [FileNode "ci.yml" "github/ci.yml"]],
         [{| rec_path := "env"; rec_size := 3; omitted := false;
             omittedReason := None; content := Some [65; 61; 49]%N |};
          {| rec_path := "github/ci.yml"; rec_size := 8; omitted := false;
             omittedReason := None;
             content := Some [111; 110; 58; 32; 112; 117; 115; 104]%N |}]).
Proof. vm_compute. reflexivity. Qed.

(** ** Facts about the string operations *)

Section StringFacts.

Implicit Types (s t : string) (c : ascii) (p q : ascii -> bool).

Lemma append_cons c s t : String c s +:+ t = String c (s +:+ t).
Proof. reflexivity. Qed.

Lemma substring_whole s : substring 0 (String.length s) s = s.
Proof. induction s as [|c s IH]; simpl; [easy|now rewrite IH]. Qed.

Lemma substring_0_empty k s :
  substring 0 k s = EmptyString -> k = 0%nat \/ s = EmptyString.
Proof. destruct k, s; simpl; auto; discriminate. Qed.

Lemma all_chars_app p s t :
  Py.all_chars p (s +:+ t) = Py.all_chars p s && Py.all_chars p t.
Proof. induction s as [|a s IH]; simpl; [easy|]. now rewrite IH, andb_assoc. Qed.

Lemma all_chars_impl p q s :
  (forall c, p c = true -> q c = true) ->
  Py.all_chars p s = true -> Py.all_chars q s = true.
Proof.
  intros Hpq. induction s as [|a s IH]; simpl; [easy|].
  intros [Ha Hs]%andb_prop. now rewrite (Hpq a Ha), IH.
Qed.

Lemma contains_app c s t :
  Py.contains c (s +:+ t) = Py.contains c s || Py.contains c t.
Proof. induction s as [|a s IH]; simpl; [easy|]. now rewrite IH, orb_assoc. Qed.

Lemma all_chars_not_contains p c s :
  Py.all_chars p s = true -> p c = false -> Py.contains c s = false.
Proof.
  intros Hs Hc. induction s as [|a s IH]; simpl in *; [easy|].
  apply andb_prop in Hs as [Ha Hs]. rewrite (IH Hs), orb_false_r.
  destruct (Ascii.eqb_spec a c) as [->|_]; congruence.
Qed.

Lemma remove_chars_id p s :
  Py.all_chars (fun c => negb (p c)) s = true -> Py.remove_chars p s = s.
Proof.
  induction s as [|a s IH]; simpl; [easy|].
  intros [Ha Hs]%andb_prop. apply negb_true_iff in Ha. now rewrite Ha, IH.
Qed.

Lemma span_stop p s c t :
  Py.all_chars p s = true -> p c = false ->
  Py.span p (s +:+ String c t) = (s, String c t).
Proof.
  intros Hs Hc. induction s as [|a s IH]; simpl in *.
  - now rewrite Hc.
  - apply andb_prop in Hs as [Ha Hs]. now rewrite Ha, (IH Hs).
Qed.

Lemma partition_absent c s :
  Py.contains c s = false -> Py.partition c s = (s, false, EmptyString).
Proof.
  induction s as [|a s IH]; simpl; [easy|].
  intros [Ha Hs]%orb_false_elim. now rewrite Ha, (IH Hs).
Qed.

Lemma rpartition_absent c s :
  Py.contains c s = false -> Py.rpartition c s = (EmptyString, false, s).
Proof.
  induction s as [|a s IH]; simpl; [easy|].
  intros [Ha Hs]%orb_false_elim. now rewrite (IH Hs), Ha.
Qed.

Lemma split_absent c s : Py.contains c s = false -> Py.split c s = [s].
Proof.
  induction s as [|a s IH]; simpl; [easy|].
  intros [Ha Hs]%orb_false_elim. now rewrite Ha, (IH Hs).
Qed.

Lemma split_app c s t :
  Py.contains c s = false ->
  Py.split c (s +:+ String c t) = s :: Py.split c t.
Proof.
  induction s as [|a s IH]; simpl.
  - now rewrite Ascii.eqb_refl.
  - intros [Ha Hs]%orb_false_elim. now rewrite Ha, (IH Hs).
Qed.

Lemma lower_id s :
  Py.all_chars (fun c => negb (Py.is_upper c)) s = true -> Py.lower s = s.
Proof.
  induction s as [|a s IH]; simpl; [easy|].
  intros [Ha Hs]%andb_prop. apply negb_true_iff in Ha.
  unfold Py.lower_char. now rewrite Ha, (IH Hs).
Qed.

Lemma length_app s t :
  String.length (s +:+ t) = (String.length s + String.length t)%nat.
Proof. induction s as [|a s IH]; simpl; [easy|now rewrite IH]. Qed.

Lemma substring_app_l s t : substring 0 (String.length s) (s +:+ t) = s.
Proof. induction s as [|a s IH]; simpl; [now destruct t|now rewrite IH]. Qed.

Lemma substring_app_r s t :
  substring (String.length s) (String.length t) (s +:+ t) = t.
Proof. induction s as [|a s IH]; simpl; [apply substring_whole|exact IH]. Qed.

Lemma substring_split s :
  forall k, (k <= String.length s)%nat ->
  s = substring 0 k s +:+ substring k (String.length s - k) s.
Proof.
  induction s as [|a s IH]; intros [|k] Hk; simpl in *; try easy; try lia.
  - now rewrite substring_whole.
  - rewrite append_cons. f_equal. apply IH. lia.
Qed.

Lemma all_chars_substring p s :
  forall k, Py.all_chars p s = true -> Py.all_chars p (substring 0 k s) = true.
Proof.
  induction s as [|a s IH]; intros [|k]; simpl; try easy.
  intros [Ha Hs]%andb_prop. now rewrite Ha, IH.
Qed.

(** A string ends with [suf] exactly when it is its own [s[:-len(suf)]]
    followed by [suf]. *)
Lemma endswith_true suf s :
  Py.endswith suf s = true ->
  s = Py.drop_last (String.length suf) s +:+ suf.
Proof.
  unfold Py.endswith, Py.drop_last.
  intros [Hlen Hsuf]%andb_prop.
  apply Nat.leb_le in Hlen. apply String.eqb_eq in Hsuf.
  pose proof (substring_split s (String.length s - String.length suf)
                ltac:(lia)) as Hsplit.
  replace (String.length s - (String.length s - String.length suf))%nat
    with (String.length suf) in Hsplit by lia.
  now rewrite Hsuf in Hsplit.
Qed.

Lemma endswith_app suf s : Py.endswith suf (s +:+ suf) = true.
Proof.
  unfold Py.endswith. rewrite length_app.
  replace (String.length s + String.length suf - String.length suf)%nat
    with (String.length s) by lia.
  rewrite substring_app_r, String.eqb_refl, andb_true_r.
  apply Nat.leb_le. lia.
Qed.

Lemma drop_last_app suf s : Py.drop_last (String.length suf) (s +:+ suf) = s.
Proof.
  unfold Py.drop_last. rewrite length_app.
  replace (String.length s + String.length suf - String.length suf)%nat
    with (String.length s) by lia.
  apply substring_app_l.
Qed.

End StringFacts.

Lemma strip_git_app x : strip_git (x +:+ ".git") = x.
Proof.
  unfold strip_git. rewrite endswith_app.
  exact (drop_last_app ".git" x).
Qed.

(** A repository segment either carries the suffix [.git], which
    [strip_git] removes, or is left as it is. *)
Lemma strip_git_cases repo :
  repo = strip_git repo +:+ ".git" \/ strip_git repo = repo.
Proof.
  unfold strip_git. destruct (Py.endswith ".git" repo) eqn:Hends; [left|now right].
  exact (endswith_true ".git" repo Hends).
Qed.

(** ** URL validator *)

(** Stripping [.git] leaves nothing exactly for the segment [.git] (and
    for the empty segment). *)
Lemma strip_git_empty repo :
  strip_git repo = EmptyString <-> repo = EmptyString \/ repo = ".git".
Proof.
  split.
  - unfold strip_git, Py.endswith, Py.drop_last.
    destruct (Nat.leb_spec (String.length ".git") (String.length repo)) as [Hlen|Hlen];
      cbn [andb]; [|auto].
    destruct (String.eqb_spec (substring (String.length repo - String.length ".git")
                                 (String.length ".git") repo) ".git") as [Hsuf|_]; [|auto].
    intros [H0| ->]%substring_0_empty; [|auto]. right.
    cbn [String.length] in *.
    assert (Hfour : String.length repo = 4%nat) by lia.
    rewrite Hfour in Hsuf. cbn [Nat.sub] in Hsuf. rewrite <- Hfour in Hsuf.
    now rewrite substring_whole in Hsuf.
  - now intros [-> | ->].
Qed.

Lemma truthy_true s : Py.truthy s = true <-> s <> EmptyString.
Proof. unfold Py.truthy. destruct (String.eqb_spec s EmptyString); simpl; split; congruence. Qed.

Lemma path_parts_truthy p x : In x (path_parts p) -> Py.truthy x = true.
Proof. unfold path_parts. now intros [_ H]%filter_In. Qed.

Section UrlValidatorFacts.

Variable cfg : Config.
Variable bracketed_netloc_ok : string -> bool.

(** A URL that passes every check is normalized from its host and the
    first two segments of its path. *)
Lemma normalize_repo_url_accepts raw p owner repo rest :
  (String.length raw <= 2048)%nat ->
  Urllib.urlparse bracketed_netloc_ok raw = inr p ->
  scheme_allowed p = true ->
  carries_extras p = false ->
  host_allowed cfg p = true ->
  path_parts (Urllib.path p) = owner :: repo :: rest ->
  repo <> ".git" ->
  normalize_repo_url cfg bracketed_netloc_ok raw
  = inr (canonical (host_of (Urllib.netloc p)) owner repo).
Proof.
  intros Hlen Hparse Hscheme Hextras Hhost Hparts Hrepo.
  unfold normalize_repo_url.
  destruct (Nat.ltb_spec 2048 (String.length raw)); [lia|].
  rewrite Hparse. cbn [mbind result_bind].
  unfold scheme_allowed in Hscheme. rewrite Hscheme. cbn [negb].
  unfold carries_extras in Hextras. rewrite Hextras.
  unfold host_allowed in Hhost. rewrite Hhost. cbn [negb].
  rewrite Hparts.
  assert (Howner : Py.truthy owner = true).
  { apply (path_parts_truthy (Urllib.path p)). rewrite Hparts. now left. }
  assert (Hrepo' : Py.truthy (strip_git repo) = true).
  { apply truthy_true. rewrite strip_git_empty. intros [-> | ->]; [|easy].
    assert (Py.truthy EmptyString = true); [|easy].
    apply (path_parts_truthy (Urllib.path p)). rewrite Hparts. right. now left. }
  rewrite Howner, Hrepo'. reflexivity.
Qed.

Lemma normalize_repo_url_rejects raw p :
  Urllib.urlparse bracketed_netloc_ok raw = inr p ->
  listed_rejection cfg raw p \/
    nth 1 (path_parts (Urllib.path p)) EmptyString = ".git" ->
  raises (normalize_repo_url cfg bracketed_netloc_ok raw).
Proof.
  intros Hparse Hrej. unfold normalize_repo_url, raises, raise.
  destruct (Nat.ltb_spec 2048 (String.length raw)) as [Hlen|Hlen]; [eauto|].
  rewrite Hparse. cbn [mbind result_bind].
  fold (scheme_allowed p) (carries_extras p) (host_allowed cfg p).
  destruct (scheme_allowed p) eqn:Hscheme; cbn [negb]; [|eauto].
  destruct (carries_extras p) eqn:Hextras; [eauto|].
  destruct (host_allowed cfg p) eqn:Hhost; cbn [negb]; [|eauto].
  destruct (path_parts (Urllib.path p)) as [|owner [|repo rest]] eqn:Hparts; [eauto..|].
  unfold listed_rejection in Hrej. rewrite Hparts in Hrej.
  destruct Hrej as [[?|[?|[?|[?|Hshort]]]]|Hgit]; try (lia || congruence).
  - cbn [length] in Hshort. lia.
  - cbn [nth] in Hgit. subst repo.
    change (strip_git ".git") with EmptyString. cbn [Py.truthy String.eqb negb].
    rewrite orb_true_r. eauto.
Qed.

End UrlValidatorFacts.

(** C3.  [normalize_repo_url] raises exactly on the five grounds that the
    specification lists (length above 2048; scheme other than http/https;
    user name, password, query or fragment; host outside the allow-list;
    fewer than two non-empty path segments) and on two more: a URL that
    [urlparse] refuses, and a repository segment that is exactly [.git].
    In every other case it returns [https://{host}/{owner}/{repo}.git] with
    a trailing [.git] of the repository segment removed first. *)
Theorem normalize_repo_url_outcome cfg bracketed_netloc_ok raw :
  (raises (normalize_repo_url cfg bracketed_netloc_ok raw)
   <-> rejected cfg bracketed_netloc_ok raw) /\
  (~ rejected cfg bracketed_netloc_ok raw ->
   exists p owner repo rest,
     Urllib.urlparse bracketed_netloc_ok raw = inr p /\
     path_parts (Urllib.path p) = owner :: repo :: rest /\
     normalize_repo_url cfg bracketed_netloc_ok raw
     = inr (canonical (host_of (Urllib.netloc p)) owner repo)).
Proof.
  unfold rejected.
  destruct (Urllib.urlparse bracketed_netloc_ok raw) as [e|p] eqn:Hparse.
  - split; [|tauto]. split; [tauto|]. intros _.
    unfold normalize_repo_url, raises, raise. rewrite Hparse.
    destruct (_ <? _)%nat; cbn; eauto.
  - assert (Hcases :
      (listed_rejection cfg raw p \/
       nth 1 (path_parts (Urllib.path p)) EmptyString = ".git") \/
      exists owner repo rest,
        path_parts (Urllib.path p) = owner :: repo :: rest /\
        normalize_repo_url cfg bracketed_netloc_ok raw
        = inr (canonical (host_of (Urllib.netloc p)) owner repo)).
    { unfold listed_rejection.
      destruct (Nat.ltb_spec 2048 (String.length raw)) as [Hlen|Hlen]; [auto 10|].
      destruct (scheme_allowed p) eqn:Hscheme; [|auto 10].
      destruct (carries_extras p) eqn:Hextras; [auto 10|].
      destruct (host_allowed cfg p) eqn:Hhost; [|auto 10].
      destruct (path_parts (Urllib.path p)) as [|owner [|repo rest]] eqn:Hparts;
        [left; left; cbn [length]; do 4 right; lia..|].
      destruct (string_dec repo ".git") as [->|Hrepo]; [auto|].
      right. exists owner, repo, rest. split; [reflexivity|].
      now apply (normalize_repo_url_accepts cfg bracketed_netloc_ok raw p owner repo rest). }
    destruct Hcases as [Hrej|(owner & repo & rest & Hparts & Hok)].
    + split; [|tauto]. split; [tauto|]. intros _.
      now apply normalize_repo_url_rejects with (p := p).
    + split.
      * split; [intros [e He]; congruence|].
        intros Hrej. now apply normalize_repo_url_rejects with (p := p).
      * intros _. exists p, owner, repo, rest. auto.
Qed.

(** A URL with two non-empty path segments, the second being [.git], passes
    the five listed checks and is rejected all the same. *)
Lemma normalize_repo_url_rejects_dot_git :
  exists p,
    Urllib.urlparse any_bracketed_netloc "https://github.com/owner/.git" = inr p /\
    path_parts (Urllib.path p) = ["owner"; ".git"] /\
    ~ listed_rejection default_config "https://github.com/owner/.git" p /\
    normalize_repo_url default_config any_bracketed_netloc "https://github.com/owner/.git"
    = inl (ValueError "Repo URL must include owner/repo").
Proof.
  eexists. split; [vm_compute; reflexivity|].
  split; [vm_compute; reflexivity|].
  split; [|vm_compute; reflexivity].
  intros [H|[H|[H|[H|H]]]]; vm_compute in H; (lia || discriminate).
Qed.

(** C8.  A URL that passes the other checks and whose path has three or
    more non-empty segments is accepted: the result is built from the first
    two segments and the others are ignored. *)
Theorem normalize_repo_url_ignores_extra_segments cfg bracketed_netloc_ok raw p
    owner repo extra rest :
  (String.length raw <= 2048)%nat ->
  Urllib.urlparse bracketed_netloc_ok raw = inr p ->
  scheme_allowed p = true ->
  carries_extras p = false ->
  host_allowed cfg p = true ->
  path_parts (Urllib.path p) = owner :: repo :: extra :: rest ->
  repo <> ".git" ->
  normalize_repo_url cfg bracketed_netloc_ok raw
  = inr ("https://" +:+ host_of (Urllib.netloc p) +:+ "/" +:+ owner +:+ "/"
         +:+ strip_git repo +:+ ".git").
Proof. apply normalize_repo_url_accepts. Qed.

(** A URL with four path segments, the second ending in [.git]. *)
Lemma normalize_repo_url_ignores_extra_segments_witness :
  normalize_repo_url default_config any_bracketed_netloc
    "https://github.com/owner/repo.git/tree/main"
  = inr ("https://" +:+ host_of "github.com" +:+ "/" +:+ "owner" +:+ "/"
         +:+ strip_git "repo.git" +:+ ".git").
Proof.
  apply (normalize_repo_url_ignores_extra_segments default_config any_bracketed_netloc
           "https://github.com/owner/repo.git/tree/main"
           {| Urllib.scheme := "https"; Urllib.netloc := "github.com";
              Urllib.path := "/owner/repo.git/tree/main"; Urllib.params := "";
              Urllib.query := ""; Urllib.fragment := "" |}
           "owner" "repo.git" "tree" ["main"]).
  - cbn [String.length]. lia.
  - vm_compute. reflexivity.
  - vm_compute. reflexivity.
  - vm_compute. reflexivity.
  - vm_compute. reflexivity.
  - vm_compute. reflexivity.
  - discriminate.
Defined.

(** A URL with four path segments is normalized, not rejected. *)
Lemma normalize_repo_url_accepts_four_segments :
  exists p,
    Urllib.urlparse any_bracketed_netloc "https://github.com/owner/repo/tree/main" = inr p /\
    path_parts (Urllib.path p) = ["owner"; "repo"; "tree"; "main"] /\
    normalize_repo_url default_config any_bracketed_netloc
      "https://github.com/owner/repo/tree/main"
    = inr "https://github.com/owner/repo.git".
Proof.
  eexists. split; [vm_compute; reflexivity|].
  split; vm_compute; reflexivity.
Qed.

(** *** URLs of the form [https://{host}/{owner}/{repo}] *)

Lemma hostname_char_plain c :
  hostname_char c = true ->
  Py.contains c "/?#[]@:;" = false /\ Urllib.unsafe_url_byte c = false /\
  Py.is_upper c = false.
Proof. each_char c. Qed.

Lemma hostname_char_netloc c :
  hostname_char c = true -> negb (Py.contains c "/?#") = true.
Proof. each_char c. Qed.

Lemma segment_char_plain c :
  segment_char c = true ->
  Py.contains c "/?#;" = false /\ Urllib.unsafe_url_byte c = false.
Proof. each_char c. Qed.

Lemma is_hostname_lacks host c :
  is_hostname host = true -> Py.contains c "/?#[]@:;" = true ->
  Py.contains c host = false.
Proof.
  intros Hhost Hc. apply (all_chars_not_contains hostname_char); [exact Hhost|].
  destruct (hostname_char c) eqn:Hh; [|easy].
  apply hostname_char_plain in Hh as [Hh _]. congruence.
Qed.

Lemma is_segment_lacks seg c :
  is_segment seg = true -> Py.contains c "/?#;" = true ->
  Py.contains c seg = false.
Proof.
  intros [_ Hseg]%andb_prop Hc.
  apply (all_chars_not_contains segment_char); [exact Hseg|].
  destruct (segment_char c) eqn:Hs; [|easy].
  apply segment_char_plain in Hs as [Hs _]. congruence.
Qed.

Section CanonicalForm.

Variable cfg : Config.
Variable bracketed_netloc_ok : string -> bool.
Variables host owner repo : string.
Hypothesis Hhost : is_hostname host = true.
Hypothesis Howner : is_segment owner = true.
Hypothesis Hrepo : is_segment repo = true.

(** How [urlparse] reads such a URL. *)
Lemma urlparse_canonical_form :
  Urllib.urlparse bracketed_netloc_ok
    ("https://" +:+ host +:+ "/" +:+ owner +:+ "/" +:+ repo)
  = inr {| Urllib.scheme := "https"; Urllib.netloc := host;
           Urllib.path := "/" +:+ owner +:+ "/" +:+ repo;
           Urllib.params := EmptyString; Urllib.query := EmptyString;
           Urllib.fragment := EmptyString |}.
Proof using Hhost Howner Hrepo.
  pose proof Howner as [_ Howner']%andb_prop.
  pose proof Hrepo as [_ Hrepo']%andb_prop.
  set (tail := "/" +:+ owner +:+ "/" +:+ repo).
  assert (Htail : forall c, Py.contains c "/?#;" = true -> c <> "/"%char ->
                            Py.contains c tail = false).
  { intros c Hc Hne. unfold tail. rewrite !contains_app.
    rewrite (is_segment_lacks owner c Howner Hc), (is_segment_lacks repo c Hrepo Hc).
    change (Py.contains c "/") with (Ascii.eqb "/" c || false).
    destruct (Ascii.eqb_spec "/" c); [congruence|reflexivity]. }
  unfold Urllib.urlparse, Urllib.urlsplit.
  change (Py.lstrip Urllib.c0_control_or_space ("https://" +:+ host +:+ tail))
    with ("https://" +:+ host +:+ tail).
  rewrite remove_chars_id.
  2:{ unfold tail. rewrite !all_chars_app. repeat (apply andb_true_intro; split);
        try reflexivity.
      - eapply all_chars_impl; [|exact Hhost]. intros c Hc.
        apply hostname_char_plain in Hc as (_ & -> & _). reflexivity.
      - eapply all_chars_impl; [|exact Howner']. intros c Hc.
        apply segment_char_plain in Hc as (_ & ->). reflexivity.
      - eapply all_chars_impl; [|exact Hrepo']. intros c Hc.
        apply segment_char_plain in Hc as (_ & ->). reflexivity. }
  change (Urllib.split_scheme ("https://" +:+ host +:+ tail))
    with ("https", "//" +:+ host +:+ tail).
  change ("//" +:+ host +:+ tail) with (String "/" (String "/" (host +:+ tail))).
  cbv iota beta.
  unfold Urllib.splitnetloc, tail.
  change ("/" +:+ owner +:+ "/" +:+ repo) with (String "/" (owner +:+ "/" +:+ repo)).
  rewrite span_stop;
    [|eapply all_chars_impl; [exact hostname_char_netloc|exact Hhost]
     |reflexivity].
  change (String "/" (owner +:+ "/" +:+ repo)) with tail.
  rewrite (is_hostname_lacks host "[" Hhost eq_refl),
          (is_hostname_lacks host "]" Hhost eq_refl).
  cbn [andb orb negb mbind result_bind mret result_ret].
  rewrite (Htail "#"%char eq_refl ltac:(discriminate)),
          (Htail "?"%char eq_refl ltac:(discriminate)).
  cbn [mbind result_bind mret result_ret
       Urllib.scheme Urllib.netloc Urllib.path Urllib.query Urllib.fragment].
  rewrite (Htail ";"%char eq_refl ltac:(discriminate)), andb_false_r.
  reflexivity.
Qed.

Hypothesis Hallowed : host ∈ ALLOWED_GIT_HOSTS cfg.
Hypothesis Hgit : repo <> ".git".

(** Such a URL, when it is not too long, is normalized to the canonical
    form of its three parts. *)
Lemma normalize_repo_url_canonical_form :
  (String.length ("https://" +:+ host +:+ "/" +:+ owner +:+ "/" +:+ repo) <= 2048)%nat ->
  normalize_repo_url cfg bracketed_netloc_ok
    ("https://" +:+ host +:+ "/" +:+ owner +:+ "/" +:+ repo)
  = inr (canonical host owner repo).
Proof using Hhost Howner Hrepo Hallowed Hgit.
  intros Hlen.
  pose proof Howner as [Howner1 _]%andb_prop.
  pose proof Hrepo as [Hrepo1 _]%andb_prop.
  assert (Hhost_of : host_of host = host).
  { unfold host_of.
    rewrite split_absent by exact (is_hostname_lacks host ":" Hhost eq_refl).
    cbn [hd]. apply lower_id.
    eapply all_chars_impl; [|exact Hhost]. intros c Hc.
    apply hostname_char_plain in Hc as (_ & _ & ->). reflexivity. }
  rewrite <- Hhost_of at 2.
  apply (normalize_repo_url_accepts cfg bracketed_netloc_ok _
           {| Urllib.scheme := "https"; Urllib.netloc := host;
              Urllib.path := "/" +:+ owner +:+ "/" +:+ repo;
              Urllib.params := EmptyString; Urllib.query := EmptyString;
              Urllib.fragment := EmptyString |} owner repo []).
  - exact Hlen.
  - exact urlparse_canonical_form.
  - reflexivity.
  - unfold carries_extras, Urllib.username, Urllib.password, Urllib.userinfo.
    cbn [Urllib.netloc Urllib.query Urllib.fragment].
    rewrite rpartition_absent by exact (is_hostname_lacks host "@" Hhost eq_refl).
    reflexivity.
  - unfold host_allowed. cbn [Urllib.netloc]. rewrite Hhost_of.
    now apply bool_decide_eq_true.
  - unfold path_parts. cbn [Urllib.path].
    change ("/" +:+ owner +:+ "/" +:+ repo)
      with (EmptyString +:+ String "/" (owner +:+ String "/" repo)).
    rewrite split_app by reflexivity.
    rewrite split_app by exact (is_segment_lacks owner "/" Howner eq_refl).
    rewrite split_absent by exact (is_segment_lacks repo "/" Hrepo eq_refl).
    cbn [List.filter]. rewrite Howner1, Hrepo1. reflexivity.
  - exact Hgit.
Qed.

End CanonicalForm.

(** The canonical form of a repository segment is itself a segment, is not
    [.git], and strips back to the same name. *)
Lemma is_segment_strip_git repo :
  is_segment repo = true -> repo <> ".git" ->
  is_segment (strip_git repo +:+ ".git") = true /\
  strip_git repo +:+ ".git" <> ".git".
Proof.
  intros Hrepo Hgit.
  assert (Hne : strip_git repo <> EmptyString).
  { rewrite strip_git_empty. intros [-> | ->]; [discriminate Hrepo|easy]. }
  split.
  - destruct (strip_git_cases repo) as [<- | ->]; [exact Hrepo|].
    apply andb_prop in Hrepo as [Hne' Hchars].
    unfold is_segment. rewrite all_chars_app, Hchars.
    destruct repo; [discriminate Hne'|reflexivity].
  - intros H%(f_equal String.length). rewrite length_app in H.
    destruct (strip_git repo); [congruence|]. cbn [String.length] in H. lia.
Qed.

(** C7.  A URL [https://{host}/{owner}/{repo}] whose host is a lower-case
    host name of the allow-list, whose owner and repository segments are
    non-empty and free of URL delimiters, whose repository segment is not
    exactly [.git], and whose canonical form has at most 2048 characters is
    normalized to that canonical form, and normalizing the canonical form
    gives it back. *)
Theorem normalize_repo_url_idempotent cfg bracketed_netloc_ok host owner repo :
  host ∈ ALLOWED_GIT_HOSTS cfg ->
  is_hostname host = true ->
  is_segment owner = true ->
  is_segment repo = true ->
  repo <> ".git" ->
  (String.length (canonical host owner repo) <= 2048)%nat ->
  normalize_repo_url cfg bracketed_netloc_ok
    ("https://" +:+ host +:+ "/" +:+ owner +:+ "/" +:+ repo)
  = inr (canonical host owner repo) /\
  normalize_repo_url cfg bracketed_netloc_ok (canonical host owner repo)
  = inr (canonical host owner repo).
Proof.
  intros Hallowed Hhost Howner Hrepo Hgit Hlen.
  destruct (is_segment_strip_git repo Hrepo Hgit) as [Hseg' Hgit'].
  assert (Hagain :
    normalize_repo_url cfg bracketed_netloc_ok (canonical host owner repo)
    = inr (canonical host owner repo)).
  { unfold canonical at 1.
    rewrite (normalize_repo_url_canonical_form cfg bracketed_netloc_ok host owner
               (strip_git repo +:+ ".git") Hhost Howner Hseg' Hallowed Hgit' Hlen).
    unfold canonical. now rewrite strip_git_app. }
  split; [|exact Hagain].
  destruct (strip_git_cases repo) as [Heq|Heq].
  - rewrite Heq at 1. exact Hagain.
  - apply normalize_repo_url_canonical_form; try assumption.
    unfold canonical in Hlen. rewrite Heq in Hlen.
    rewrite !length_app in *. lia.
Qed.

(** [https://github.com/owner/repo.git] is its own canonical form. *)
Lemma normalize_repo_url_idempotent_witness :
  normalize_repo_url default_config any_bracketed_netloc
    ("https://" +:+ "github.com" +:+ "/" +:+ "owner" +:+ "/" +:+ "repo.git")
  = inr (canonical "github.com" "owner" "repo.git") /\
  normalize_repo_url default_config any_bracketed_netloc
    (canonical "github.com" "owner" "repo.git")
  = inr (canonical "github.com" "owner" "repo.git").
Proof.
  apply (normalize_repo_url_idempotent default_config any_bracketed_netloc
           "github.com" "owner" "repo.git").
  - vm_compute. reflexivity.
  - vm_compute. reflexivity.
  - vm_compute. reflexivity.
  - vm_compute. reflexivity.
  - discriminate.
  - vm_compute. lia.
Defined.

(** A URL of the form with the repository segment [.git] is rejected, and
    one of 2046 characters is normalized to a URL of 2050 characters, which
    is itself rejected. *)
Lemma normalize_repo_url_not_idempotent :
  let long_owner := String.concat EmptyString (repeat "a" 2025) in
  ("github.com" ∈ ALLOWED_GIT_HOSTS default_config /\
   is_hostname "github.com" = true /\ is_segment "owner" = true /\
   is_segment ".git" = true /\ is_segment long_owner = true /\
   is_segment "r" = true) /\
  normalize_repo_url default_config any_bracketed_netloc
    ("https://" +:+ "github.com" +:+ "/" +:+ "owner" +:+ "/" +:+ ".git")
  = inl (ValueError "Repo URL must include owner/repo") /\
  normalize_repo_url default_config any_bracketed_netloc
    ("https://" +:+ "github.com" +:+ "/" +:+ long_owner +:+ "/" +:+ "r")
  = inr ("https://" +:+ "github.com" +:+ "/" +:+ long_owner +:+ "/" +:+ "r.git") /\
  normalize_repo_url default_config any_bracketed_netloc
    ("https://" +:+ "github.com" +:+ "/" +:+ long_owner +:+ "/" +:+ "r.git")
  = inl (ValueError "Repo URL is too long").
Proof.
  cbv zeta. split.
  - split; [vm_compute; reflexivity|].
    vm_compute. repeat split.
  - split; [vm_compute; reflexivity|].
    split; vm_compute; reflexivity.
Qed.

(** ** Ingestion orchestrator *)

(** The events of acquiring from an upload are writes and an extraction. *)
Lemma acquire_upload_events cfg env repoUrl upload ev :
  In ev (acquire cfg env repoUrl (Some upload)).2 ->
  (exists chunk, ev = WriteChunk chunk) \/ (exists d, ev = ExtractAll d).
Proof.
  unfold acquire.
  destruct (negb _); [intros []|].
  destruct (stream_upload_to_file _ _ _) as [[e|[]] written]; cbn [snd].
  - intros (chunk & <- & _)%in_map_iff. eauto.
  - destruct (safe_extract_zip _ _ _ _ _) as [[e|[]] d].
    + assert (Hev : In ev (List.map WriteChunk written ++ partial_extraction d) ->
                    (exists chunk, ev = WriteChunk chunk) \/ (exists d, ev = ExtractAll d)).
      { intros [(chunk & <- & _)%in_map_iff|Hp]%in_app_or; [eauto|].
        destruct d; [destruct Hp|]. destruct Hp as [<-|[]]. eauto. }
      destruct e; exact Hev.
    + cbn [snd]. intros [(chunk & <- & _)%in_map_iff|[<-|[]]]%in_app_or; eauto.
Qed.

(** * Further properties *)

(** ** Archive sanitizer, further properties *)

Section ArchiveAcceptance.

Variable cwd : list string.

Lemma declared_total_nonneg destination members :
  forallb (member_passes cwd destination) members = true ->
  0 <= declared_total members.
Proof.
  induction members as [|m rest IH]; cbn [forallb declared_total fold_right]; [lia|].
  intros [Hm Hrest]%andb_prop. fold (declared_total rest).
  unfold member_passes in Hm. apply andb_prop in Hm as [_ Hsize%Z.leb_le].
  specialize (IH Hrest). lia.
Qed.

(** The member loop completes exactly on the members that pass, with every
    running total within the ceiling. *)
Lemma check_members_passes destination max_total_bytes members :
  forall total,
    (exists t, check_members cwd destination (PathLib.resolve cwd destination)
                 max_total_bytes total members = inr t)
    <-> forallb (member_passes cwd destination) members = true /\
        (members = [] \/ total + declared_total members <= max_total_bytes).
Proof.
  induction members as [|m rest IH]; intros total.
  - cbn. split; [auto|eauto].
  - cbn [check_members forallb declared_total fold_right]. fold (declared_total rest).
    unfold member_passes at 1.
    destruct (is_symlink m); cbn [negb andb].
    { split; [intros [t [=]]|intros [[=] _]]. }
    destruct (Py.startswith _ _); cbn [negb andb].
    2:{ split; [intros [t [=]]|intros [[=] _]]. }
    destruct (Z.ltb_spec (file_size m) 0) as [Hneg|Hsize].
    { destruct (Z.leb_spec 0 (file_size m)); [lia|].
      split; [intros [t [=]]|intros [[=] _]]. }
    destruct (Z.leb_spec 0 (file_size m)); [|lia].
    destruct (Z.ltb_spec max_total_bytes (total + file_size m)) as [Hover|Hfits].
    + split; [intros [t [=]]|]. intros [Hrest [[=]|Hsum]].
      pose proof (declared_total_nonneg destination rest Hrest). lia.
    + rewrite IH. split.
      * intros [Hrest [->|Hsum]]; (split; [exact Hrest|right]); cbn; lia.
      * intros [Hrest [[=]|Hsum]]. split; [exact Hrest|].
        destruct rest; [now left|right; lia].
Qed.

(** When every member extracts, [extractall] writes them all. *)
Lemma extractall_intact extract members destination :
  Forall (fun member => extract member = Extracted) members ->
  forall d,
    extractall extract members destination d
    = (inr tt, d ++ List.map (extract_target destination) members).
Proof.
  induction 1 as [|m rest Hm _ IH]; intros d; cbn [extractall List.map].
  - now rewrite app_nil_r.
  - rewrite Hm, IH, <- app_assoc. reflexivity.
Qed.

(** What [extractall] leaves on disk are the members up to some point of
    the archive, in order, and what it raises is what extracting one of
    them raised. *)
Lemma extractall_writes_prefix extract members destination :
  forall d,
    (exists k,
       (extractall extract members destination d).2
       = d ++ List.map (extract_target destination) (take k members)) /\
    (forall e,
       (extractall extract members destination d).1 = inl e ->
       exists member,
         In member members /\
         (extract member = RaisesUnopened e \/ extract member = RaisesPartway e)).
Proof.
  induction members as [|m rest IH]; intros d; cbn [extractall].
  - split; [exists 0%nat; cbn; now rewrite app_nil_r|discriminate].
  - destruct (extract m) as [|e'|e'] eqn:Hm.
    + destruct (IH (d ++ [extract_target destination m])) as [[k Hk] Hraise]. split.
      * exists (S k). rewrite Hk, <- app_assoc. reflexivity.
      * intros e He. destruct (Hraise e He) as (member & Hin & Hmember).
        exists member. split; [now right|exact Hmember].
    + split; [exists 0%nat; cbn; now rewrite app_nil_r|].
      cbn. intros e [= <-]. exists m. split; [now left|]. auto.
    + split; [now exists 1%nat|].
      cbn. intros e [= <-]. exists m. split; [now left|]. auto.
Qed.

(** Whether an archive is handed to [extractall] is decided by
    [archive_passes]. *)
Lemma safe_extract_zip_decided members extract destination max_total_bytes d :
  if archive_passes cwd destination max_total_bytes members
  then safe_extract_zip cwd (Archive members extract) destination max_total_bytes d
       = extractall extract members destination d
  else exists msg,
       safe_extract_zip cwd (Archive members extract) destination max_total_bytes d
       = (inl (ValueError msg), d).
Proof.
  pose proof (check_members_passes destination max_total_bytes members 0) as Hloop.
  unfold safe_extract_zip, archive_passes.
  destruct (check_members _ _ _ _ _ _) as [e|t] eqn:Hrun.
  - destruct (check_members_raises_ValueError _ _ _ _ _ _ _ Hrun) as [msg ->].
    destruct (forallb _ _) eqn:Hall; cbn [andb]; [|eauto].
    destruct members as [|m rest]; [discriminate Hrun|].
    destruct (Z.leb_spec (declared_total (m :: rest)) max_total_bytes); [|eauto].
    destruct (proj2 Hloop) as [t [=]]. split; [reflexivity|right; lia].
  - destruct (proj1 Hloop (ex_intro _ t eq_refl)) as [-> Hsum]. cbn [andb].
    destruct members as [|m rest]; [reflexivity|].
    destruct Hsum as [[=]|Hsum].
    destruct (Z.leb_spec (declared_total (m :: rest)) max_total_bytes); [reflexivity|lia].
Qed.

(** X1.  [safe_extract_zip] hands an archive to [extractall] exactly when
    every member is no symbolic link, resolves to a path whose string
    begins with the root's and declares a size that is not negative, and
    the declared sizes (of a non-empty archive) sum to at most the ceiling;
    its outcome is then that of [extractall], which may itself raise with
    the members up to some point of the archive written, and then what it
    raises is what extracting one of the members raised.  In every other
    case [safe_extract_zip] raises [ValueError] and writes nothing. *)
Theorem safe_extract_zip_outcome members extract destination max_total_bytes d :
  if archive_passes cwd destination max_total_bytes members
  then safe_extract_zip cwd (Archive members extract) destination max_total_bytes d
       = extractall extract members destination d /\
       (exists k,
          (extractall extract members destination d).2
          = d ++ List.map (extract_target destination) (take k members)) /\
       (forall e,
          (extractall extract members destination d).1 = inl e ->
          exists member,
            In member members /\
            (extract member = RaisesUnopened e \/ extract member = RaisesPartway e))
  else exists msg,
       safe_extract_zip cwd (Archive members extract) destination max_total_bytes d
       = (inl (ValueError msg), d).
Proof.
  pose proof (safe_extract_zip_decided members extract destination max_total_bytes d)
    as Hdecided.
  destruct (archive_passes _ _ _ _); [|exact Hdecided].
  split; [exact Hdecided|]. apply extractall_writes_prefix.
Qed.

Lemma append_assoc (s t u : string) : (s +:+ t) +:+ u = s +:+ (t +:+ u).
Proof. induction s as [|a s IH]; [easy|]. now rewrite !append_cons, IH. Qed.

Lemma prefix_app (s t : string) : String.prefix s (s +:+ t) = true.
Proof.
  apply prefix_correct, substring_app_l.
Qed.

(** Joining more components only extends the joined string. *)
Lemma join_app_extends sep (a c : list string) :
  exists t, Py.join sep (a ++ c) = Py.join sep a +:+ t.
Proof.
  induction a as [|x [|y a] IH].
  - exists (Py.join sep c). reflexivity.
  - destruct c as [|z c]; cbn [app Py.join].
    + exists EmptyString. clear. induction x as [|b x IH]; [easy|].
      now rewrite append_cons, <- IH.
    + eauto.
  - destruct IH as [t Ht]. exists t.
    change (Py.join sep ((x :: y :: a) ++ c))
      with (x +:+ sep +:+ Py.join sep ((y :: a) ++ c)).
    rewrite Ht.
    change (Py.join sep (x :: y :: a)) with (x +:+ sep +:+ Py.join sep (y :: a)).
    now rewrite !append_assoc.
Qed.

(** A path below the root, component by component, also begins with the
    root as a string: the test of the code never turns it down. *)
Lemma is_relative_to_startswith (p root : PathLib.Path) :
  PathLib.absolute p = true -> PathLib.absolute root = true ->
  PathLib.is_relative_to p root = true ->
  Py.startswith (PathLib.str root) (PathLib.str p) = true.
Proof.
  intros Hp Hroot Hrel. unfold PathLib.is_relative_to in Hrel.
  apply bool_decide_eq_true in Hrel as [rest Hrest].
  unfold PathLib.str, Py.startswith. rewrite Hp, Hroot, Hrest.
  destruct (join_app_extends "/" (PathLib.segments root) rest) as [t ->].
  rewrite <- append_assoc. apply prefix_app.
Qed.

(** X2.  An archive whose members are no symbolic links, declare sizes
    that are not negative and sum to at most the ceiling, and resolve to
    paths at or below the destination root is extracted in full when the
    library extracts each of its members without raising: the path test
    never turns down a member that stays inside the root. *)
Theorem safe_extract_zip_accepts_contained members extract destination
    max_total_bytes d :
  Forall (fun member =>
            is_symlink member = false /\ 0 <= file_size member /\
            PathLib.is_relative_to
              (PathLib.resolve cwd (PathLib.joinpath destination (filename member)))
              (PathLib.resolve cwd destination) = true) members ->
  declared_total members <= max_total_bytes ->
  Forall (fun member => extract member = Extracted) members ->
  safe_extract_zip cwd (Archive members extract) destination max_total_bytes d
  = (inr tt, d ++ List.map (extract_target destination) members).
Proof.
  intros Hall Hsum Hintact.
  rewrite <- (extractall_intact extract members destination Hintact d).
  unfold safe_extract_zip.
  destruct (proj2 (check_members_passes destination max_total_bytes members 0))
    as [t ->]; [|reflexivity].
  split; [|right; lia].
  apply forallb_forall. intros m Hm.
  rewrite Forall_forall in Hall.
  destruct (Hall m (proj2 (list_elem_of_In _ _) Hm)) as (Hlink & Hsize & Hrel).
  unfold member_passes. rewrite Hlink. cbn [negb andb].
  rewrite is_relative_to_startswith by (exact Hrel || reflexivity).
  now apply Z.leb_le.
Qed.

End ArchiveAcceptance.

(** The plain archive, without faults, is extracted in full under the
    default ceiling. *)
Lemma safe_extract_zip_accepts_contained_witness :
  safe_extract_zip [] (Archive plain_archive intact) (PathLib.of_str "/tmp/ws/project")
    (MAX_EXTRACT_BYTES default_config) []
  = (inr tt,
     [] ++ List.map (extract_target (PathLib.of_str "/tmp/ws/project")) plain_archive).
Proof.
  apply (safe_extract_zip_accepts_contained [] plain_archive intact).
  - repeat constructor; vm_compute; congruence.
  - vm_compute. congruence.
  - repeat constructor.
Defined.

(** For every 16-bit mode, given by its file type and the twelve bits
    below it, the mask test reads the file type. *)
Lemma symlink_mask_table :
  all_from (fun ftype =>
    all_from (fun low =>
      Bool.eqb (Z.land (ftype * 4096 + low) S_IFMT =? S_IFLNK) (ftype =? 10))
      0 4096)
    0 16 = true.
Proof. vm_compute. reflexivity. Qed.

(** X3.  [is_symlink] looks at the Unix mode in the upper sixteen bits of
    [external_attr] and at nothing else: a member is taken for a symbolic
    link exactly when the four file-type bits of that mode are [0o12],
    whatever the permission bits and the lower sixteen (DOS) bits are. *)
Theorem is_symlink_reads_file_type name mode dos size csize :
  0 <= mode < 65536 ->
  0 <= dos < 65536 ->
  is_symlink {| filename := name; external_attr := mode * 65536 + dos;
                file_size := size; compress_size := csize |}
  = (mode / 4096 =? 10).
Proof.
  intros Hmode Hdos. unfold is_symlink. cbn [external_attr].
  rewrite Z.shiftr_div_pow2 by lia. change (2 ^ 16) with 65536.
  rewrite Z.div_add_l by lia. rewrite (Z.div_small dos) by lia. rewrite Z.add_0_r.
  apply eqb_prop.
  pose proof (all_from_spec _ _ _ symlink_mask_table (mode / 4096)) as Hrow.
  cbv beta in Hrow.
  assert (Hq : 0 <= mode / 4096 < 16)
    by (split; [apply Z.div_pos|apply Z.div_lt_upper_bound]; lia).
  pose proof (Z.mod_pos_bound mode 4096 ltac:(lia)) as Hr.
  pose proof (all_from_spec _ _ _ (Hrow ltac:(lia)) (mode mod 4096) ltac:(lia)) as Hcell.
  cbv beta in Hcell.
  replace (mode / 4096 * 4096 + mode mod 4096) with mode in Hcell
    by (rewrite (Z.div_mod mode 4096) at 1; lia).
  exact Hcell.
Qed.

(** A link with mode [0o120777] is detected whatever the DOS bits say. *)
Lemma is_symlink_reads_file_type_witness :
  is_symlink {| filename := "link"; external_attr := 0xA1FF * 65536 + 0x20;
                file_size := 8; compress_size := 8 |}
  = (0xA1FF / 4096 =? 10).
Proof. apply is_symlink_reads_file_type; lia. Defined.

(** ** Streaming an upload *)

Lemma bytes_in_cons chunk chunks :
  bytes_in (chunk :: chunks) = Z.of_nat (length chunk) + bytes_in chunks.
Proof. unfold bytes_in. cbn [List.concat]. rewrite List.length_app. lia. Qed.

Lemma bytes_in_nonneg chunks : 0 <= bytes_in chunks.
Proof. unfold bytes_in. lia. Qed.

(** The outcome of streaming from a running size. *)
Lemma stream_upload_to_file_from chunks max_bytes :
  forall size,
    let out := stream_upload_to_file chunks max_bytes size in
    out.2 `prefix_of` until_empty chunks /\
    (out.2 = [] \/ size + bytes_in out.2 <= max_bytes) /\
    (match until_empty chunks with
     | [] => out = (inr tt, [])
     | _ :: _ =>
         if size + bytes_in (until_empty chunks) <=? max_bytes
         then out = (inr tt, until_empty chunks)
         else out.1 = inl (HTTPException 413 "Zip exceeds allowed size") /\
              out.2 <> until_empty chunks
     end).
Proof.
  induction chunks as [|chunk rest IH]; intros size out; subst out.
  - cbn. repeat split; auto.
  - destruct chunk as [|b chunk].
    { cbn. repeat split; auto. }
    cbn [stream_upload_to_file until_empty].
    set (full := b :: chunk) in *.
    assert (Hpos : 0 < Z.of_nat (length full)) by (cbn; lia).
    destruct (Z.ltb_spec max_bytes (size + Z.of_nat (length full))) as [Hover|Hfits].
    + cbn [fst snd]. split; [apply prefix_nil|]. split; [now left|].
      rewrite bytes_in_cons. pose proof (bytes_in_nonneg (until_empty rest)).
      destruct (Z.leb_spec (size + (Z.of_nat (length full) + bytes_in (until_empty rest)))
                  max_bytes); [lia|].
      split; [reflexivity|discriminate].
    + specialize (IH (size + Z.of_nat (length full))). cbv zeta in IH.
      destruct (stream_upload_to_file rest max_bytes (size + Z.of_nat (length full)))
        as [r written] eqn:Hrest.
      cbn [fst snd] in *. destruct IH as (Hprefix & Hbound & Hcase).
      split; [now apply prefix_cons|].
      split.
      { right. rewrite bytes_in_cons.
        destruct Hbound as [->|Hbound]; [change (bytes_in []) with 0|]; lia. }
      rewrite bytes_in_cons.
      destruct (until_empty rest) as [|c stream] eqn:Hstream.
      * injection Hcase as -> ->.
        change (bytes_in []) with 0.
        destruct (Z.leb_spec (size + (Z.of_nat (length full) + 0)) max_bytes);
          [reflexivity|lia].
      * replace (size + (Z.of_nat (length full) + bytes_in (c :: stream)))
          with (size + Z.of_nat (length full) + bytes_in (c :: stream)) by lia.
        destruct (_ <=? _).
        -- now injection Hcase as -> ->.
        -- destruct Hcase as [-> Hne]. split; [reflexivity|congruence].
Qed.

(** X4.  [stream_upload_to_file] writes the chunks of the upload in order
    and stops at the first empty one.  It completes, having written them
    all, exactly when they hold at most [max_bytes] bytes (or there is
    none); otherwise it raises the 413 error, having written a strict
    prefix of them.  What it has written never exceeds [max_bytes]. *)
Theorem stream_upload_to_file_outcome chunks max_bytes :
  let out := stream_upload_to_file chunks max_bytes 0 in
  out.2 `prefix_of` until_empty chunks /\
  (out.2 = [] \/ bytes_in out.2 <= max_bytes) /\
  (match until_empty chunks with
   | [] => out = (inr tt, [])
   | _ :: _ =>
       if bytes_in (until_empty chunks) <=? max_bytes
       then out = (inr tt, until_empty chunks)
       else out.1 = inl (HTTPException 413 "Zip exceeds allowed size") /\
            out.2 <> until_empty chunks
   end).
Proof. exact (stream_upload_to_file_from chunks max_bytes 0). Qed.

(** ** URL validator, further properties *)

Lemma all_chars_ne_contains d s :
  Py.all_chars (fun a => negb (Ascii.eqb a d)) s = true <-> Py.contains d s = false.
Proof.
  induction s as [|a s IH]; simpl; [easy|].
  rewrite andb_true_iff, orb_false_iff, negb_true_iff. tauto.
Qed.

Lemma partition_all_chars p c s :
  Py.all_chars p s = true ->
  Py.all_chars p (Py.partition c s).1.1 = true /\
  Py.all_chars p (Py.partition c s).2 = true.
Proof.
  induction s as [|a s IH]; simpl; [easy|].
  intros [Ha Hs]%andb_prop. destruct (Ascii.eqb a c); simpl; [easy|].
  destruct (IH Hs) as [Hh Ht]. destruct (Py.partition c s) as [[h found] t].
  simpl in *. now rewrite Ha.
Qed.

Lemma partition_fst_lacks c s : Py.contains c (Py.partition c s).1.1 = false.
Proof.
  induction s as [|a s IH]; simpl; [easy|].
  destruct (Ascii.eqb a c) eqn:Ha; simpl; [easy|].
  destruct (Py.partition c s) as [[h found] t]. simpl in *. now rewrite Ha.
Qed.

Lemma rpartition_all_chars p c s :
  Py.all_chars p s = true ->
  Py.all_chars p (Py.rpartition c s).1.1 = true /\
  Py.all_chars p (Py.rpartition c s).2 = true.
Proof.
  induction s as [|a s IH]; simpl; [easy|].
  intros [Ha Hs]%andb_prop. destruct (IH Hs) as [Hh Ht].
  destruct (Py.rpartition c s) as [[h found] t]. simpl in *.
  destruct found; simpl; [now rewrite Ha|].
  destruct (Ascii.eqb a c); simpl; [easy|]. now rewrite Ha.
Qed.

Lemma split_nonempty c s : Py.split c s <> [].
Proof.
  destruct s as [|a s]; simpl; [easy|].
  destruct (Ascii.eqb a c); [easy|]. now destruct (Py.split c s).
Qed.

Lemma split_all_chars p c s x :
  Py.all_chars p s = true -> In x (Py.split c s) -> Py.all_chars p x = true.
Proof.
  revert x. induction s as [|a s IH]; simpl; intros x.
  - now intros _ [<-|[]].
  - intros [Ha Hs]%andb_prop. destruct (Ascii.eqb a c).
    + intros [<-|Hx]; [easy|]. now apply IH.
    + destruct (Py.split c s) as [|y ys]; simpl.
      * intros [<-|[]]. simpl. now rewrite Ha.
      * intros [<-|Hx]; [|apply IH; simpl; auto].
        simpl. rewrite Ha. apply IH; simpl; auto.
Qed.

Lemma split_lacks c s x : In x (Py.split c s) -> Py.contains c x = false.
Proof.
  revert x. induction s as [|a s IH]; simpl; intros x.
  - now intros [<-|[]].
  - destruct (Ascii.eqb a c) eqn:Ha.
    + intros [<-|Hx]; [easy|]. now apply IH.
    + destruct (Py.split c s) as [|y ys]; simpl.
      * intros [<-|[]]. simpl. now rewrite Ha.
      * intros [<-|Hx]; [|apply IH; simpl; auto].
        simpl. rewrite Ha. apply IH; simpl; auto.
Qed.

Lemma lower_char_idem a : Py.lower_char (Py.lower_char a) = Py.lower_char a.
Proof. destruct a as [[] [] [] [] [] [] [] []]; reflexivity. Qed.

Lemma lower_idem s : Py.lower (Py.lower s) = Py.lower s.
Proof. induction s as [|a s IH]; simpl; [easy|]. now rewrite lower_char_idem, IH. Qed.

Lemma lower_char_colon a : Ascii.eqb (Py.lower_char a) ":" = Ascii.eqb a ":".
Proof. destruct a as [[] [] [] [] [] [] [] []]; reflexivity. Qed.

Lemma lower_lacks_colon s : Py.contains ":" (Py.lower s) = Py.contains ":" s.
Proof. induction s as [|a s IH]; simpl; [easy|]. now rewrite lower_char_colon, IH. Qed.

(** The host that the validator reads off a netloc is in lower case and
    holds no colon. *)
Lemma host_of_plain nl :
  Py.contains ":" (host_of nl) = false /\ Py.lower (host_of nl) = host_of nl.
Proof.
  unfold host_of. split; [|apply lower_idem].
  rewrite lower_lacks_colon. apply (split_lacks ":" nl).
  pose proof (split_nonempty ":" nl). destruct (Py.split ":" nl); [easy|now left].
Qed.

Section ParsedPath.

Variable bracketed_netloc_ok : string -> bool.

(** [urlsplit] raises nothing but its own [ValueError], and the path it
    returns holds neither [?] nor [#]. *)
Lemma urlsplit_outcome raw :
  match Urllib.urlsplit bracketed_netloc_ok raw with
  | inl e => e = ValueError "Invalid IPv6 URL"
  | inr r => Py.contains "?" (Urllib.path r) = false /\
             Py.contains "#" (Urllib.path r) = false
  end.
Proof.
  unfold Urllib.urlsplit.
  destruct (Urllib.split_scheme _) as [sch url1].
  match goal with
  | |- context [mbind _ ?m] => destruct m as [e|[nl url2]] eqn:Hnet
  end.
  - cbn [mbind result_bind].
    destruct url1 as [|c1 url1]; [discriminate|].
    destruct (Ascii.eqb_spec c1 "/") as [->|Hc1].
    2:{ exfalso. revert Hnet. clear - Hc1.
        destruct c1 as [[] [] [] [] [] [] [] []]; try discriminate; congruence. }
    destruct url1 as [|c2 rest]; [discriminate|].
    destruct (Ascii.eqb_spec c2 "/") as [->|Hc2].
    2:{ exfalso. revert Hnet. clear - Hc2.
        destruct c2 as [[] [] [] [] [] [] [] []]; try discriminate; congruence. }
    destruct (Urllib.splitnetloc rest) as [nl url2].
    destruct (_ || _); [now injection Hnet as <-|].
    destruct (_ && _); [now injection Hnet as <-|discriminate].
  - cbn [mbind result_bind]. clear Hnet.
    assert (Hfrag : exists u f,
      (if Py.contains "#" url2
       then let '(u, _, f) := Py.partition "#" url2 in (u, f)
       else (url2, EmptyString)) = (u, f) /\ Py.contains "#" u = false).
    { destruct (Py.contains "#" url2) eqn:Hc; [|eauto].
      pose proof (partition_fst_lacks "#" url2).
      destruct (Py.partition "#" url2) as [[u b] f]. eauto. }
    destruct Hfrag as (u & f & -> & Hu).
    assert (Hquery : exists v q,
      (if Py.contains "?" u
       then let '(v, _, q) := Py.partition "?" u in (v, q)
       else (u, EmptyString)) = (v, q) /\
      Py.contains "?" v = false /\ Py.contains "#" v = false).
    { destruct (Py.contains "?" u) eqn:Hc; [|eauto].
      pose proof (partition_fst_lacks "?" u) as Hv.
      apply all_chars_ne_contains in Hu.
      apply (partition_all_chars _ "?") in Hu as [Hu _].
      apply all_chars_ne_contains in Hu.
      destruct (Py.partition "?" u) as [[v b] q]. eauto. }
    destruct Hquery as (v & q & -> & Hv1 & Hv2).
    cbn. auto.
Qed.

Lemma splitparams_all_chars p url :
  p "/"%char = true ->
  Py.all_chars p url = true -> Py.all_chars p (Urllib.splitparams url).1 = true.
Proof.
  intros Hslash Hurl. unfold Urllib.splitparams.
  destruct (Py.contains "/" url).
  - destruct (rpartition_all_chars p "/" url Hurl) as [Hdir Hlast].
    destruct (Py.rpartition "/" url) as [[dir b] last]. cbn [fst snd] in *.
    destruct (partition_all_chars p ";" last Hlast) as [Hname _].
    destruct (Py.partition ";" last) as [[name found] ps]. cbn [fst snd] in *.
    destruct found; [|exact Hurl]. cbn [fst].
    rewrite !all_chars_app, Hdir, Hname. cbn. now rewrite Hslash.
  - destruct (partition_all_chars p ";" url Hurl) as [Hname _].
    now destruct (Py.partition ";" url) as [[name found] ps].
Qed.

(** The same of [urlparse]. *)
Lemma urlparse_outcome raw :
  match Urllib.urlparse bracketed_netloc_ok raw with
  | inl e => e = ValueError "Invalid IPv6 URL"
  | inr r => Py.contains "?" (Urllib.path r) = false /\
             Py.contains "#" (Urllib.path r) = false
  end.
Proof.
  unfold Urllib.urlparse. pose proof (urlsplit_outcome raw) as Hsplit.
  destruct (Urllib.urlsplit bracketed_netloc_ok raw) as [e|r]; [exact Hsplit|].
  cbn [mbind result_bind]. destruct Hsplit as [Hq Hf].
  destruct (_ && _).
  - apply all_chars_ne_contains in Hq, Hf.
    apply splitparams_all_chars in Hq, Hf; try reflexivity.
    apply all_chars_ne_contains in Hq, Hf.
    destruct (Urllib.splitparams (Urllib.path r)) as [url ps]. cbn in *. auto.
  - cbn. auto.
Qed.

End ParsedPath.

Lemma strip_git_all_chars p repo :
  Py.all_chars p repo = true -> Py.all_chars p (strip_git repo) = true.
Proof.
  intros H. unfold strip_git, Py.drop_last.
  destruct (Py.endswith ".git" repo); [|exact H]. now apply all_chars_substring.
Qed.

Section ValidatorOutcome.

Variable cfg : Config.
Variable bracketed_netloc_ok : string -> bool.

(** What an accepted URL is turned into. *)
Lemma normalize_repo_url_shape raw url :
  normalize_repo_url cfg bracketed_netloc_ok raw = inr url ->
  exists host owner repo,
    url = "https://" +:+ host +:+ "/" +:+ owner +:+ "/" +:+ repo +:+ ".git" /\
    host ∈ ALLOWED_GIT_HOSTS cfg /\
    Py.contains ":" host = false /\ Py.lower host = host /\
    plain_name owner /\ plain_name repo.
Proof.
  unfold normalize_repo_url.
  destruct (_ <? _)%nat; [discriminate|].
  pose proof (urlparse_outcome bracketed_netloc_ok raw) as Hparse.
  destruct (Urllib.urlparse bracketed_netloc_ok raw) as [e|p]; [discriminate|].
  cbn [mbind result_bind]. destruct Hparse as [Hq Hf].
  destruct (negb (_ || _)); [discriminate|].
  destruct (_ || _); [discriminate|].
  destruct (bool_decide _) eqn:Hhost; cbn [negb]; [|discriminate].
  apply bool_decide_eq_true in Hhost.
  destruct (path_parts (Urllib.path p)) as [|owner [|repo rest]] eqn:Hparts;
    try discriminate.
  destruct (Py.truthy owner) eqn:Howner; cbn [negb orb]; [|discriminate].
  destruct (Py.truthy (strip_git repo)) eqn:Hrepo; cbn [negb]; [|discriminate].
  intros [= <-].
  exists (host_of (Urllib.netloc p)), owner, (strip_git repo).
  split; [reflexivity|]. split; [exact Hhost|].
  destruct (host_of_plain (Urllib.netloc p)) as [Hcolon Hlower].
  split; [exact Hcolon|]. split; [exact Hlower|].
  assert (Hin : forall x, In x [owner; repo] -> In x (Py.split "/" (Urllib.path p))).
  { intros x Hx. assert (Hx' : In x (path_parts (Urllib.path p))).
    { rewrite Hparts. simpl in *. tauto. }
    unfold path_parts in Hx'. now apply filter_In in Hx' as [Hx' _]. }
  assert (Hplain : forall x, In x [owner; repo] ->
            Py.contains "/" x = false /\ Py.contains "?" x = false /\
            Py.contains "#" x = false).
  { intros x Hx%Hin. split; [now apply split_lacks in Hx|].
    split; apply all_chars_ne_contains;
      eapply split_all_chars; try exact Hx; now apply all_chars_ne_contains. }
  split.
  - split; [now apply truthy_true|]. apply Hplain. now left.
  - split; [now apply truthy_true|].
    destruct (Hplain repo) as (H1 & H2 & H3); [right; now left|].
    repeat split; apply all_chars_ne_contains, strip_git_all_chars;
      now apply all_chars_ne_contains.
Qed.

(** What a refused URL raises. *)
Lemma normalize_repo_url_error raw e :
  normalize_repo_url cfg bracketed_netloc_ok raw = inl e ->
  exists msg,
    e = ValueError msg /\
    (In msg validator_messages \/
     Urllib.urlparse bracketed_netloc_ok raw = inl (ValueError msg)).
Proof.
  unfold normalize_repo_url, validator_messages, raise.
  destruct (_ <? _)%nat;
    [intros [= <-]; eexists; split; [reflexivity|left; simpl; tauto]|].
  pose proof (urlparse_outcome bracketed_netloc_ok raw) as Hparse.
  destruct (Urllib.urlparse bracketed_netloc_ok raw) as [e'|p].
  { cbn [mbind result_bind]. intros [= <-]. subst e'.
    eexists; split; [reflexivity|now right]. }
  cbn [mbind result_bind].
  destruct (negb (_ || _));
    [intros [= <-]; eexists; split; [reflexivity|left; simpl; tauto]|].
  destruct (_ || _);
    [intros [= <-]; eexists; split; [reflexivity|left; simpl; tauto]|].
  destruct (negb (bool_decide _));
    [intros [= <-]; eexists; split; [reflexivity|left; simpl; tauto]|].
  destruct (path_parts (Urllib.path p)) as [|owner [|repo rest]];
    try (intros [= <-]; eexists; split; [reflexivity|left; simpl; tauto]).
  destruct (_ || _); [|discriminate].
  intros [= <-]; eexists; split; [reflexivity|left; simpl; tauto].
Qed.

(** X5.  Whatever URL [normalize_repo_url] returns has the form
    [https://{host}/{owner}/{repo}.git] with a host of the allow-list, in
    lower case and without a port, and an owner and a repository name that
    are not empty and hold none of [/], [?] and [#]. *)
Theorem normalize_repo_url_result_shape raw url :
  normalize_repo_url cfg bracketed_netloc_ok raw = inr url ->
  exists host owner repo,
    url = "https://" +:+ host +:+ "/" +:+ owner +:+ "/" +:+ repo +:+ ".git" /\
    host ∈ ALLOWED_GIT_HOSTS cfg /\
    Py.contains ":" host = false /\ Py.lower host = host /\
    plain_name owner /\ plain_name repo.
Proof. apply normalize_repo_url_shape. Qed.

(** X6.  Whatever [normalize_repo_url] raises is a [ValueError]: one with
    one of the five messages of the function itself, or the one that the
    URL parser raised. *)
Theorem normalize_repo_url_raises_ValueError raw e :
  normalize_repo_url cfg bracketed_netloc_ok raw = inl e ->
  exists msg,
    e = ValueError msg /\
    (In msg validator_messages \/
     Urllib.urlparse bracketed_netloc_ok raw = inl (ValueError msg)).
Proof. apply normalize_repo_url_error. Qed.

End ValidatorOutcome.

Lemma normalize_repo_url_result_shape_witness :
  exists host owner repo,
    "https://github.com/Owner/Repo.git"
    = "https://" +:+ host +:+ "/" +:+ owner +:+ "/" +:+ repo +:+ ".git" /\
    host ∈ ALLOWED_GIT_HOSTS default_config /\
    Py.contains ":" host = false /\ Py.lower host = host /\
    plain_name owner /\ plain_name repo.
Proof.
  apply (normalize_repo_url_result_shape default_config any_bracketed_netloc
           "HTTP://GitHub.com:443/Owner/Repo.git?").
  vm_compute. reflexivity.
Defined.

Lemma normalize_repo_url_raises_ValueError_witness :
  exists msg,
    ValueError "Only http/https repo URLs are allowed" = ValueError msg /\
    (In msg validator_messages \/
     Urllib.urlparse any_bracketed_netloc "ftp://github.com/owner/repo"
     = inl (ValueError msg)).
Proof.
  apply (normalize_repo_url_raises_ValueError default_config any_bracketed_netloc
           "ftp://github.com/owner/repo").
  vm_compute. reflexivity.
Defined.

(** *** The scheme *)

Lemma all_chars_lower p s :
  Py.all_chars p (Py.lower s) = Py.all_chars (fun a => p (Py.lower_char a)) s.
Proof. induction s as [|a s IH]; simpl; [easy|]. now rewrite IH. Qed.

Lemma scheme_letter a :
  Py.is_lower (Py.lower_char a) = true ->
  Py.is_alpha a = true /\ Urllib.scheme_char a = true /\
  Urllib.c0_control_or_space a = false /\ Urllib.unsafe_url_byte a = false /\
  Ascii.eqb a ":" = false.
Proof. each_char a. Qed.

Lemma remove_chars_app p s t :
  Py.remove_chars p (s +:+ t) = Py.remove_chars p s +:+ Py.remove_chars p t.
Proof.
  induction s as [|a s IH]; simpl; [easy|].
  rewrite IH. now destruct (p a).
Qed.

Lemma partition_app c s t :
  Py.contains c s = false ->
  Py.partition c (s +:+ String c t) = (s, true, t).
Proof.
  induction s as [|a s IH]; simpl.
  - now rewrite Ascii.eqb_refl.
  - intros [Ha Hs]%orb_false_elim. now rewrite Ha, (IH Hs).
Qed.

Lemma is_web_scheme_letters s :
  is_web_scheme s = true ->
  s <> EmptyString /\
  Py.all_chars (fun a => Py.is_lower (Py.lower_char a)) s = true.
Proof.
  unfold is_web_scheme. intros H. split.
  - intros ->. discriminate H.
  - rewrite <- all_chars_lower.
    apply orb_prop in H as [->%String.eqb_eq | ->%String.eqb_eq]; reflexivity.
Qed.

(** How [urlsplit] starts on a URL with a web scheme. *)
Lemma split_scheme_web s rest :
  is_web_scheme s = true ->
  Urllib.split_scheme
    (Py.remove_chars Urllib.unsafe_url_byte
       (Py.lstrip Urllib.c0_control_or_space (s +:+ ":" +:+ rest)))
  = (Py.lower s, Py.remove_chars Urllib.unsafe_url_byte rest).
Proof.
  intros [Hne Hletters]%is_web_scheme_letters.
  assert (Hstrip : Py.lstrip Urllib.c0_control_or_space (s +:+ ":" +:+ rest)
                   = s +:+ ":" +:+ rest).
  { destruct s as [|a s]; [easy|]. rewrite append_cons. simpl in *.
    apply andb_prop in Hletters as [Ha _].
    apply scheme_letter in Ha as (_ & _ & -> & _). reflexivity. }
  rewrite Hstrip, remove_chars_app.
  rewrite (remove_chars_id _ s).
  2:{ eapply all_chars_impl; [|exact Hletters]. intros a Ha.
      apply scheme_letter in Ha as (_ & _ & _ & -> & _). reflexivity. }
  change (Py.remove_chars Urllib.unsafe_url_byte (":" +:+ rest))
    with (String ":" (Py.remove_chars Urllib.unsafe_url_byte rest)).
  unfold Urllib.split_scheme.
  rewrite partition_app.
  2:{ apply all_chars_ne_contains.
      eapply all_chars_impl; [|exact Hletters]. intros a Ha.
      apply scheme_letter in Ha as (_ & _ & _ & _ & ->). reflexivity. }
  assert (Hfirst : Urllib.first_is_alpha s = true).
  { destruct s as [|a s]; [easy|]. simpl in *.
    apply andb_prop in Hletters as [Ha _].
    now apply scheme_letter in Ha as (-> & _). }
  assert (Hchars : Py.all_chars Urllib.scheme_char s = true).
  { eapply all_chars_impl; [|exact Hletters]. intros a Ha.
    now apply scheme_letter in Ha as (_ & -> & _). }
  now rewrite Hfirst, Hchars.
Qed.

Section SchemeFacts.

Variable cfg : Config.
Variable bracketed_netloc_ok : string -> bool.

(** Two web schemes in front of the same text are parsed alike. *)
Lemma urlparse_web_scheme s1 s2 rest :
  is_web_scheme s1 = true -> is_web_scheme s2 = true ->
  match Urllib.urlparse bracketed_netloc_ok (s1 +:+ ":" +:+ rest),
        Urllib.urlparse bracketed_netloc_ok (s2 +:+ ":" +:+ rest) with
  | inl e1, inl e2 => e1 = e2
  | inr p1, inr p2 =>
      Urllib.scheme p1 = Py.lower s1 /\ Urllib.scheme p2 = Py.lower s2 /\
      Urllib.netloc p1 = Urllib.netloc p2 /\ Urllib.path p1 = Urllib.path p2 /\
      Urllib.query p1 = Urllib.query p2 /\ Urllib.fragment p1 = Urllib.fragment p2
  | _, _ => False
  end.
Proof.
  intros H1 H2.
  assert (Hparams : forall s, is_web_scheme s = true ->
            bool_decide (Py.lower s ∈ Urllib.uses_params) = true).
  { intros s [->%String.eqb_eq | ->%String.eqb_eq]%orb_prop; reflexivity. }
  unfold Urllib.urlparse, Urllib.urlsplit.
  rewrite (split_scheme_web s1 rest H1), (split_scheme_web s2 rest H2).
  cbv iota beta.
  match goal with
  | |- context [@mbind _ _ (string * string)%type _ _ ?m] =>
      destruct m as [e|[nl url]]
  end; cbn [mbind result_bind]; [reflexivity|].
  destruct (if Py.contains "#" url then _ else _) as [u f].
  destruct (if Py.contains "?" u then _ else _) as [v q].
  cbn [mbind result_bind mret result_ret Urllib.scheme Urllib.path Urllib.netloc
       Urllib.query Urllib.fragment].
  rewrite (Hparams s1 H1), (Hparams s2 H2). cbn [andb].
  destruct (if Py.contains ";" v then _ else _) as [w ps].
  cbn. auto 10.
Qed.

(** X7.  The scheme is read without regard to case, and [http] is treated
    as [https]: two URLs that differ only in a scheme that is [http] or
    [https] in any case, both within the length limit, have the same
    outcome. *)
Theorem normalize_repo_url_scheme_insensitive s1 s2 rest :
  is_web_scheme s1 = true -> is_web_scheme s2 = true ->
  (String.length (s1 +:+ ":" +:+ rest) <= 2048)%nat ->
  (String.length (s2 +:+ ":" +:+ rest) <= 2048)%nat ->
  normalize_repo_url cfg bracketed_netloc_ok (s1 +:+ ":" +:+ rest)
  = normalize_repo_url cfg bracketed_netloc_ok (s2 +:+ ":" +:+ rest).
Proof.
  intros H1 H2 Hlen1 Hlen2. unfold normalize_repo_url.
  destruct (Nat.ltb_spec 2048 (String.length (s1 +:+ ":" +:+ rest))); [lia|].
  destruct (Nat.ltb_spec 2048 (String.length (s2 +:+ ":" +:+ rest))); [lia|].
  pose proof (urlparse_web_scheme s1 s2 rest H1 H2) as Hparse.
  destruct (Urllib.urlparse bracketed_netloc_ok (s1 +:+ ":" +:+ rest)) as [e1|p1],
           (Urllib.urlparse bracketed_netloc_ok (s2 +:+ ":" +:+ rest)) as [e2|p2];
    try easy; [now subst|].
  destruct Hparse as (Hs1 & Hs2 & Hnl & Hpath & Hq & Hf).
  cbn [mbind result_bind].
  unfold Urllib.username, Urllib.password.
  rewrite Hs1, Hs2, Hnl, Hpath, Hq, Hf.
  unfold is_web_scheme in H1, H2. rewrite H1, H2. reflexivity.
Qed.

End SchemeFacts.

Lemma normalize_repo_url_scheme_insensitive_witness :
  normalize_repo_url default_config any_bracketed_netloc
    ("HTTP" +:+ ":" +:+ "//github.com/owner/repo")
  = normalize_repo_url default_config any_bracketed_netloc
      ("https" +:+ ":" +:+ "//github.com/owner/repo").
Proof.
  apply normalize_repo_url_scheme_insensitive;
    [reflexivity|reflexivity|apply Nat.leb_le; reflexivity..].
Defined.

(** *** The netloc *)

Lemma netloc_char_plain c :
  netloc_char c = true ->
  Py.contains c "/?#[]@" = false /\ Urllib.unsafe_url_byte c = false.
Proof. each_char c. Qed.

Lemma netloc_char_lacks nl c :
  Py.all_chars netloc_char nl = true -> Py.contains c "/?#[]@" = true ->
  Py.contains c nl = false.
Proof.
  intros Hnl Hc. apply (all_chars_not_contains netloc_char); [exact Hnl|].
  destruct (netloc_char c) eqn:Hn; [|easy].
  apply netloc_char_plain in Hn as [Hn _]. congruence.
Qed.

Section NetlocFacts.

Variable cfg : Config.
Variable bracketed_netloc_ok : string -> bool.
Variables nl owner repo : string.
Hypothesis Hnl : Py.all_chars netloc_char nl = true.
Hypothesis Howner : is_segment owner = true.
Hypothesis Hrepo : is_segment repo = true.

(** How [urlparse] reads [https://{netloc}/{owner}/{repo}]. *)
Lemma urlparse_netloc_form :
  Urllib.urlparse bracketed_netloc_ok
    ("https://" +:+ nl +:+ "/" +:+ owner +:+ "/" +:+ repo)
  = inr {| Urllib.scheme := "https"; Urllib.netloc := nl;
           Urllib.path := "/" +:+ owner +:+ "/" +:+ repo;
           Urllib.params := EmptyString; Urllib.query := EmptyString;
           Urllib.fragment := EmptyString |}.
Proof using Hnl Howner Hrepo.
  pose proof Howner as [_ Howner']%andb_prop.
  pose proof Hrepo as [_ Hrepo']%andb_prop.
  set (tail := "/" +:+ owner +:+ "/" +:+ repo).
  assert (Htail : forall c, Py.contains c "/?#;" = true -> c <> "/"%char ->
                            Py.contains c tail = false).
  { intros c Hc Hne. unfold tail. rewrite !contains_app.
    rewrite (is_segment_lacks owner c Howner Hc), (is_segment_lacks repo c Hrepo Hc).
    change (Py.contains c "/") with (Ascii.eqb "/" c || false).
    destruct (Ascii.eqb_spec "/" c); [congruence|reflexivity]. }
  unfold Urllib.urlparse, Urllib.urlsplit.
  change (Py.lstrip Urllib.c0_control_or_space ("https://" +:+ nl +:+ tail))
    with ("https://" +:+ nl +:+ tail).
  rewrite remove_chars_id.
  2:{ unfold tail. rewrite !all_chars_app. repeat (apply andb_true_intro; split);
        try reflexivity.
      - eapply all_chars_impl; [|exact Hnl]. intros c Hc.
        apply netloc_char_plain in Hc as (_ & ->). reflexivity.
      - eapply all_chars_impl; [|exact Howner']. intros c Hc.
        apply segment_char_plain in Hc as (_ & ->). reflexivity.
      - eapply all_chars_impl; [|exact Hrepo']. intros c Hc.
        apply segment_char_plain in Hc as (_ & ->). reflexivity. }
  change (Urllib.split_scheme ("https://" +:+ nl +:+ tail))
    with ("https", "//" +:+ nl +:+ tail).
  change ("//" +:+ nl +:+ tail) with (String "/" (String "/" (nl +:+ tail))).
  cbv iota beta.
  unfold Urllib.splitnetloc, tail.
  change ("/" +:+ owner +:+ "/" +:+ repo) with (String "/" (owner +:+ "/" +:+ repo)).
  rewrite span_stop;
    [|eapply all_chars_impl; [|exact Hnl]|reflexivity].
  2:{ intros c Hc. destruct (Py.contains c "/?#") eqn:Hd; [|reflexivity].
      exfalso. revert Hc Hd. clear. each_char c. }
  change (String "/" (owner +:+ "/" +:+ repo)) with tail.
  rewrite (netloc_char_lacks nl "[" Hnl eq_refl),
          (netloc_char_lacks nl "]" Hnl eq_refl).
  cbn [andb orb negb mbind result_bind mret result_ret].
  rewrite (Htail "#"%char eq_refl ltac:(discriminate)),
          (Htail "?"%char eq_refl ltac:(discriminate)).
  cbn [mbind result_bind mret result_ret
       Urllib.scheme Urllib.netloc Urllib.path Urllib.query Urllib.fragment].
  rewrite (Htail ";"%char eq_refl ltac:(discriminate)), andb_false_r.
  reflexivity.
Qed.

Hypothesis Hallowed : host_of nl ∈ ALLOWED_GIT_HOSTS cfg.
Hypothesis Hgit : repo <> ".git".

Lemma normalize_repo_url_netloc_form :
  (String.length ("https://" +:+ nl +:+ "/" +:+ owner +:+ "/" +:+ repo) <= 2048)%nat ->
  normalize_repo_url cfg bracketed_netloc_ok
    ("https://" +:+ nl +:+ "/" +:+ owner +:+ "/" +:+ repo)
  = inr (canonical (host_of nl) owner repo).
Proof using Hnl Howner Hrepo Hallowed Hgit.
  intros Hlen.
  pose proof Howner as [Howner1 _]%andb_prop.
  pose proof Hrepo as [Hrepo1 _]%andb_prop.
  apply (normalize_repo_url_accepts cfg bracketed_netloc_ok _
           {| Urllib.scheme := "https"; Urllib.netloc := nl;
              Urllib.path := "/" +:+ owner +:+ "/" +:+ repo;
              Urllib.params := EmptyString; Urllib.query := EmptyString;
              Urllib.fragment := EmptyString |} owner repo []).
  - exact Hlen.
  - exact urlparse_netloc_form.
  - reflexivity.
  - unfold carries_extras, Urllib.username, Urllib.password, Urllib.userinfo.
    cbn [Urllib.netloc Urllib.query Urllib.fragment].
    rewrite rpartition_absent by exact (netloc_char_lacks nl "@" Hnl eq_refl).
    reflexivity.
  - unfold host_allowed. cbn [Urllib.netloc].
    now apply bool_decide_eq_true.
  - unfold path_parts. cbn [Urllib.path].
    change ("/" +:+ owner +:+ "/" +:+ repo)
      with (EmptyString +:+ String "/" (owner +:+ String "/" repo)).
    rewrite split_app by reflexivity.
    rewrite split_app by exact (is_segment_lacks owner "/" Howner eq_refl).
    rewrite split_absent by exact (is_segment_lacks repo "/" Hrepo eq_refl).
    cbn [List.filter]. rewrite Howner1, Hrepo1. reflexivity.
  - exact Hgit.
Qed.

End NetlocFacts.

(** X8.  The letter case of the host and everything from the first colon
    of the netloc on (the port) play no part: a URL
    [https://{host}:{port}/{owner}/{repo}] whose host in lower case is in
    the allow-list is accepted and normalized to the URL without the port,
    with the host in lower case. *)
Theorem normalize_repo_url_drops_port cfg bracketed_netloc_ok host port owner repo :
  Py.all_chars netloc_char host = true -> Py.contains ":" host = false ->
  Py.all_chars netloc_char port = true ->
  is_segment owner = true -> is_segment repo = true -> repo <> ".git" ->
  Py.lower host ∈ ALLOWED_GIT_HOSTS cfg ->
  (String.length ("https://" +:+ (host +:+ ":" +:+ port) +:+ "/" +:+ owner +:+ "/" +:+ repo)
   <= 2048)%nat ->
  normalize_repo_url cfg bracketed_netloc_ok
    ("https://" +:+ (host +:+ ":" +:+ port) +:+ "/" +:+ owner +:+ "/" +:+ repo)
  = inr ("https://" +:+ Py.lower host +:+ "/" +:+ owner +:+ "/" +:+ strip_git repo
         +:+ ".git").
Proof.
  intros Hhost Hcolon Hport Howner Hrepo Hgit Hallowed Hlen.
  assert (Hhost_of : host_of (host +:+ ":" +:+ port) = Py.lower host).
  { unfold host_of. change (":" +:+ port) with (String ":" port).
    now rewrite split_app. }
  fold (canonical (Py.lower host) owner repo). rewrite <- Hhost_of.
  apply normalize_repo_url_netloc_form; try assumption.
  - rewrite !all_chars_app, Hhost, Hport. reflexivity.
  - now rewrite Hhost_of.
Qed.

Lemma normalize_repo_url_drops_port_witness :
  normalize_repo_url default_config any_bracketed_netloc
    ("https://" +:+ ("GitHub.COM" +:+ ":" +:+ "8443") +:+ "/" +:+ "owner" +:+ "/" +:+ "repo")
  = inr ("https://" +:+ Py.lower "GitHub.COM" +:+ "/" +:+ "owner" +:+ "/"
         +:+ strip_git "repo" +:+ ".git").
Proof.
  apply normalize_repo_url_drops_port; try reflexivity.
  - discriminate.
  - apply Nat.leb_le. reflexivity.
Defined.

(** ** Binary test, further properties *)

(** X9.  [is_binary_file] with the default sample size answers [True] for
    a file that cannot be opened and otherwise decides on the first 1024
    bytes: [True] exactly when they hold a null byte or when, in exact
    arithmetic, more than three in ten of them are outside the
    printable/whitespace set.  The float division and the comparison with
    [0.3] introduce no rounding error on a sample of that size. *)
Theorem is_binary_file_threshold data readable :
  is_binary_file data readable 1024
  = inr (negb readable
         || existsb (fun b => (Byte.to_N b =? 0)%N) (take 1024 data)
         || (3 * Z.of_nat (length (take 1024 data))
             <? 10 * non_text_count (take 1024 data))).
Proof.
  destruct readable; [|reflexivity].
  rewrite is_binary_file_exact. reflexivity.
Qed.

Lemma non_text_count_all sample :
  Forall (fun b => text_chars (Byte.to_N b) = false) sample ->
  non_text_count sample = Z.of_nat (length sample).
Proof.
  unfold non_text_count. induction 1 as [|b l Hb _ IH]; simpl; [easy|].
  rewrite <- text_chars_in_set, Hb. simpl. lia.
Qed.

Lemma non_text_count_none sample :
  Forall (fun b => text_chars (Byte.to_N b) = true) sample ->
  non_text_count sample = 0.
Proof.
  unfold non_text_count. induction 1 as [|b l Hb _ IH]; simpl; [easy|].
  now rewrite <- text_chars_in_set, Hb.
Qed.

(** X10.  A readable file whose first 1024 bytes are all printable ASCII,
    tabs, newlines or carriage returns is text, whatever follows them. *)
Theorem is_binary_file_text_sample data :
  Forall (fun b => text_chars (Byte.to_N b) = true) (take 1024 data) ->
  is_binary_file data true 1024 = inr false.
Proof.
  intros Hall. rewrite is_binary_file_exact. unfold sample_is_binary.
  rewrite (non_text_count_none _ Hall).
  replace (existsb _ _) with false.
  - f_equal. apply Z.ltb_ge. lia.
  - symmetry. apply not_true_is_false. intros (b & Hin & Hb)%existsb_exists.
    rewrite List.Forall_forall in Hall. specialize (Hall b Hin).
    apply N.eqb_eq in Hb. rewrite Hb in Hall. discriminate Hall.
Qed.

Lemma is_binary_file_text_sample_witness :
  is_binary_file (list_byte_of_string "plain text") true 1024 = inr false.
Proof.
  apply is_binary_file_text_sample. vm_compute. repeat constructor.
Defined.

(** X11.  A non-empty readable file with no printable ASCII, tab, newline
    or carriage return among its first 1024 bytes is binary: UTF-8 text
    in a script without ASCII letters, for one. *)
Theorem is_binary_file_no_text_bytes data :
  data <> [] ->
  Forall (fun b => text_chars (Byte.to_N b) = false) (take 1024 data) ->
  is_binary_file data true 1024 = inr true.
Proof.
  intros Hne Hall. rewrite is_binary_file_exact. unfold sample_is_binary.
  rewrite (non_text_count_all _ Hall).
  f_equal. apply orb_true_iff. right. apply Z.ltb_lt.
  destruct data as [|b data]; [easy|]. cbn [take length]. lia.
Qed.

Lemma is_binary_file_no_text_bytes_witness :
  is_binary_file cyrillic_sample true 1024 = inr true.
Proof.
  apply is_binary_file_no_text_bytes; [discriminate|].
  vm_compute. repeat constructor.
Defined.

(** ** Tree collector, further properties *)

Section CollectorInvariants.

Variable cfg : Config.

(** The loop gathers, in the order of the listing, what its body appends
    for each entry. *)
Lemma for_each_visit_concat rel l :
  forall acc r,
    for_each (visit cfg rel) acc l = inr r ->
    exists cs,
      Forall2 (fun e c => visit cfg rel ([], []) e = inr c) l cs /\
      r = (acc.1 ++ List.concat (List.map fst cs),
           acc.2 ++ List.concat (List.map snd cs)).
Proof.
  induction l as [|e l IH]; intros acc r; simpl.
  - intros [= <-]. exists []. split; [constructor|].
    simpl. rewrite !app_nil_r. now destruct acc.
  - rewrite visit_acc.
    destruct (visit cfg rel ([], []) e) as [err|c] eqn:He; simpl; [easy|].
    intros (cs & Hcs & ->)%IH. exists (c :: cs). split; [now constructor|].
    simpl. now rewrite !app_assoc.
Qed.

(** A property of what the walk gathers that holds of nothing, of one
    file, of a directory whenever it holds of what the walk gathers below
    it, and of two gatherings put one after the other, holds of every
    outcome of the walk. *)
Lemma recursively_collect_invariant (I : collected -> Prop) :
  I ([], []) ->
  (forall a b, I a -> I b -> I (a.1 ++ b.1, a.2 ++ b.2)) ->
  (forall name path data binary,
     I ([FileNode name path], [file_record cfg path data binary])) ->
  (forall name path sub rel children,
     recursively_collect cfg sub rel = inr children -> I children ->
     I ([DirNode name path children.1], children.2)) ->
  forall root rel r, recursively_collect cfg root rel = inr r -> I r.
Proof.
  intros Hnil Happ Hfile Hdir.
  induction root as [data readable|entries IH| |] using node_ind';
    intros rel r; try discriminate.
  rewrite recursively_collect_listing.
  intros (cs & Hcs & ->)%for_each_visit_concat. cbn [fst snd app].
  assert (Hall : Forall I cs).
  { apply Forall2_Forall_r with (1 := Hcs). apply Forall_forall.
    intros e [[name n] [<- Hin]]%list_elem_of_In%in_map_iff c Hc.
    cbn [fst snd] in Hc. apply sorted_In in Hin.
    apply visit_cases in Hc as [->|[_ [(data & readable & binary & -> & ->)
                                      |(sub & children & -> & Hsub & ->)]]].
    - exact Hnil.
    - apply Hfile.
    - apply Hdir with (1 := Hsub).
      rewrite Forall_forall in IH.
      exact (IH _ (proj2 (list_elem_of_In _ _) Hin) _ _ Hsub). }
  clear Hcs. induction Hall as [|c cs Hc _ IHcs]; [exact Hnil|].
  exact (Happ c _ Hc IHcs).
Qed.

Lemma rec_path_file_record path data binary :
  rec_path (file_record cfg path data binary) = path.
Proof. unfold file_record. destruct binary; [easy|]. now destruct (_ <? _). Qed.

Lemma file_record_consistent path data binary :
  record_consistent cfg (file_record cfg path data binary).
Proof.
  unfold file_record, record_consistent.
  destruct binary; cbn; [auto with lia|].
  destruct (Z.ltb_spec (MAX_FILE_BYTES cfg) (Z.of_nat (length data))); cbn.
  - repeat split; auto with lia.
  - repeat split; auto with lia.
Qed.

(** The top-level nodes follow the sorted listing. *)
Lemma recursively_collect_ascending entries rel r :
  recursively_collect cfg (Dir entries) rel = inr r ->
  ascending (fun t => Py.lower (tree_name t)) r.1.
Proof.
  rewrite recursively_collect_listing.
  intros (cs & Hcs & ->)%for_each_visit_concat. cbn [fst snd app].
  pose proof (sorted_ascending (fun e : string * node => Py.lower e.1) entries) as Hasc.
  revert Hasc Hcs. generalize (sorted (fun e : string * node => Py.lower e.1) entries).
  intros l Hasc. revert cs.
  assert (Hgen : forall cs,
    Forall2 (fun e c => visit cfg rel ([], []) e = inr c)
      (List.map (fun e : string * node =>
                   (e.1, e.2, recursively_collect cfg e.2 (rel ++ [e.1]))) l) cs ->
    ascending (fun t => Py.lower (tree_name t)) (List.concat (List.map fst cs)) /\
    Forall (fun t => exists e, In e l /\ tree_name t = e.1)
           (List.concat (List.map fst cs))).
  { unfold ascending in *.
    induction Hasc as [|[name n] l Hl IH Hhd]; intros cs Hcs.
    - apply Forall2_nil_inv_l in Hcs as ->. split; constructor.
    - cbn [List.map] in Hcs. apply Forall2_cons_inv_l in Hcs as (c & cs' & Hc & Hcs & ->).
      destruct (IH cs' Hcs) as [Hsorted Hfrom]. cbn [fst snd] in Hc.
      assert (Hrest : Forall (fun t => exists e, In e ((name, n) :: l) /\ tree_name t = e.1)
                        (List.concat (List.map fst cs'))).
      { eapply Forall_impl; [exact Hfrom|]. intros t (e & He & Ht). exists e.
        split; [now right|exact Ht]. }
      assert (Hone : forall t, tree_name t = name ->
                c.1 = [t] ->
                StronglySorted
                  (fun x y => String.leb (Py.lower (tree_name x)) (Py.lower (tree_name y)) = true)
                  (List.concat (List.map fst (c :: cs'))) /\
                Forall (fun t => exists e, In e ((name, n) :: l) /\ tree_name t = e.1)
                  (List.concat (List.map fst (c :: cs')))).
      { intros t Ht Hc1. cbn [List.map List.concat]. rewrite Hc1. cbn [app]. split.
        - constructor; [exact Hsorted|].
          eapply Forall_impl; [exact Hfrom|]. intros t' (e & He & Ht').
          rewrite Forall_forall in Hhd. apply list_elem_of_In, Hhd in He.
          cbn [fst] in He. now rewrite Ht, Ht'.
        - constructor; [|exact Hrest]. exists (name, n). split; [now left|exact Ht]. }
      apply visit_cases in Hc as [->|[_ [(data & readable & binary & -> & ->)
                                        |(sub & children & -> & Hsub & ->)]]].
      + cbn [List.map List.concat fst app]. now split.
      + now apply (Hone (FileNode name (node_path (rel ++ [name])))).
      + now apply (Hone (DirNode name (node_path (rel ++ [name])) children.1)). }
  intros cs Hcs. now apply Hgen.
Qed.

Lemma visit_regular rel acc name c sub :
  visit cfg rel acc (name, regular c, sub) = visit cfg rel acc (name, c, sub).
Proof. now destruct c. Qed.

Lemma visit_not_regular rel acc name c sub :
  is_regular c = false -> visit cfg rel acc (name, c, sub) = inr acc.
Proof.
  intros Hc. unfold visit. destruct acc.
  destruct (contains_skipped_segment _); [reflexivity|].
  now destruct c.
Qed.

(** X12.  The file records of an outcome of the walk are those of the file
    nodes of its tree, one for one and in the same order, from top to
    bottom. *)
Theorem recursively_collect_records_follow_tree root rel tree files :
  recursively_collect cfg root rel = inr (tree, files) ->
  List.map rec_path files = flat_map file_paths tree.
Proof.
  apply (recursively_collect_invariant
           (fun c => List.map rec_path c.2 = flat_map file_paths c.1)).
  - reflexivity.
  - intros a b Ha Hb. cbn [fst snd].
    now rewrite map_app, flat_map_app, Ha, Hb.
  - intros name path data binary. cbn. now rewrite rec_path_file_record.
  - intros name path sub rel' children _ Hc. cbn. now rewrite app_nil_r.
Qed.

(** X13.  Every file record that the walk returns is consistent: its size
    is not negative; it is omitted exactly when it carries a reason and no
    content; the reason is [binary] or [large]; a record that is kept is
    within [MAX_FILE_BYTES] and one omitted as [large] is above it. *)
Theorem recursively_collect_records_consistent root rel tree files :
  recursively_collect cfg root rel = inr (tree, files) ->
  Forall (record_consistent cfg) files.
Proof.
  apply (recursively_collect_invariant
           (fun c => Forall (record_consistent cfg) c.2)).
  - constructor.
  - intros a b Ha Hb. cbn [snd]. now apply Forall_app.
  - intros name path data binary. cbn [snd].
    constructor; [apply file_record_consistent|constructor].
  - intros name path sub rel' children _ Hc. exact Hc.
Qed.

(** X14.  At every depth of the tree that the walk returns, the nodes of a
    directory are in ascending order of their lower-cased names. *)
Theorem recursively_collect_tree_in_order root rel tree files :
  recursively_collect cfg root rel = inr (tree, files) ->
  ascending (fun t => Py.lower (tree_name t)) tree /\ Forall in_order tree.
Proof.
  intros Hwalk. split.
  - destruct root as [data readable|entries| |]; try discriminate.
    exact (recursively_collect_ascending entries rel _ Hwalk).
  - refine (recursively_collect_invariant (fun c => Forall in_order c.1)
              _ _ _ _ root rel (tree, files) Hwalk).
    + constructor.
    + intros a b Ha Hb. cbn [fst]. now apply Forall_app.
    + intros name path data binary. cbn [fst]. repeat constructor.
    + intros name path sub rel' children Hsub Hc. cbn [fst].
      constructor; [|constructor]. constructor; [|exact Hc].
      destruct sub as [data readable|entries| |]; try discriminate.
      exact (recursively_collect_ascending entries rel' _ Hsub).
Qed.

(** X15.  Symbolic links and entries that are neither regular files nor
    directories leave no trace: the walk has the same outcome on a tree
    and on that tree without them, at any depth. *)
Theorem recursively_collect_ignores_links root rel :
  recursively_collect cfg (regular root) rel = recursively_collect cfg root rel.
Proof.
  revert rel. induction root as [data readable|entries IH| |] using node_ind';
    intros rel; try reflexivity.
  cbn [regular]. rewrite !recursively_collect_listing.
  rewrite sorted_filter.
  rewrite (sorted_map _ _ (fun e : string * node => Py.lower e.1))
    by now intros [name c].
  rewrite for_each_map.
  rewrite for_each_filter.
  2:{ intros s [name c] Hkeep. now apply visit_not_regular. }
  rewrite !for_each_map. apply for_each_ext.
  intros s [name c] Hin. cbn [fst snd].
  apply sorted_In, list_elem_of_In in Hin.
  rewrite Forall_forall in IH. rewrite (IH _ Hin). apply visit_regular.
Qed.

End CollectorInvariants.

Lemma recursively_collect_records_follow_tree_witness :
  List.map rec_path (snd mixed_outcome) = flat_map file_paths (fst mixed_outcome).
Proof.
  apply (recursively_collect_records_follow_tree default_config mixed_workspace []).
  vm_compute. reflexivity.
Defined.

Lemma recursively_collect_records_consistent_witness :
  Forall (record_consistent default_config) (snd mixed_outcome).
Proof.
  apply (recursively_collect_records_consistent default_config mixed_workspace []
           (fst mixed_outcome)).
  vm_compute. reflexivity.
Defined.

Lemma recursively_collect_tree_in_order_witness :
  ascending (fun t => Py.lower (tree_name t)) (fst mixed_outcome) /\
  Forall in_order (fst mixed_outcome).
Proof.
  apply (recursively_collect_tree_in_order default_config mixed_workspace []
           (fst mixed_outcome) (snd mixed_outcome)).
  vm_compute. reflexivity.
Defined.

(** *** The order of the listing *)

Section SortedPermutation.

Context {A : Type} (key : A -> string).

Lemma insert_by_comm x y (l : list A) :
  key x <> key y ->
  insert_by key x (insert_by key y l) = insert_by key y (insert_by key x l).
Proof.
  intros Hne.
  assert (Hxy : String.leb (key x) (key y) = negb (String.leb (key y) (key x))).
  { destruct (String.leb (key x) (key y)) eqn:H1, (String.leb (key y) (key x)) eqn:H2;
      try reflexivity.
    - destruct Hne. now apply String.leb_antisym.
    - apply string_leb_false in H1. congruence. }
  induction l as [|z l IH]; simpl.
  - rewrite Hxy. now destruct (String.leb (key y) (key x)).
  - destruct (String.leb (key x) (key z)) eqn:Hxz,
             (String.leb (key y) (key z)) eqn:Hyz; simpl;
      rewrite ?Hxz, ?Hyz, ?Hxy;
      destruct (String.leb (key y) (key x)) eqn:Hyx; simpl;
      rewrite ?Hxz, ?Hyz; try reflexivity.
    + rewrite (string_leb_trans _ _ _ Hyx Hxz) in Hyz. discriminate Hyz.
    + assert (H : String.leb (key x) (key y) = true) by now rewrite Hxy.
      rewrite (string_leb_trans _ _ _ H Hyz) in Hxz. discriminate Hxz.
    + now rewrite IH.
    + now rewrite IH.
Qed.

(** With keys that are all different the sorted list does not depend on
    the order of the input. *)
Lemma sorted_permutation (l l' : list A) :
  Permutation l l' -> NoDup (List.map key l) ->
  sorted key l = sorted key l'.
Proof.
  induction 1 as [|x l l' Hperm IH|x y l|l l' l'' H1 IH1 H2 IH2]; intros Hnd.
  - reflexivity.
  - simpl. rewrite IH; [reflexivity|]. now apply NoDup_cons_1_2 in Hnd.
  - simpl. apply insert_by_comm.
    cbn [List.map] in Hnd. apply NoDup_cons_1_1 in Hnd.
    intros Heq. apply Hnd. rewrite Heq. now left.
  - rewrite IH1 by exact Hnd. apply IH2.
    apply NoDup_ListNoDup.
    eapply Permutation_NoDup; [apply Permutation_map; exact H1|].
    now apply NoDup_ListNoDup.
Qed.

End SortedPermutation.

(** X16.  The order in which the file system lists a directory plays no
    part when no two of its entries have the same lower-cased name: two
    listings of the same entries have the same outcome. *)
Theorem recursively_collect_listing_order cfg entries entries' rel :
  Permutation entries entries' ->
  NoDup (List.map (fun e : string * node => Py.lower e.1) entries) ->
  recursively_collect cfg (Dir entries) rel
  = recursively_collect cfg (Dir entries') rel.
Proof.
  intros Hperm Hnd. rewrite !recursively_collect_eq.
  now rewrite (sorted_permutation _ entries entries').
Qed.

Lemma recursively_collect_listing_order_witness :
  recursively_collect default_config
    (Dir [("b.txt", File [] true); ("A.md", File [] true)]) []
  = recursively_collect default_config
      (Dir [("A.md", File [] true); ("b.txt", File [] true)]) [].
Proof.
  apply recursively_collect_listing_order.
  - apply perm_swap.
  - apply (bool_decide_unpack _). vm_compute. exact I.
Defined.

(** *** Plain text *)

Lemma decode_ascii data :
  Forall (fun b => (Byte.to_N b < 0x80)%N) data ->
  Codec.decode None data = List.map Byte.to_N data.
Proof.
  induction 1 as [|b data Hb _ IH]; [reflexivity|].
  cbn [Codec.decode List.map]. unfold Codec.start.
  destruct (N.ltb_spec (Byte.to_N b) 0x80); [|lia].
  cbn [app]. now rewrite IH.
Qed.

Lemma plain_text_byte_spec b :
  plain_text_byte b = true ->
  text_chars (Byte.to_N b) = true /\ (Byte.to_N b < 0x80)%N /\ b <> x0d.
Proof. destruct b; vm_compute; (discriminate || (intros _; repeat split; discriminate)). Qed.

(** A file of plain text is not binary. *)
Lemma plain_text_not_binary data :
  forallb plain_text_byte data = true ->
  is_binary_file data true 1024 = inr false.
Proof.
  intros Hall. rewrite is_binary_file_exact. unfold sample_is_binary.
  assert (Htext : Forall (fun b => text_chars (Byte.to_N b) = true) (take 1024 data)).
  { apply Forall_take, Forall_forall. intros b Hb%list_elem_of_In.
    rewrite forallb_forall in Hall. now apply plain_text_byte_spec, Hall. }
  rewrite (non_text_count_none _ Htext).
  replace (existsb _ _) with false.
  - f_equal. apply Z.ltb_ge. lia.
  - symmetry. apply not_true_is_false. intros (b & Hin & Hb)%existsb_exists.
    rewrite List.Forall_forall in Htext. specialize (Htext b Hin).
    apply N.eqb_eq in Hb. rewrite Hb in Htext. discriminate Htext.
Qed.

(** X17.  A readable file of plain text (printable ASCII, tabs and
    newlines) within the size ceiling that the walk reaches is recorded
    with its bytes, one character per byte, as content. *)
Theorem recursively_collect_keeps_plain_text cfg root names data rel :
  entry_at root names (File data true) ->
  contains_skipped_segment (rel ++ names) = false ->
  forallb plain_text_byte data = true ->
  Z.of_nat (length data) <= MAX_FILE_BYTES cfg ->
  exists tree files,
    recursively_collect cfg root rel = inr (tree, files) /\
    In {| rec_path := node_path (rel ++ names);
          rec_size := Z.of_nat (length data);
          omitted := false; omittedReason := None;
          content := Some (List.map Byte.to_N data) |} files.
Proof.
  intros Hat Hskip Hplain Hsize.
  destruct (collected_file_record cfg root names _ Hat data true false rel
              eq_refl Hskip (plain_text_not_binary data Hplain))
    as (tree & files & Hwalk & Hin).
  exists tree, files. split; [exact Hwalk|].
  unfold file_record in Hin.
  destruct (Z.ltb_spec (MAX_FILE_BYTES cfg) (Z.of_nat (length data))); [lia|].
  rewrite read_text_without_cr, decode_ascii in Hin; [exact Hin| |].
  - apply Forall_forall. intros b Hb%list_elem_of_In.
    rewrite forallb_forall in Hplain. now apply plain_text_byte_spec, Hplain.
  - intros Hcr. rewrite forallb_forall in Hplain.
    apply Hplain, plain_text_byte_spec in Hcr as (_ & _ & Hcr). now apply Hcr.
Qed.

Lemma recursively_collect_keeps_plain_text_witness :
  exists tree files,
    recursively_collect default_config hello_workspace [] = inr (tree, files) /\
    In {| rec_path := node_path ([] ++ ["src"; "main.txt"]);
          rec_size := Z.of_nat (length (list_byte_of_string "hello"));
          omitted := false; omittedReason := None;
          content := Some (List.map Byte.to_N (list_byte_of_string "hello")) |} files.
Proof.
  apply recursively_collect_keeps_plain_text.
  - apply entry_below with (d := Dir [("main.txt", File (list_byte_of_string "hello") true)]);
      [now left|]. apply entry_here. now left.
  - vm_compute. reflexivity.
  - vm_compute. reflexivity.
  - vm_compute. discriminate.
Defined.

(** X18.  A regular file that the walk from the workspace root reaches
    along a path whose first component starts with neither a dot nor a
    slash has a record under its POSIX relative path, with the size of the
    file. *)
Theorem recursively_collect_records_path cfg root name names data readable c s :
  entry_at root (name :: names) (File data readable) ->
  contains_skipped_segment (name :: names) = false ->
  name = String c s -> Py.contains c "./" = false ->
  exists tree files x,
    recursively_collect cfg root [] = inr (tree, files) /\
    In x files /\
    rec_path x = Py.join "/" (name :: names) /\
    rec_size x = Z.of_nat (length data).
Proof.
  intros Hat Hskip Hname Hc.
  destruct (is_binary_file_returns data readable 1024) as [binary Hbin].
  destruct (collected_file_record cfg root _ _ Hat data readable binary []
              eq_refl Hskip Hbin) as (tree & files & Hwalk & Hin).
  exists tree, files, (file_record cfg (node_path ([] ++ name :: names)) data binary).
  split; [exact Hwalk|]. split; [exact Hin|]. cbn [app]. split.
  - rewrite <- (node_path_exact name names c s Hname Hc).
    unfold file_record. destruct binary; [easy|]. now destruct (_ <? _).
  - unfold file_record. destruct binary; [easy|]. now destruct (_ <? _).
Qed.

Lemma recursively_collect_records_path_witness :
  exists tree files x,
    recursively_collect default_config hello_workspace [] = inr (tree, files) /\
    In x files /\
    rec_path x = Py.join "/" ("src" :: ["main.txt"]) /\
    rec_size x = Z.of_nat (length (list_byte_of_string "hello")).
Proof.
  apply (recursively_collect_records_path default_config hello_workspace
           "src" ["main.txt"] (list_byte_of_string "hello") true "s" "rc").
  - apply entry_below with (d := Dir [("main.txt", File (list_byte_of_string "hello") true)]);
      [now left|]. apply entry_here. now left.
  - vm_compute. reflexivity.
  - reflexivity.
  - reflexivity.
Defined.

(** ** Ingestion orchestrator: requests with an archive, errors and responses *)

Section SortedPermutes.

Context {A : Type} (key : A -> string).

Lemma insert_by_Permutation x (l : list A) : Permutation (x :: l) (insert_by key x l).
Proof.
  induction l as [|y l IH]; simpl; [reflexivity|].
  destruct (String.leb _ _); [reflexivity|].
  rewrite perm_swap. now apply perm_skip.
Qed.

Lemma sorted_Permutation (l : list A) : Permutation l (sorted key l).
Proof.
  induction l as [|x l IH]; simpl; [reflexivity|].
  rewrite <- insert_by_Permutation. now apply perm_skip.
Qed.

End SortedPermutes.

Section OrchestratorFacts.

Variable cfg : Config.
Variable env : Environment.

(** The events of a request are those of [acquire] between the making and
    the removal of the workspace. *)
Lemma parse_repo_events repoUrl zipFile ev :
  In ev (parse_repo cfg env repoUrl zipFile).2 ->
  ev = MakeWorkspace \/ ev = RemoveWorkspace \/
  In ev (acquire cfg env repoUrl zipFile).2.
Proof.
  unfold parse_repo. destruct (_ && _); [intros []|].
  destruct (acquire cfg env repoUrl zipFile) as [acquired events]. cbn [snd app].
  intros [<-|[Hev|[<-|[]]]%in_app_or]; auto.
Qed.

(** What [acquire] does for a URL. *)
Lemma acquire_clone_events repoUrl u :
  In (SpawnClone u) (acquire cfg env repoUrl None).2 ->
  exists raw,
    repoUrl = Some raw /\
    normalize_repo_url cfg (env_bracketed_netloc_ok env) raw = inr u.
Proof.
  unfold acquire. destruct repoUrl as [raw|]; cbn [Py.truthy_opt].
  2:{ intros []. }
  change (default EmptyString (Some raw)) with raw.
  destruct (Py.truthy raw); [|intros []].
  destruct (normalize_repo_url _ _ raw) as [e|normalized] eqn:Hnorm.
  - destruct e; intros [].
  - cbn [snd]. intros [[= ->]|[]]. eauto.
Qed.

(** Whether the stream completes is decided by the size of what is
    read. *)
Lemma stream_upload_decided upload :
  let out := stream_upload_to_file (upload_chunks upload) (MAX_ZIP_BYTES cfg) 0 in
  if upload_fits cfg upload
  then out = (inr tt, until_empty (upload_chunks upload))
  else out.1 = inl (HTTPException 413 "Zip exceeds allowed size") /\
       out.2 `prefix_of` until_empty (upload_chunks upload) /\
       out.2 <> until_empty (upload_chunks upload).
Proof.
  pose proof (stream_upload_to_file_from (upload_chunks upload) (MAX_ZIP_BYTES cfg) 0)
    as (Hprefix & _ & Hcase).
  cbv zeta in *. unfold upload_fits.
  destruct (until_empty (upload_chunks upload)) as [|c sent]; [exact Hcase|].
  rewrite Z.add_0_l in Hcase.
  destruct (bytes_in (c :: sent) <=? MAX_ZIP_BYTES cfg); [exact Hcase|].
  destruct Hcase as [Hraise Hne]. auto.
Qed.

(** How [acquire] handles an archive, stage by stage. *)
Lemma acquire_upload repoUrl upload :
  let sent := until_empty (upload_chunks upload) in
  let streamed := List.map WriteChunk sent in
  let out := acquire cfg env repoUrl (Some upload) in
  if negb (Py.endswith ".zip" (Py.lower (upload_filename upload))) then
    out = (inl (HTTPException 400 "Upload a .zip archive"), [])
  else if negb (upload_fits cfg upload) then
    exists written,
      written `prefix_of` sent /\ written <> sent /\
      out = (inl (HTTPException 413 "Zip exceeds allowed size"),
             List.map WriteChunk written)
  else
    match env_zipfile env (List.concat sent) with
    | NotAZip =>
        out = (inl (HTTPException 400 "File is not a zip file"), streamed)
    | Archive members extract =>
        if archive_passes (env_cwd env) (project_dir env) (MAX_EXTRACT_BYTES cfg)
             members
        then
          match extractall extract members (project_dir env) [] with
          | (inr _, d) =>
              out = (inr (env_unpacked env (List.concat sent)),
                     streamed ++ [ExtractAll d])
          | (inl e, d) =>
              out = (inl (answered e), streamed ++ partial_extraction d)
          end
        else
          exists msg, out = (inl (HTTPException 400 msg), streamed)
    end.
Proof.
  cbv zeta. unfold acquire. fold (project_dir env).
  destruct (negb (Py.endswith _ _)); [reflexivity|].
  pose proof (stream_upload_decided upload) as Hstream. cbv zeta in Hstream.
  destruct (stream_upload_to_file _ _ _) as [streamed written].
  destruct (upload_fits cfg upload); cbn [negb].
  - injection Hstream as -> ->.
    destruct (env_zipfile env _) as [|members extract];
      [cbn; now rewrite app_nil_r|].
    pose proof (safe_extract_zip_decided (env_cwd env) members extract (project_dir env)
                  (MAX_EXTRACT_BYTES cfg) []) as Hzipped.
    destruct (archive_passes _ _ _ _).
    + rewrite Hzipped.
      destruct (extractall extract members (project_dir env) []) as [[e|[]] d];
        [|reflexivity].
      now destruct e.
    + destruct Hzipped as [msg ->]. cbn [partial_extraction]. rewrite app_nil_r.
      now exists msg.
  - cbn [fst snd] in Hstream. destruct Hstream as (-> & Hprefix & Hne).
    now exists written.
Qed.




(** X19.  Whenever a request spawns [git clone], no archive was uploaded
    and the URL handed to [git] is the one that [normalize_repo_url]
    returned for the URL of the request: an [https] URL of a host of the
    allow-list with a plain owner and repository name. *)
Theorem parse_repo_clones_normalized_url repoUrl zipFile u :
  In (SpawnClone u) (parse_repo cfg env repoUrl zipFile).2 ->
  zipFile = None /\
  (exists raw,
     repoUrl = Some raw /\
     normalize_repo_url cfg (env_bracketed_netloc_ok env) raw = inr u) /\
  exists host owner repo,
    u = "https://" +:+ host +:+ "/" +:+ owner +:+ "/" +:+ repo +:+ ".git" /\
    host ∈ ALLOWED_GIT_HOSTS cfg /\ plain_name owner /\ plain_name repo.
Proof.
  intros [[=]|[[=]|Hev]]%parse_repo_events.
  destruct zipFile as [upload|].
  { apply acquire_upload_events in Hev as [[chunk [=]]|[d [=]]]. }
  split; [reflexivity|].
  destruct (acquire_clone_events _ _ Hev) as (raw & -> & Hnorm).
  split; [eauto|].
  destruct (normalize_repo_url_shape _ _ _ _ Hnorm)
    as (host & owner & repo & -> & Hhost & _ & _ & Howner & Hrepo).
  eauto 10.
Qed.

(** X20.  Whenever a request extracts an archive, the name of the upload
    ends in [.zip], the bytes streamed are within [MAX_ZIP_BYTES], they are a zip
    archive that passes every check of [safe_extract_zip] under
    [MAX_EXTRACT_BYTES], and what is written is what [extractall] wrote of
    the members of that archive into the project directory of the
    workspace. *)
Theorem parse_repo_extracts_checked_archive repoUrl zipFile d :
  In (ExtractAll d) (parse_repo cfg env repoUrl zipFile).2 ->
  exists upload,
    zipFile = Some upload /\
    Py.endswith ".zip" (Py.lower (upload_filename upload)) = true /\
    (until_empty (upload_chunks upload) = [] \/
     bytes_in (until_empty (upload_chunks upload)) <= MAX_ZIP_BYTES cfg) /\
    exists members extract,
      env_zipfile env (List.concat (until_empty (upload_chunks upload)))
      = Archive members extract /\
      archive_passes (env_cwd env) (project_dir env) (MAX_EXTRACT_BYTES cfg) members
      = true /\
      d = (extractall extract members (project_dir env) []).2.
Proof.
  intros [[=]|[[=]|Hev]]%parse_repo_events.
  destruct zipFile as [upload|].
  2:{ exfalso. revert Hev. unfold acquire.
      destruct (Py.truthy_opt repoUrl); [|intros []].
      destruct (normalize_repo_url _ _ _) as [[]|normalized]; cbn [snd];
        intros Hin; simpl in Hin; intuition discriminate. }
  exists upload. split; [reflexivity|].
  pose proof (acquire_upload repoUrl upload) as Hacq. cbv zeta in Hacq.
  assert (Hno : forall written, ~ In (ExtractAll d) (List.map WriteChunk written)).
  { now intros written (chunk & [=] & _)%in_map_iff. }
  destruct (Py.endswith _ _); cbn [negb] in Hacq.
  2:{ rewrite Hacq in Hev. destruct Hev. }
  split; [reflexivity|].
  destruct (upload_fits cfg upload) eqn:Hfits; cbn [negb] in Hacq.
  2:{ destruct Hacq as (written & _ & _ & Hacq). rewrite Hacq in Hev.
      now apply Hno in Hev. }
  split.
  { unfold upload_fits in Hfits.
    destruct (until_empty (upload_chunks upload)); [now left|right].
    now apply Z.leb_le. }
  destruct (env_zipfile env _) as [|members extract] eqn:Hzip.
  { rewrite Hacq in Hev. now apply Hno in Hev. }
  destruct (archive_passes _ _ _ _) eqn:Hpass.
  2:{ destruct Hacq as [msg Hacq]. rewrite Hacq in Hev. now apply Hno in Hev. }
  exists members, extract. split; [reflexivity|]. split; [exact Hpass|].
  destruct (extractall extract members (project_dir env) []) as [[e|[]] d'];
    rewrite Hacq in Hev; cbn [snd] in Hev;
    apply in_app_or in Hev as [Hev|Hev]; try (now apply Hno in Hev).
  - destruct d'; [destruct Hev|]. now destruct Hev as [[= <-]|[]].
  - now destruct Hev as [[= <-]|[]].
Qed.


(** X22.  The response to a request that succeeds carries the tree of the
    walk over the project directory as it is, and the file records of that
    walk rearranged in ascending order of their paths. *)
Theorem parse_repo_response_sorted repoUrl zipFile response :
  (parse_repo cfg env repoUrl zipFile).1 = inr response ->
  exists root records,
    (acquire cfg env repoUrl zipFile).1 = inr root /\
    recursively_collect cfg (Dir root) [] = inr (tree response, records) /\
    Permutation records (files response) /\
    ascending rec_path (files response).
Proof.
  unfold parse_repo. destruct (_ && _); cbn [fst]; [discriminate|].
  destruct (acquire cfg env repoUrl zipFile) as [[e'|root] events]; cbn [fst];
    [discriminate|].
  cbn [mbind result_bind].
  destruct (recursively_collect cfg (Dir root) []) as [e'|[nodes records]] eqn:Hwalk;
    [discriminate|].
  cbn. intros [= <-]. exists root, records. cbn [tree files].
  split; [reflexivity|]. split; [exact Hwalk|].
  split; [apply sorted_Permutation|apply sorted_ascending].
Qed.

(** X23.  A URL that the validator refuses is answered with status 400
    and the message of the [ValueError] raised, and nothing is cloned: the
    workspace is made and removed, and that is all. *)
Theorem parse_repo_refuses_url raw e :
  raw <> EmptyString ->
  normalize_repo_url cfg (env_bracketed_netloc_ok env) raw = inl e ->
  exists msg,
    e = ValueError msg /\
    parse_repo cfg env (Some raw) None
    = (inl (HTTPException 400 msg), [MakeWorkspace; RemoveWorkspace]).
Proof.
  intros Hraw%truthy_true Hnorm.
  destruct (normalize_repo_url_error _ _ _ _ Hnorm) as (msg & -> & _).
  exists msg. split; [reflexivity|].
  unfold parse_repo, acquire. cbn [Py.truthy_opt].
  change (default EmptyString (Some raw)) with raw.
  rewrite Hraw, Hnorm. reflexivity.
Qed.

End OrchestratorFacts.

Lemma parse_repo_clones_normalized_url_witness :
  @None UploadFile = None /\
  (exists raw,
     Some "https://github.com/owner/repo" = Some raw /\
     normalize_repo_url default_config
       (env_bracketed_netloc_ok one_file_environment) raw
     = inr "https://github.com/owner/repo.git") /\
  exists host owner repo,
    "https://github.com/owner/repo.git"
    = "https://" +:+ host +:+ "/" +:+ owner +:+ "/" +:+ repo +:+ ".git" /\
    host ∈ ALLOWED_GIT_HOSTS default_config /\ plain_name owner /\ plain_name repo.
Proof.
  apply (parse_repo_clones_normalized_url default_config one_file_environment
           (Some "https://github.com/owner/repo") None).
  vm_compute. right. left. reflexivity.
Defined.

Lemma parse_repo_extracts_checked_archive_witness :
  exists upload,
    Some small_upload = Some upload /\
    Py.endswith ".zip" (Py.lower (upload_filename upload)) = true /\
    (until_empty (upload_chunks upload) = [] \/
     bytes_in (until_empty (upload_chunks upload))
     <= MAX_ZIP_BYTES default_config) /\
    exists members extract,
      env_zipfile one_file_environment
        (List.concat (until_empty (upload_chunks upload)))
      = Archive members extract /\
      archive_passes (env_cwd one_file_environment)
        (project_dir one_file_environment)
        (MAX_EXTRACT_BYTES default_config) members
      = true /\
      [{| PathLib.absolute := true;
          PathLib.segments := ["tmp"; "ws"; "project"; "a.txt"] |}]
      = (extractall extract members (project_dir one_file_environment) []).2.
Proof.
  apply (parse_repo_extracts_checked_archive default_config one_file_environment
           None (Some small_upload)).
  vm_compute. right. right. left. reflexivity.
Defined.


Lemma parse_repo_response_sorted_witness :
  exists root records,
    (acquire default_config one_file_environment None (Some small_upload)).1
    = inr root /\
    recursively_collect default_config (Dir root) []
    = inr (tree one_file_response, records) /\
    Permutation records (files one_file_response) /\
    ascending rec_path (files one_file_response).
Proof.
  apply (parse_repo_response_sorted default_config one_file_environment
           None (Some small_upload)).
  vm_compute. reflexivity.
Defined.

Lemma parse_repo_refuses_url_witness :
  exists msg,
    ValueError "Only http/https repo URLs are allowed" = ValueError msg /\
    parse_repo default_config one_file_environment
      (Some "ftp://github.com/owner/repo") None
    = (inl (HTTPException 400 msg), [MakeWorkspace; RemoveWorkspace]).
Proof.
  apply (parse_repo_refuses_url default_config one_file_environment
           "ftp://github.com/owner/repo").
  - discriminate.
  - vm_compute. reflexivity.
Defined.

(** ** Settings parsed from the environment *)

Section StripFacts.

Variable q : ascii -> bool.

Lemma rev_app_append s t : String.rev_app s t = String.rev s +:+ t.
Proof.
  revert t. induction s as [|a s IH]; intros t; [reflexivity|].
  unfold String.rev. cbn [String.rev_app].
  rewrite (IH (String a t)), (IH (String a EmptyString)).
  now rewrite append_assoc.
Qed.

Lemma rev_cons a s : String.rev (String a s) = String.rev s +:+ String a EmptyString.
Proof. unfold String.rev at 1. cbn [String.rev_app]. apply rev_app_append. Qed.

Lemma append_empty_r s : s +:+ EmptyString = s.
Proof. induction s as [|a s IH]; [easy|]. now rewrite append_cons, IH. Qed.

Lemma rev_append s t : String.rev (s +:+ t) = String.rev t +:+ String.rev s.
Proof.
  induction s as [|a s IH].
  - change (EmptyString +:+ t) with t. now rewrite append_empty_r.
  - rewrite append_cons, !rev_cons, IH. now rewrite append_assoc.
Qed.

Lemma rev_involutive s : String.rev (String.rev s) = s.
Proof.
  induction s as [|a s IH]; [reflexivity|].
  now rewrite rev_cons, rev_append, IH.
Qed.

Lemma all_chars_rev p s : Py.all_chars p (String.rev s) = Py.all_chars p s.
Proof.
  induction s as [|a s IH]; [reflexivity|].
  rewrite rev_cons, all_chars_app, IH. cbn. now rewrite andb_true_r, andb_comm.
Qed.

(** [lstrip] takes off a run of characters to strip. *)
Lemma lstrip_decompose s :
  exists pre, s = pre +:+ Py.lstrip q s /\ Py.all_chars q pre = true.
Proof.
  induction s as [|a s (pre & Hs & Hpre)]; [now exists EmptyString|].
  cbn [Py.lstrip]. destruct (q a) eqn:Ha.
  - exists (String a pre). rewrite append_cons, <- Hs. cbn. now rewrite Ha.
  - now exists EmptyString.
Qed.

Lemma all_chars_lstrip p s :
  Py.all_chars p s = true -> Py.all_chars p (Py.lstrip q s) = true.
Proof.
  destruct (lstrip_decompose s) as (pre & Hs & _). rewrite Hs at 1.
  rewrite all_chars_app. now intros [_ H]%andb_prop.
Qed.

Lemma lstrip_all s : Py.all_chars q s = true -> Py.lstrip q s = EmptyString.
Proof.
  induction s as [|a s IH]; [easy|]. cbn. intros [Ha Hs]%andb_prop.
  now rewrite Ha, IH.
Qed.

(** What [lstrip] returns starts with a character that stays. *)
Lemma lstrip_fixed s : Py.lstrip q (Py.lstrip q s) = Py.lstrip q s.
Proof.
  induction s as [|a s IH]; [easy|]. cbn [Py.lstrip].
  destruct (q a) eqn:Ha; [exact IH|]. cbn. now rewrite Ha.
Qed.

(** Taking white space off the right end of a string that [lstrip] leaves
    as it is gives a string that [lstrip] leaves as it is. *)
Lemma lstrip_rev_lstrip_rev t :
  Py.lstrip q t = t ->
  Py.lstrip q (String.rev (Py.lstrip q (String.rev t)))
  = String.rev (Py.lstrip q (String.rev t)).
Proof.
  intros Ht.
  destruct (lstrip_decompose (String.rev t)) as (pre & Hrev & Hpre).
  apply (f_equal String.rev) in Hrev.
  rewrite rev_involutive, rev_append in Hrev.
  destruct (String.rev (Py.lstrip q (String.rev t))) as [|b r]; [reflexivity|].
  rewrite append_cons in Hrev. rewrite Hrev in Ht. cbn [Py.lstrip] in Ht.
  cbn [Py.lstrip]. destruct (q b) eqn:Hb; [|reflexivity]. exfalso.
  apply (f_equal String.length) in Ht.
  destruct (lstrip_decompose (r +:+ String.rev pre)) as (pre' & Hdec & _).
  rewrite Hdec in Ht at 2. cbn [String.length] in Ht.
  rewrite length_app in Ht. lia.
Qed.

End StripFacts.

Lemma all_chars_strip p s :
  Py.all_chars p s = true -> Py.all_chars p (Py.strip s) = true.
Proof.
  intros H. unfold Py.strip.
  rewrite all_chars_rev. apply all_chars_lstrip.
  rewrite all_chars_rev. now apply all_chars_lstrip.
Qed.

(** [strip] leaves what it returns as it is. *)
Lemma strip_fixed s : Py.strip (Py.strip s) = Py.strip s.
Proof.
  unfold Py.strip.
  rewrite (lstrip_rev_lstrip_rev Py.is_space (Py.lstrip Py.is_space s))
    by apply lstrip_fixed.
  now rewrite rev_involutive, lstrip_fixed.
Qed.

Lemma strip_blank s : Py.all_chars Py.is_space s = true -> Py.strip s = EmptyString.
Proof. intros H. unfold Py.strip. now rewrite (lstrip_all _ s H). Qed.

Lemma lower_length s : String.length (Py.lower s) = String.length s.
Proof. induction s as [|a s IH]; [easy|]. cbn. now rewrite IH. Qed.

Lemma lower_char_comma a : Ascii.eqb (Py.lower_char a) "," = Ascii.eqb a ",".
Proof. destruct a as [[] [] [] [] [] [] [] []]; reflexivity. Qed.

Lemma lower_lacks_comma s : Py.contains "," (Py.lower s) = Py.contains "," s.
Proof. induction s as [|a s IH]; simpl; [easy|]. now rewrite lower_char_comma, IH. Qed.

Lemma lower_char_space a : Py.is_space (Py.lower_char a) = Py.is_space a.
Proof. destruct a as [[] [] [] [] [] [] [] []]; reflexivity. Qed.

Lemma lower_lstrip s :
  Py.lower (Py.lstrip Py.is_space s) = Py.lstrip Py.is_space (Py.lower s).
Proof.
  induction s as [|a s IH]; [easy|]. cbn [Py.lstrip Py.lower].
  rewrite lower_char_space. now destruct (Py.is_space a).
Qed.

Lemma lower_append s t : Py.lower (s +:+ t) = Py.lower s +:+ Py.lower t.
Proof. induction s as [|a s IH]; [easy|]. rewrite append_cons. cbn. now rewrite IH. Qed.

Lemma lower_rev s : Py.lower (String.rev s) = String.rev (Py.lower s).
Proof.
  induction s as [|a s IH]; [easy|].
  cbn [Py.lower]. now rewrite !rev_cons, lower_append, IH.
Qed.

(** Lower-casing and stripping commute. *)
Lemma lower_strip s : Py.lower (Py.strip s) = Py.strip (Py.lower s).
Proof. unfold Py.strip. now rewrite lower_rev, lower_lstrip, lower_rev, lower_lstrip. Qed.

(** A field of a comma-separated value, stripped, is an entry when it is
    not empty. *)
Lemma stripped_field_entry value item :
  In item (Py.split "," value) -> Py.strip item <> EmptyString ->
  setting_entry (Py.strip item).
Proof.
  intros Hin Hne. split; [exact Hne|]. split; [|apply strip_fixed].
  apply all_chars_ne_contains, all_chars_strip, all_chars_ne_contains.
  exact (split_lacks "," value item Hin).
Qed.

(** X24.  Every host of the allow-list read from [ALLOWED_GIT_HOSTS] is
    not empty, holds no comma, has no white space at either end and is in
    lower case. *)
Theorem allowed_git_hosts_entries value host :
  host ∈ allowed_git_hosts value ->
  setting_entry host /\ Py.lower host = host.
Proof.
  unfold allowed_git_hosts.
  intros (item & <- & [Hin Hitem%truthy_true]%filter_In)%elem_of_list_to_set%list_elem_of_In%in_map_iff.
  destruct (stripped_field_entry _ _ Hin Hitem) as (Hne & Hcomma & Hfixed).
  split; [|apply lower_idem]. split; [|split].
  - intros Hempty%(f_equal String.length). rewrite lower_length in Hempty.
    destruct (Py.strip item); [easy|discriminate].
  - now rewrite lower_lacks_comma.
  - now rewrite <- lower_strip, Hfixed.
Qed.

Lemma allowed_git_hosts_entries_witness :
  setting_entry "gitlab.com" /\ Py.lower "gitlab.com" = "gitlab.com".
Proof.
  apply (allowed_git_hosts_entries (Some " GitHub.com , ,GitLab.com")).
  vm_compute. reflexivity.
Defined.

(** X25.  Every origin that [get_allowed_origins] returns is not empty,
    holds no comma and has no white space at either end. *)
Theorem get_allowed_origins_entries value origin :
  In origin (get_allowed_origins value) -> setting_entry origin.
Proof.
  unfold get_allowed_origins. destruct (Py.truthy _).
  - intros (item & <- & [Hin Hitem%truthy_true]%filter_In)%in_map_iff.
    exact (stripped_field_entry _ _ Hin Hitem).
  - intros [<-|[<-|[]]]; repeat split; discriminate.
Qed.

Lemma get_allowed_origins_entries_witness :
  setting_entry "https://app.example.org".
Proof.
  apply (get_allowed_origins_entries
           (Some " https://app.example.org , ,http://localhost:5173 ")).
  vm_compute. left. reflexivity.
Defined.

Lemma separator_field_blank value item :
  Py.all_chars separator_char value = true ->
  In item (Py.split "," value) -> Py.strip item = EmptyString.
Proof.
  intros Hall Hin. apply strip_blank.
  pose proof (split_all_chars _ "," value item Hall Hin) as Hsep.
  pose proof (split_lacks "," value item Hin) as Hcomma.
  apply all_chars_ne_contains in Hcomma.
  clear - Hsep Hcomma. induction item as [|a item IH]; [easy|].
  cbn in *. apply andb_prop in Hsep as [Ha Hsep], Hcomma as [Hc Hcomma].
  rewrite IH by assumption. unfold separator_char in Ha.
  destruct (Ascii.eqb a ","); [discriminate Hc|]. now rewrite orb_false_r in Ha; rewrite Ha.
Qed.

(** X26.  [get_allowed_origins] falls back on the two local origins only
    when [ALLOWED_ORIGINS] is unset or blank: a value that holds commas
    and white space and nothing else, with at least one comma, gives the
    empty list of origins. *)
Theorem get_allowed_origins_separators_only value :
  Py.all_chars separator_char value = true ->
  get_allowed_origins (Some value)
  = if Py.contains "," value then []
    else ["http://localhost:3000"; "http://127.0.0.1:3000"].
Proof.
  intros Hall. unfold get_allowed_origins.
  change (default EmptyString (Some value)) with value. cbv zeta.
  destruct (Py.contains "," value) eqn:Hcomma.
  - assert (Hraw : Py.truthy (Py.strip value) = true).
    { apply truthy_true. intros Hblank.
      assert (Hsp : Py.all_chars (fun c => negb (Ascii.eqb c ",")) value = true);
        [|apply all_chars_ne_contains in Hsp; congruence].
      revert Hblank. unfold Py.strip. intros Hblank%(f_equal String.rev).
      rewrite rev_involutive in Hblank. cbn in Hblank.
      destruct (lstrip_decompose Py.is_space (String.rev (Py.lstrip Py.is_space value)))
        as (pre & Hdec & Hpre).
      rewrite Hblank, append_empty_r in Hdec.
      destruct (lstrip_decompose Py.is_space value) as (pre' & Hdec' & Hpre').
      rewrite Hdec'. rewrite all_chars_app.
      rewrite <- (all_chars_rev _ (Py.lstrip Py.is_space value)), Hdec.
      assert (Himpl : forall s, Py.all_chars Py.is_space s = true ->
                Py.all_chars (fun c => negb (Ascii.eqb c ",")) s = true).
      { intros s. apply all_chars_impl. intros c Hc.
        destruct (Ascii.eqb_spec c ",") as [->|_]; [discriminate Hc|reflexivity]. }
      now rewrite !Himpl. }
    rewrite Hraw.
    assert (Hall' : Py.all_chars separator_char (Py.strip value) = true)
      by now apply all_chars_strip.
    generalize (separator_field_blank (Py.strip value)).
    intros Hblank. specialize (fun item => Hblank item Hall').
    induction (Py.split "," (Py.strip value)) as [|item l IH]; [reflexivity|].
    cbn [List.filter]. rewrite (Hblank item) by now left. cbn.
    apply IH. intros item' Hin. apply Hblank. now right.
  - assert (Hsp : Py.all_chars Py.is_space value = true).
    { apply all_chars_ne_contains in Hcomma. clear - Hall Hcomma.
      induction value as [|a s IH]; [easy|]. cbn in *.
      apply andb_prop in Hall as [Ha Hall], Hcomma as [Hc Hcomma].
      rewrite IH by assumption. unfold separator_char in Ha.
      destruct (Ascii.eqb a ","); [discriminate Hc|].
      now rewrite orb_false_r in Ha; rewrite Ha. }
    now rewrite (strip_blank _ Hsp).
Qed.

Lemma get_allowed_origins_separators_only_witness :
  get_allowed_origins (Some " , ,")
  = if Py.contains "," " , ," then []
    else ["http://localhost:3000"; "http://127.0.0.1:3000"].
Proof.
  apply get_allowed_origins_separators_only. vm_compute. reflexivity.
Defined.

(** With the variable unset the allow-list is the one of the default
    configuration. *)
Lemma allowed_git_hosts_unset :
  allowed_git_hosts None = ALLOWED_GIT_HOSTS default_config.
Proof. apply set_eq. intros host. vm_compute. tauto. Qed.

(** X27.  A host named in [ALLOWED_GIT_HOSTS], in whatever case and with
    white space around it, admits the URLs of that host in whatever case:
    such a URL of the form [https://{host}/{owner}/{repo}] is normalized
    to the URL with the host in lower case. *)
Theorem normalize_repo_url_matches_configured_host
    cfg bracketed_netloc_ok value item host owner repo :
  ALLOWED_GIT_HOSTS cfg = allowed_git_hosts (Some value) ->
  In item (Py.split "," value) -> Py.strip item <> EmptyString ->
  Py.lower host = Py.lower (Py.strip item) ->
  Py.all_chars netloc_char host = true -> Py.contains ":" host = false ->
  is_segment owner = true -> is_segment repo = true -> repo <> ".git" ->
  (String.length ("https://" +:+ host +:+ "/" +:+ owner +:+ "/" +:+ repo) <= 2048)%nat ->
  normalize_repo_url cfg bracketed_netloc_ok
    ("https://" +:+ host +:+ "/" +:+ owner +:+ "/" +:+ repo)
  = inr ("https://" +:+ Py.lower host +:+ "/" +:+ owner +:+ "/" +:+ strip_git repo
         +:+ ".git").
Proof.
  intros Hcfg Hin Hitem Hsame Hhost Hcolon Howner Hrepo Hgit Hlen.
  assert (Hhost_of : host_of host = Py.lower host).
  { unfold host_of. now rewrite split_absent. }
  fold (canonical (Py.lower host) owner repo). rewrite <- Hhost_of.
  apply normalize_repo_url_netloc_form; try assumption.
  rewrite Hhost_of, Hcfg, Hsame. unfold allowed_git_hosts.
  apply elem_of_list_to_set, list_elem_of_In, in_map_iff.
  exists item. split; [reflexivity|]. apply filter_In. split; [exact Hin|].
  now apply truthy_true.
Qed.

Lemma normalize_repo_url_matches_configured_host_witness :
  normalize_repo_url
    {| ALLOWED_GIT_HOSTS := allowed_git_hosts (Some "github.com, GitLab.com ");
       MAX_ZIP_BYTES := MAX_ZIP_BYTES default_config;
       MAX_EXTRACT_BYTES := MAX_EXTRACT_BYTES default_config;
       MAX_FILE_BYTES := MAX_FILE_BYTES default_config;
       GIT_CLONE_TIMEOUT_SECONDS := GIT_CLONE_TIMEOUT_SECONDS default_config |}
    any_bracketed_netloc
    ("https://" +:+ "gitlab.COM" +:+ "/" +:+ "owner" +:+ "/" +:+ "repo")
  = inr ("https://" +:+ Py.lower "gitlab.COM" +:+ "/" +:+ "owner" +:+ "/"
         +:+ strip_git "repo" +:+ ".git").
Proof.
  apply (normalize_repo_url_matches_configured_host _ _
           "github.com, GitLab.com " " GitLab.com ");
    try reflexivity.
  - vm_compute. right. left. reflexivity.
  - vm_compute. discriminate.
  - discriminate.
  - apply Nat.leb_le. reflexivity.
Defined.
